(** * Belgian bank statement import

    A shallow embedding of the CSV normalisation pipeline
    ([src/services/csvParser.js]), of the upload route that persists the
    parsed transactions ([routes/upload.js], listed after
    [src/config/database.js]) and of the two tables the route writes
    ([sql/init.sql]), together with the properties the specification states
    about them.  It is followed by the earlier, positional version of the
    parser, the constructor of the database object, the statements of the
    list route ([routes/transactions.js]) and a helper of the front end,
    with properties read off the code.

    JavaScript strings are sequences of UTF-16 code units, modelled as
    [list N].  Numbers are modelled by the exact value they denote: an
    integer by [Z], a decimal by a reduced fraction in [Q]; the IEEE double
    the engine holds is the rounding of that value, so equal values here are
    equal Numbers there; where an integer is printed ([Number_toString]) the
    rounding is carried out.  What the code takes from libraries outside the
    repository (the CSV tokenizer, the digest, the database server) is a
    parameter of the model, see [Env]. *)

From Stdlib Require Import String Ascii.
From Stdlib Require Import List ZArith NArith QArith Bool Lia Arith.
From Stdlib Require DecimalString.
Import ListNotations.

Open Scope nat_scope.

Set Implicit Arguments.

(** ** JavaScript strings *)

Definition jsstring := list N.

Definition js (s : string) : jsstring := map N_of_ascii (list_ascii_of_string s).

Definition ch (a : ascii) : N := N_of_ascii a.

Arguments js s%_string.
Arguments ch a%_char.

Fixpoint str_eqb (a b : jsstring) : bool :=
  match a, b with
  | [], [] => true
  | x :: a', y :: b' => (x =? y)%N && str_eqb a' b'
  | _, _ => false
  end.

Definition isEmpty (s : jsstring) : bool :=
  match s with [] => true | _ :: _ => false end.

(** ECMAScript LineTerminator and WhiteSpace code points; [trim], [parseInt],
    [parseFloat] and the regular expression class [\s] all use their union. *)
Definition isLineTerminator (c : N) : bool :=
  ((c =? 10) || (c =? 13) || (c =? 0x2028) || (c =? 0x2029))%N.

Definition isWhiteSpace (c : N) : bool :=
  ((c =? 9) || (c =? 11) || (c =? 12) || (c =? 32) || (c =? 160)
   || (c =? 0x1680) || ((0x2000 <=? c) && (c <=? 0x200A))
   || (c =? 0x202F) || (c =? 0x205F) || (c =? 0x3000) || (c =? 0xFEFF))%N.

Definition isSpace (c : N) : bool := isWhiteSpace c || isLineTerminator c.

(** [\d] *)
Definition isDigit (c : N) : bool := ((48 <=? c) && (c <=? 57))%N.

Fixpoint dropWhile (p : N -> bool) (s : jsstring) : jsstring :=
  match s with
  | [] => []
  | c :: r => if p c then dropWhile p r else s
  end.

Fixpoint takeWhile (p : N -> bool) (s : jsstring) : jsstring :=
  match s with
  | [] => []
  | c :: r => if p c then c :: takeWhile p r else []
  end.

Definition trimStart (s : jsstring) : jsstring := dropWhile isSpace s.
Definition trimEnd (s : jsstring) : jsstring := rev (dropWhile isSpace (rev s)).
Definition trim (s : jsstring) : jsstring := trimEnd (trimStart s).

(** [s.startsWith(p)] *)
Fixpoint startsWith (p s : jsstring) : bool :=
  match p, s with
  | [], _ => true
  | x :: p', y :: s' => (x =? y)%N && startsWith p' s'
  | _ :: _, [] => false
  end.

(** [s.split(sep)] for a one-character separator *)
Fixpoint split (sep : N) (s : jsstring) : list jsstring :=
  match s with
  | [] => [[]]
  | c :: r =>
      if (c =? sep)%N then [] :: split sep r
      else match split sep r with
           | p :: ps => (c :: p) :: ps
           | [] => [[c]]
           end
  end.

(** [s.replace(a, b)] with a one-character string pattern: the first
    occurrence only *)
Fixpoint replaceFirst (a b : N) (s : jsstring) : jsstring :=
  match s with
  | [] => []
  | c :: r => if (c =? a)%N then b :: r else c :: replaceFirst a b r
  end.

(** [s.padStart(n, fill)] with a one-character fill *)
Definition padStart (n : nat) (fill : N) (s : jsstring) : jsstring :=
  repeat fill (n - length s) ++ s.

(** ** JavaScript numbers *)

(** The value of a digit in a radix, [None] when the character is not a digit
    of that radix. *)
Definition digitValue (radix c : N) : option N :=
  let v := if ((48 <=? c) && (c <=? 57))%N then Some (c - 48)%N
           else if ((97 <=? c) && (c <=? 122))%N then Some (c - 87)%N
           else if ((65 <=? c) && (c <=? 90))%N then Some (c - 55)%N
           else None in
  match v with
  | Some d => if (d <? radix)%N then Some d else None
  | None => None
  end.

(** Digit values of the longest prefix made of radix digits. *)
Fixpoint digitsPrefix (radix : N) (s : jsstring) : list N :=
  match s with
  | [] => []
  | c :: r =>
      match digitValue radix c with
      | Some d => d :: digitsPrefix radix r
      | None => []
      end
  end.

Definition mathInt (radix : N) (ds : list N) : N :=
  fold_left (fun acc d => acc * radix + d)%N ds 0%N.

(** A leading sign, read by [parseInt] and [parseFloat] alike: whether it is
    a minus, and what follows it. *)
Definition signOf (t : jsstring) : bool * jsstring :=
  match t with
  | c :: r => if (c =? ch "-")%N then (true, r)
              else if (c =? ch "+")%N then (false, r)
              else (false, t)
  | [] => (false, t)
  end.

(** [parseInt(s)] without a radix argument.  [None] is NaN.  The result is
    the mathematical integer; the engine rounds it to a double, which is the
    same number while its magnitude stays below 2^53.  The rounding, which
    V8 applies once to the exact integer, keeps the order with respect to 1,
    12 and 31, and [Number_toString] prints the rounded number. *)
Definition parseInt (s : jsstring) : option Z :=
  let '(neg, s1) := signOf (trimStart s) in
  let '(radix, s2) :=
    match s1 with
    | a :: b :: r =>
        if ((a =? ch "0") && ((b =? ch "x") || (b =? ch "X")))%N
        then (16%N, r) else (10%N, s1)
    | _ => (10%N, s1)
    end in
  match digitsPrefix radix s2 with
  | [] => None
  | ds => Some ((if neg then -1 else 1) * Z.of_N (mathInt radix ds))%Z
  end.

(** A Number as [parseFloat] can return it. *)
Inductive JSNumber : Type :=
| NaN
| Infinity (negative : bool)
| Finite (q : Q).

(** The number [± ds × 10^k] as a reduced fraction. *)
Definition decimal (negative : bool) (ds : list N) (k : Z) : Q :=
  let m := Z.of_N (mathInt 10 ds) in
  let m := if negative then (- m)%Z else m in
  Qred (if (0 <=? k)%Z then (m * 10 ^ k)%Z # 1
        else m # Z.to_pos (10 ^ (- k))).

Definition num (q : Q) : JSNumber := Finite (Qred q).

(** ExponentPart of a StrDecimalLiteral: [e] or [E], an optional sign and at
    least one digit; 0 when the text does not start with one. *)
Definition exponentPart (s : jsstring) : Z :=
  match s with
  | c :: r =>
      if ((c =? ch "e") || (c =? ch "E"))%N then
        let '(neg, r') :=
          match r with
          | d :: t => if (d =? ch "-")%N then (true, t)
                      else if (d =? ch "+")%N then (false, t)
                      else (false, r)
          | [] => (false, r)
          end in
        match digitsPrefix 10 r' with
        | [] => 0%Z
        | ds => let e := Z.of_N (mathInt 10 ds) in if neg then (- e)%Z else e
        end
      else 0%Z
  | [] => 0%Z
  end.

(** The digits after a decimal point and what follows them; no digits and
    the text itself when it does not start with a point. *)
Definition fractionPart (r1 : jsstring) : list N * jsstring :=
  match r1 with
  | c :: r =>
      if (c =? ch ".")%N
      then (digitsPrefix 10 r, skipn (length (digitsPrefix 10 r)) r)
      else ([], r1)
  | [] => ([], r1)
  end.

(** The longest prefix of [u] that is a StrUnsignedDecimalLiteral, as a
    number of the given sign; NaN when there is none. *)
Definition strUnsignedDecimalLiteral (neg : bool) (u : jsstring) : JSNumber :=
  if startsWith (js "Infinity") u then Infinity neg else
  let ip := digitsPrefix 10 u in
  let '(fp, r2) := fractionPart (skipn (length ip) u) in
  match ip, fp with
  | [], [] => NaN
  | _, _ => Finite (decimal neg (ip ++ fp) (exponentPart r2 - Z.of_nat (length fp)))
  end.

(** [parseFloat(s)]: leading white space is skipped, then the longest prefix
    that is a StrDecimalLiteral is read. *)
Definition parseFloat (s : jsstring) : JSNumber :=
  let '(neg, u) := signOf (trimStart s) in
  strUnsignedDecimalLiteral neg u.

(** The Number that holds a natural number: the nearest double, a tie going
    to the even significand; [None] when the magnitude overflows to
    Infinity.  Every natural number below 2^53 is a double. *)
Definition nearestDouble (n : N) : option N :=
  if (n <? 2 ^ 53)%N then Some n else
  let shift := (N.log2 n - 52)%N in
  let q := N.shiftr n shift in
  let r := (n - N.shiftl q shift)%N in
  let half := N.shiftl 1 (shift - 1) in
  let q' := if (half <? r)%N || ((r =? half)%N && N.odd q)
            then (q + 1)%N else q in
  let m := N.shiftl q' shift in
  if (m <? 2 ^ 1024)%N then Some m else None.

(** The decimal digits of a natural number. *)
Definition decimalDigits (n : N) : jsstring :=
  js (DecimalString.NilZero.string_of_uint (N.to_uint n)).

(** Whether the natural number [v] is held as the double [m]. *)
Definition readsAs (v m : N) : bool :=
  match nearestDouble v with
  | Some x => (x =? m)%N
  | None => false
  end.

(** The decimal with the fewest significant digits that is held as the
    double [m], tried with [k], [k + 1], ... significant digits ([len] is
    the number of digits of [m]); of two with as few digits the one closer
    to [m], of two as close the one with the even last digit.  Seventeen
    digits always suffice. *)
Fixpoint shortestDecimal (fuel k len : nat) (m : N) : N :=
  match fuel with
  | O => m
  | S fuel' =>
      if len <=? k then m else
      let p := (10 ^ N.of_nat (len - k))%N in
      let lo := (m / p * p)%N in
      let hi := (lo + p)%N in
      match readsAs lo m, readsAs hi m with
      | true, true =>
          if (m - lo <? hi - m)%N then lo
          else if (hi - m <? m - lo)%N then hi
          else if N.even (m / p) then lo else hi
      | true, false => lo
      | false, true => hi
      | false, false => shortestDecimal fuel' (S k) len m
      end
  end.

(** [Number::toString] of a double that is a natural number: the digits of
    its shortest decimal, in full up to 21 digits and in exponent form
    beyond. *)
Definition printDouble (m : N) : jsstring :=
  let v := if (m <? 2 ^ 53)%N then m
           else shortestDecimal 17 1 (length (decimalDigits m)) m in
  let ds := decimalDigits v in
  let n := length ds in
  if n <=? 21 then ds else
  match rev (dropWhile (fun c => (c =? ch "0")%N) (rev ds)) with
  | d :: rest =>
      d :: match rest with
           | [] => []
           | _ :: _ => ch "." :: rest
           end
        ++ js "e+" ++ decimalDigits (N.of_nat (n - 1))
  | [] => ds
  end.

(** [String(x)] (template literal, [toString]) of the Number [x] that holds
    the integer [z], as [parseInt] returns it: the integer itself below
    2^53, the nearest double beyond, Infinity from 2^1024 on. *)
Definition Number_toString (z : Z) : jsstring :=
  (if (z <? 0)%Z then [ch "-"] else [])
  ++ match nearestDouble (Z.abs_N z) with
     | Some m => printDouble m
     | None => js "Infinity"
     end.

(** ** Field normalisers ([csvParser.js]) *)

(** [parseDate(dateStr)], DD/MM/YYYY to YYYY-MM-DD; [None] is [null]. *)
Definition parseDate (dateStr : jsstring) : option jsstring :=
  if isEmpty dateStr || isEmpty (trim dateStr) then None else
  match split (ch "/") dateStr with
  | [p0; p1; p2] =>
      match parseInt p0, parseInt p1, parseInt p2 with
      | Some day, Some month, Some year =>
          if ((day <? 1) || (day >? 31) || (month <? 1) || (month >? 12))%Z
          then None
          else Some (Number_toString year ++ js "-"
                     ++ padStart 2 (ch "0") (Number_toString month) ++ js "-"
                     ++ padStart 2 (ch "0") (Number_toString day))
      | _, _, _ => None
      end
  | _ => None
  end.

(** The characters the cleaning regular expression [/[^\d,.-]/g] keeps. *)
Definition amountChar (c : N) : bool :=
  (isDigit c || (c =? ch ",") || (c =? ch ".") || (c =? ch "-"))%N.

(** [parseAmount(amountStr)]; [None] is [null]. *)
Definition parseAmount (amountStr : jsstring) : option JSNumber :=
  if isEmpty amountStr || isEmpty (trim amountStr) then None else
  let cleaned := filter amountChar amountStr in
  let cleaned := replaceFirst (ch ",") (ch ".") cleaned in
  match parseFloat cleaned with
  | NaN => None
  | amount => Some amount
  end.

(** The anchored regular expression [/^(\d+)\s+(.+)$/]: the two groups.  The
    digits and the white space are matched greedily; [(.+)] takes the rest,
    which must hold no line terminator.  When nothing follows the white
    space, the last white-space character is given back to [(.+)]. *)
Definition matchPostalCodeCity (s : jsstring) : option (jsstring * jsstring) :=
  let ds := takeWhile isDigit s in
  let r1 := dropWhile isDigit s in
  let w := takeWhile isSpace r1 in
  let r2 := dropWhile isSpace r1 in
  match ds, w with
  | [], _ => None
  | _, [] => None
  | _, _ =>
      match r2 with
      | _ :: _ =>
          if forallb (fun c => negb (isLineTerminator c)) r2
          then Some (ds, r2) else None
      | [] =>
          match rev w with
          | l :: _ :: _ => if isLineTerminator l then None else Some (ds, [l])
          | _ => None
          end
      end
  end.

(** [parsePostalCodeCity(postalCodeCity)]: the pair (postalCode, city);
    the argument is [None] when it is [undefined]. *)
Definition parsePostalCodeCity (postalCodeCity : option jsstring)
  : option jsstring * option jsstring :=
  match postalCodeCity with
  | None => (None, None)
  | Some s =>
      if isEmpty s || isEmpty (trim s) then (None, None) else
      match matchPostalCodeCity s with
      | Some (g1, g2) => (Some (trim g1), Some (trim g2))
      | None => (None, Some (trim s))
      end
  end.

(** Leftmost match of an anchored matcher, as [String.prototype.match] with
    a regular expression without flags searches. *)
Fixpoint search (A : Type) (m : jsstring -> option A) (s : jsstring) : option A :=
  match m s with
  | Some x => Some x
  | None => match s with
            | [] => None
            | _ :: r => search m r
            end
  end.

(** [/REF\.\s*:\s*([^\s]+)/] anchored at the head of [s]: group 1. *)
Definition matchRef (s : jsstring) : option jsstring :=
  if startsWith (js "REF.") s then
    match dropWhile isSpace (skipn 4 s) with
    | c :: r =>
        if (c =? ch ":")%N then
          match takeWhile (fun x => negb (isSpace x)) (dropWhile isSpace r) with
          | [] => None
          | tok => Some tok
          end
        else None
    | [] => None
    end
  else None.

(** [[a-f0-9]] *)
Definition isLowerHex (c : N) : bool :=
  (((97 <=? c) && (c <=? 102)) || ((48 <=? c) && (c <=? 57)))%N.

(** [/Payconiq\s+([a-f0-9]+)/] anchored at the head of [s]: group 1. *)
Definition matchPayconiq (s : jsstring) : option jsstring :=
  if startsWith (js "Payconiq") s then
    let r := skipn 8 s in
    match takeWhile isSpace r with
    | [] => None
    | _ =>
        match takeWhile isLowerHex (dropWhile isSpace r) with
        | [] => None
        | tok => Some tok
        end
    end
  else None.

(** [extractReference(description)]; [None] is [null]. *)
Definition extractReference (description : option jsstring) : option jsstring :=
  match description with
  | None => None
  | Some [] => None
  | Some d =>
      match search matchRef d with
      | Some r => Some r
      | None => search matchPayconiq d
      end
  end.

(** ** Row mapper *)

(** A header-keyed record as the tokenizer yields it: the properties in
    [Object.values] order, every value a string. *)
Definition Row := list (jsstring * jsstring).

(** [row[key]]; [None] is [undefined]. *)
Fixpoint get (key : jsstring) (row : Row) : option jsstring :=
  match row with
  | [] => None
  | (k, v) :: r => if str_eqb k key then Some v else get key r
  end.

(** [Object.values(row)] *)
Definition values (row : Row) : list jsstring := map snd row.

(** [row[key]?.toString().trim()] *)
Definition field (key : string) (row : Row) : option jsstring :=
  option_map trim (get (js key) row).

(** [!v] for a value that is [undefined] or a string *)
Definition falsy (v : option jsstring) : bool :=
  match v with
  | None => true
  | Some s => isEmpty s
  end.

(** [v || null] *)
Definition orNull (v : option jsstring) : option jsstring :=
  if falsy v then None else v.

(** The canonical transaction.  An [option] field is [null] when [None],
    except [referenceNumber], which is never [null]: it is a string or, when
    [None], [undefined]. *)
Record Transaction := {
  accountNumber : jsstring;
  statementNumber : option jsstring;
  transactionNumber : option jsstring;
  bookingDate : jsstring;
  valueDate : option jsstring;
  counterpartAccount : option jsstring;
  counterpartName : option jsstring;
  counterpartAddress : option jsstring;
  counterpartPostalCode : option jsstring;
  counterpartCity : option jsstring;
  transactionType : option jsstring;
  amount : JSNumber;
  currency : jsstring;
  bic : option jsstring;
  countryCode : option jsstring;
  description : option jsstring;
  referenceNumber : option jsstring
}.

(** How a call ends: with a value or with a thrown [Error(message)]. *)
Inductive Outcome (A : Type) : Type :=
| Returned (a : A)
| Thrown (message : jsstring).

Arguments Returned {A} a.
Arguments Thrown {A} message.

(** [parseTransactionRow(row)]; [Returned None] is [return null]. *)
Definition parseTransactionRow (row : Row) : Outcome (option Transaction) :=
  let accountNumber := field "Rekening" row in
  let bookingDateStr := field "Boekingsdatum" row in
  let statementNumber := field "Rekeninguittrekselnummer" row in
  let transactionNumber := field "Transactienummer" row in
  let counterpartAccount := field "Rekening tegenpartij" row in
  let counterpartName := field "Naam tegenpartij bevat" row in
  let counterpartAddress := field "Straat en nummer" row in
  let counterpartPostalCode := field "Postcode en plaats" row in
  let transactionType := field "Transactie" row in
  let valueDateStr := field "Valutadatum" row in
  let amountStr := field "Bedrag" row in
  let currency := match field "Devies" row with
                  | Some (c :: r) => c :: r
                  | _ => js "EUR"
                  end in
  let bic := field "BIC" row in
  let countryCode := field "Landcode" row in
  let description := field "Mededelingen" row in
  match accountNumber, bookingDateStr, amountStr with
  | Some (a :: an), Some (b :: bn), Some (m :: mn) =>
      let bookingDate := parseDate (b :: bn) in
      let valueDate := match valueDateStr with
                       | Some v => parseDate v
                       | None => None
                       end in
      match bookingDate with
      | None => Thrown (js "Invalid booking date: " ++ (b :: bn))
      | Some bookingDate =>
          match parseAmount (m :: mn) with
          | None => Thrown (js "Invalid amount: " ++ (m :: mn))
          | Some amount =>
              let '(postalCode, city) := parsePostalCodeCity counterpartPostalCode in
              let referenceNumber :=
                match extractReference description with
                | Some r => Some r
                | None => transactionNumber
                end in
              Returned (Some {|
                accountNumber := a :: an;
                statementNumber := orNull statementNumber;
                transactionNumber := orNull transactionNumber;
                bookingDate := bookingDate;
                valueDate := valueDate;
                counterpartAccount := orNull counterpartAccount;
                counterpartName := orNull counterpartName;
                counterpartAddress := orNull counterpartAddress;
                counterpartPostalCode := postalCode;
                counterpartCity := city;
                transactionType := orNull transactionType;
                amount := amount;
                currency := currency;
                bic := orNull bic;
                countryCode := orNull countryCode;
                description := orNull description;
                referenceNumber := referenceNumber
              |})
          end
      end
  | _, _, _ => Returned None
  end.

(** ** CSV parser *)

(** What the code writes to the console, line by line. *)
Inductive ConsoleLine : Type :=
| LogTokenizerErrors (messages : list jsstring)
| LogProcessing (rows : nat)
| LogHeaders (keys : list jsstring)
| LogSkipRow (row : nat)
| LogRowError (row : nat) (message : jsstring)
| LogParsed (count : nat)
| LogUpload (name : jsstring)
| LogImportError (row : nat) (message : jsstring)
| LogImportCompleted (imported skipped errors : nat)
| LogUploadError (message : jsstring).

Module Papa.
(** The result of [Papa.parse(content, config)] with [header: true]:
    the records and the messages of the tokenizer's errors. *)
Record Result := { data : list Row; errors : list jsstring }.
End Papa.

(** [{success: true, transactions}] or [{success: false, error}] *)
Inductive ParseResult : Type :=
| Success (transactions : list Transaction)
| Failure (error : jsstring).

(** [val && val.toString().trim()] *)
Definition nonBlank (v : jsstring) : bool :=
  negb (isEmpty v) && negb (isEmpty (trim v)).

(** [row['Rekening'] || Object.values(row)[0]] *)
Definition accountCell (row : Row) : option jsstring :=
  match get (js "Rekening") row with
  | Some (c :: r) => Some (c :: r)
  | _ => hd_error (values row)
  end.

(** The body of the [for] loop of [parseBelgianBankCSV], from row [i] on,
    over the accumulated [transactions] and console output. *)
Fixpoint processRows (i : nat) (rows : list Row)
    (transactions : list Transaction) (console : list ConsoleLine)
  : list Transaction * list ConsoleLine :=
  match rows with
  | [] => (transactions, console)
  | row :: rest =>
      if negb (existsb nonBlank (values row)) then
        processRows (S i) rest transactions console
      else
        match accountCell row with
        | Some (c :: r) =>
            if startsWith (js "BE") (c :: r) then
              match parseTransactionRow row with
              | Returned (Some transaction) =>
                  processRows (S i) rest (transactions ++ [transaction]) console
              | Returned None =>
                  processRows (S i) rest transactions console
              | Thrown message =>
                  processRows (S i) rest transactions
                    (console ++ [LogRowError (i + 1) message])
              end
            else
              processRows (S i) rest transactions (console ++ [LogSkipRow (i + 1)])
        | _ =>
            processRows (S i) rest transactions (console ++ [LogSkipRow (i + 1)])
        end
  end.

Section Parser.

(** [Papa.parse] under the parser's configuration (delimiter [;], header
    row, empty lines skipped, header names stripped of the byte-order mark
    and trimmed).  The library is not part of the repository. *)
Variable Papa_parse : jsstring -> Papa.Result.

(** [parseBelgianBankCSV(csvContent)] with its console output.  On rows of
    strings nothing outside the inner [try] throws, so the outer [catch] is
    not reached. *)
Definition parseBelgianBankCSV (csvContent : jsstring)
  : ParseResult * list ConsoleLine :=
  let parsed := Papa_parse csvContent in
  match Papa.errors parsed with
  | e :: _ =>
      (Failure (js "CSV parsing failed: " ++ e),
       [LogTokenizerErrors (Papa.errors parsed)])
  | [] =>
      let rows := Papa.data parsed in
      let headers := match rows with
                     | r :: _ => map fst r
                     | [] => []
                     end in
      let '(transactions, console) :=
        processRows 0 rows [] [LogProcessing (length rows); LogHeaders headers] in
      match transactions with
      | [] =>
          (Failure (js "No valid transactions found in CSV file. Please check the file format."),
           console)
      | _ :: _ =>
          (Success transactions, console ++ [LogParsed (length transactions)])
      end
  end.

End Parser.

(** ** Storage ([sql/init.sql]) *)

(** An error a statement is rejected with; [code] is [None] when the error
    object has none. *)
Record QueryError := { code : option jsstring; message : jsstring }.

(** [{row, error}] *)
Record RowError := { row : nat; error : jsstring }.

Inductive ImportStatus : Type := pending | processing | completed | failed.

(** The [error_message] column: the parser's message, or the serialised error
    sample, kept as the value [JSON.stringify] is applied to. *)
Inductive ErrorMessage : Type :=
| ErrorText (text : jsstring)
| ErrorSample (sample : list RowError).

(** A row of [import_logs]. *)
Record ImportLog := {
  id : nat;
  filename : jsstring;
  file_hash : jsstring;
  total_records : nat;
  imported_records : nat;
  skipped_records : nat;
  error_records : nat;
  import_status : ImportStatus;
  error_message : option ErrorMessage;
  imported_at : nat;
  completed_at : option nat
}.

(** A row of [transactions]: the seventeen mapped columns and [file_hash]. *)
Record StoredTransaction := {
  stored : Transaction;
  stored_file_hash : jsstring
}.

Record Database := {
  import_logs : list ImportLog;
  transactions : list StoredTransaction
}.

(** What the route takes from outside the repository: the tokenizer, the
    digest, the decoding of the file buffer, the database server's handling
    of a row's columns, and the deployment mode.  [log_error] is the error
    the server raises for the INSERT of an [import_logs] row with the given
    file name and fingerprint (a name too long for the column, say).
    [column_error] is the error the server (or the driver) raises for a
    transaction row before the unique key is looked at: a wrong date, a value
    out of range or too long, an [undefined] bind parameter.  [sql_varchar],
    [sql_date] and [sql_decimal] give the value a VARCHAR, DATE and
    DECIMAL(12,2) key column holds and compares for a bound value.
    [development] is [process.env.NODE_ENV === 'development']. *)
Record Env := {
  Papa_parse : jsstring -> Papa.Result;
  md5 : list Byte.byte -> jsstring;
  utf8 : list Byte.byte -> jsstring;
  log_error : jsstring -> jsstring -> option QueryError;
  column_error : Transaction -> option QueryError;
  sql_varchar : jsstring -> jsstring;
  sql_date : jsstring -> jsstring;
  sql_decimal : JSNumber -> Q;
  development : bool
}.

(** What the handler does besides answering and changing the database. *)
Inductive Effect : Type :=
| Console (line : ConsoleLine)
| ParserCall (content : jsstring)
| InsertCall (transaction : Transaction)
| Unlink (path : jsstring).

(** [req.file] as multer leaves it. *)
Record UploadedFile := {
  path : jsstring;
  originalname : jsstring;
  buffer : list Byte.byte
}.

Record Request := { file : option UploadedFile }.

(** [summary] of the success response *)
Record Summary := {
  totalRecords : nat;
  imported : nat;
  skipped : nat;
  errors : nat
}.

Inductive Response : Type :=
| RespError (status : nat) (error : jsstring)
| RespDuplicate (status : nat) (error : jsstring) (importDate : nat)
| RespSuccess (summary : Summary) (errors : list RowError)
| RespFailed (status : nat) (error : jsstring) (details : option jsstring).

Section Upload.

Variable E : Env.

(** Equality of two values of a nullable VARCHAR key column: a NULL is
    equal to nothing in a unique index. *)
Definition sql_eq_nullable (a b : option jsstring) : bool :=
  match a, b with
  | Some x, Some y => str_eqb (sql_varchar E x) (sql_varchar E y)
  | _, _ => false
  end.

(** [UNIQUE KEY unique_transaction (account_number, booking_date, amount,
    counterpart_account, reference_number)]: whether two rows collide. *)
Definition unique_transaction (a b : Transaction) : bool :=
  str_eqb (sql_varchar E (accountNumber a)) (sql_varchar E (accountNumber b))
  && str_eqb (sql_date E (bookingDate a)) (sql_date E (bookingDate b))
  && Qeq_bool (sql_decimal E (amount a)) (sql_decimal E (amount b))
  && sql_eq_nullable (counterpartAccount a) (counterpartAccount b)
  && sql_eq_nullable (referenceNumber a) (referenceNumber b).

Definition ER_DUP_ENTRY : QueryError :=
  {| code := Some (js "ER_DUP_ENTRY");
     message := js "Duplicate entry for key 'unique_transaction'" |}.

(** [INSERT INTO transactions (...) VALUES (...)] *)
Definition insertTransaction (t : Transaction) (fileHash : jsstring)
    (db : Database) : Database * option QueryError :=
  match column_error E t with
  | Some e => (db, Some e)
  | None =>
      if existsb (fun s => unique_transaction t (stored s)) (transactions db)
      then (db, Some ER_DUP_ENTRY)
      else ({| import_logs := import_logs db;
               transactions := transactions db
                 ++ [{| stored := t; stored_file_hash := fileHash |}] |},
            None)
  end.

(** [SELECT * FROM import_logs WHERE file_hash = ?] *)
Definition selectLogs (fileHash : jsstring) (db : Database) : list ImportLog :=
  filter (fun l => str_eqb (file_hash l) fileHash) (import_logs db).

(** The AUTO_INCREMENT key of a new row: above every key in the table. *)
Definition nextId (db : Database) : nat :=
  S (list_max (map id (import_logs db))).

(** The row [INSERT INTO import_logs (filename, file_hash, import_status)]
    adds: the other columns take their defaults. *)
Definition newLog (now : nat) (name fileHash : jsstring) (db : Database)
  : ImportLog :=
  {| id := nextId db;
     filename := name;
     file_hash := fileHash;
     total_records := 0;
     imported_records := 0;
     skipped_records := 0;
     error_records := 0;
     import_status := processing;
     error_message := None;
     imported_at := now;
     completed_at := None |}.

(** The INSERT and its [insertId]. *)
Definition insertLog (now : nat) (name fileHash : jsstring) (db : Database)
  : Database * nat :=
  ({| import_logs := import_logs db ++ [newLog now name fileHash db];
      transactions := transactions db |},
   nextId db).

(** [UPDATE import_logs SET ... WHERE id = ?] *)
Definition updateLog (logId : nat) (set : ImportLog -> ImportLog)
    (db : Database) : Database :=
  {| import_logs :=
       map (fun l => if id l =? logId then set l else l) (import_logs db);
     transactions := transactions db |}.

Definition setFailed (message : jsstring) (l : ImportLog) : ImportLog :=
  {| id := id l; filename := filename l; file_hash := file_hash l;
     total_records := total_records l;
     imported_records := imported_records l;
     skipped_records := skipped_records l;
     error_records := error_records l;
     import_status := failed;
     error_message := Some (ErrorText message);
     imported_at := imported_at l;
     completed_at := completed_at l |}.

Definition setCompleted (now total importedCount skippedCount errorCount : nat)
    (errs : list RowError) (l : ImportLog) : ImportLog :=
  {| id := id l; filename := filename l; file_hash := file_hash l;
     total_records := total;
     imported_records := importedCount;
     skipped_records := skippedCount;
     error_records := errorCount;
     import_status := if errorCount =? 0 then completed else completed;
     error_message := match errs with
                      | [] => None
                      | _ :: _ => Some (ErrorSample (firstn 10 errs))
                      end;
     imported_at := imported_at l;
     completed_at := Some now |}.

(** The loop state of the route: the three counters and the error list. *)
Record Counters := {
  importedCount : nat;
  skippedCount : nat;
  errorCount : nat;
  errorList : list RowError
}.

(** The counters and the error list before the loop. *)
Definition noCounts : Counters :=
  {| importedCount := 0; skippedCount := 0; errorCount := 0; errorList := [] |}.

(** The [for] loop over the parsed transactions, from index [i] on. *)
Fixpoint importRows (fileHash : jsstring) (i : nat) (txs : list Transaction)
    (db : Database) (c : Counters) (trace : list Effect)
  : Database * Counters * list Effect :=
  match txs with
  | [] => (db, c, trace)
  | transaction :: rest =>
      match insertTransaction transaction fileHash db with
      | (db', None) =>
          importRows fileHash (S i) rest db'
            {| importedCount := S (importedCount c);
               skippedCount := skippedCount c;
               errorCount := errorCount c;
               errorList := errorList c |}
            (trace ++ [InsertCall transaction])
      | (db', Some err) =>
          if match code err with
             | Some k => str_eqb k (js "ER_DUP_ENTRY")
             | None => false
             end
          then
            importRows fileHash (S i) rest db'
              {| importedCount := importedCount c;
                 skippedCount := S (skippedCount c);
                 errorCount := errorCount c;
                 errorList := errorList c |}
              (trace ++ [InsertCall transaction])
          else
            importRows fileHash (S i) rest db'
              {| importedCount := importedCount c;
                 skippedCount := skippedCount c;
                 errorCount := S (errorCount c);
                 errorList := errorList c
                   ++ [{| row := i + 1; error := message err |}] |}
              (trace ++ [InsertCall transaction;
                         Console (LogImportError (i + 1) (message err))])
      end
  end.

(** [router.post('/', upload.single('csvFile'), ...)]: the handler, run at
    server time [now] on database [db].  The INSERT of the log row can be
    refused, which the outer [catch] answers with status 500; the SELECT and
    the UPDATE of [import_logs] and the file system calls are taken to
    succeed. *)
Definition upload (now : nat) (req : Request) (db : Database)
  : Database * Response * list Effect :=
  match file req with
  | None => (db, RespError 400 (js "No file uploaded"), [])
  | Some f =>
      let filePath := path f in
      let originalName := originalname f in
      let fileBuffer := buffer f in
      let fileHash := md5 E fileBuffer in
      let existingLog := selectLogs fileHash db in
      match existingLog, log_error E originalName fileHash with
      | l :: _, _ =>
          (db,
           RespDuplicate 409 (js "File already processed") (imported_at l),
           [Console (LogUpload originalName); Unlink filePath])
      | [], Some err =>
          (db,
           RespFailed 500 (js "Failed to process file")
             (if development E then Some (message err) else None),
           [Console (LogUpload originalName);
            Console (LogUploadError (message err));
            Unlink filePath])
      | [], None =>
          let '(db1, logId) := insertLog now originalName fileHash db in
          let fileContent := utf8 E fileBuffer in
          let '(parseResult, out) :=
            parseBelgianBankCSV (Papa_parse E) fileContent in
          let trace := Console (LogUpload originalName)
                       :: ParserCall fileContent :: map Console out in
          match parseResult with
          | Failure err =>
              (updateLog logId (setFailed err) db1,
               RespError 400 err,
               trace ++ [Unlink filePath])
          | Success txs =>
              let '(db2, c, trace2) :=
                importRows fileHash 0 txs db1 noCounts trace in
              (updateLog logId
                 (setCompleted now (length txs) (importedCount c)
                    (skippedCount c) (errorCount c) (errorList c)) db2,
               RespSuccess
                 {| totalRecords := length txs;
                    imported := importedCount c;
                    skipped := skippedCount c;
                    errors := errorCount c |}
                 (firstn 5 (errorList c)),
               trace2 ++ [Unlink filePath;
                          Console (LogImportCompleted (importedCount c)
                                     (skippedCount c) (errorCount c))])
          end
      end
  end.

End Upload.

(** ** A concrete environment

    For the worked examples: a tokenizer for the plain case (line feeds,
    no quoted field, as many fields on every line as in the header), the
    file bytes themselves as fingerprint, ASCII decoding, and a server that
    accepts every row and compares key columns exactly. *)
Module Demo.

Local Open Scope string_scope.
Local Open Scope list_scope.

Definition plainTokenizer (content : jsstring) : Papa.Result :=
  match filter (fun l => negb (isEmpty l)) (split 10%N content) with
  | [] => {| Papa.data := []; Papa.errors := [] |}
  | header :: lines =>
      let keys := map trim (split (ch ";") header) in
      let mismatch :=
        filter (fun l => negb (Nat.eqb (length (split (ch ";") l)) (length keys))) lines in
      {| Papa.data := map (fun l => combine keys (split (ch ";") l)) lines;
         Papa.errors := map (fun _ => js "Too few or too many fields") mismatch |}
  end.

Definition decode (b : list Byte.byte) : jsstring := map Byte.to_N b.

Definition env : Env :=
  {| Papa_parse := plainTokenizer;
     md5 := decode;
     utf8 := decode;
     log_error := fun _ _ => None;
     column_error := fun _ => None;
     sql_varchar := fun s => s;
     sql_date := fun s => s;
     sql_decimal := fun n => match n with Finite q => q | _ => 0%Q end;
     development := false |}.

Definition emptyDb : Database := {| import_logs := []; transactions := [] |}.

(** A file of the given lines, each ended by a line feed. *)
Definition csv (lines : list string) : list Byte.byte :=
  flat_map (fun l => list_byte_of_string l ++ [Byte.x0a]) lines.

Definition post (name : string) (content : list Byte.byte) : Request :=
  {| file := Some {| path := js "uploads/" ++ js name;
                     originalname := js name;
                     buffer := content |} |}.

Definition header : string :=
  "Rekening;Boekingsdatum;Transactienummer;Rekening tegenpartij;Bedrag;Mededelingen".

(** Ten rows that pass the structural checks; the amounts of rows 4 and 9
    cannot be parsed. *)
Definition tenRows : list Byte.byte := csv [
  header;
  "BE68539007547034;01/03/2024;1;BE71096123456769;-12,30;HUUR";
  "BE68539007547034;02/03/2024;2;BE71096123456769;1234,56;LOON";
  "BE68539007547034;03/03/2024;3;BE71096123456769;-5,00;KOFFIE";
  "BE68539007547034;04/03/2024;4;BE71096123456769;n/a;ONBEKEND";
  "BE68539007547034;05/03/2024;5;BE71096123456769;-20,00;BOEKEN";
  "BE68539007547034;06/03/2024;6;BE71096123456769;-7,45;LUNCH";
  "BE68539007547034;07/03/2024;7;BE71096123456769;15,00;TERUGBETALING";
  "BE68539007547034;08/03/2024;8;BE71096123456769;-99,99;SCHOENEN";
  "BE68539007547034;09/03/2024;9;BE71096123456769;EUR;ONBEKEND";
  "BE68539007547034;10/03/2024;10;BE71096123456769;-3,20;BROOD"
].

Definition headerOnly : list Byte.byte := csv [header].

Definition noAccountRows : list Byte.byte := csv [
  header;
  "Totaal;31/03/2024;;;1102,02;";
  "Saldo;31/03/2024;;;250,00;"
].

(** Five card payments: no counterpart account. *)
Definition cardPayments (note : string) : list Byte.byte := csv [
  header;
  ("BE68539007547034;01/03/2024;101;;-12,30;" ++ note)%string;
  ("BE68539007547034;02/03/2024;102;;-8,00;" ++ note)%string;
  ("BE68539007547034;03/03/2024;103;;-5,00;" ++ note)%string;
  ("BE68539007547034;04/03/2024;104;;-61,15;" ++ note)%string;
  ("BE68539007547034;05/03/2024;105;;-20,00;" ++ note)%string
].

(** Five transfers: every key column holds a value. *)
Definition transfers (note : string) : list Byte.byte := csv [
  header;
  ("BE68539007547034;01/03/2024;201;BE71096123456769;-12,30;" ++ note)%string;
  ("BE68539007547034;02/03/2024;202;BE71096123456769;-8,00;" ++ note)%string;
  ("BE68539007547034;03/03/2024;203;BE71096123456769;-5,00;" ++ note)%string;
  ("BE68539007547034;04/03/2024;204;BE71096123456769;-61,15;" ++ note)%string;
  ("BE68539007547034;05/03/2024;205;BE71096123456769;-20,00;" ++ note)%string
].

End Demo.


(** ** The specification's wording of the normalisers *)

(** [parseAmount] as the specification words it: strip every character that
    is not a digit, comma, period or minus sign; replace the comma by a
    period; parse the result as a number; [null] on empty input or when the
    cleaned text is not numeric. *)
Definition parseAmount_spec (input : jsstring) : option JSNumber :=
  match input with
  | [] => None
  | _ :: _ =>
      let kept c := (isDigit c || (c =? ch ",") || (c =? ch ".") || (c =? ch "-"))%N in
      match parseFloat (replaceFirst (ch ",") (ch ".") (filter kept input)) with
      | NaN => None
      | n => Some n
      end
  end.

(** A numeric component as the specification words it: a non-empty run of
    decimal digits. *)
Definition numericComponent (p : jsstring) : bool :=
  negb (isEmpty p) && forallb isDigit p.

(** Zero-padded [YYYY-MM-DD]: four digits, two digits, two digits. *)
Definition canonicalDate (d : jsstring) : bool :=
  match d with
  | [y1; y2; y3; y4; h1; m1; m2; h2; d1; d2] =>
      forallb isDigit [y1; y2; y3; y4; m1; m2; d1; d2]
      && (h1 =? ch "-")%N && (h2 =? ch "-")%N
  | _ => false
  end.

(** The two decimal digits of a number below 100. *)
Definition twoDigits (n : Z) : jsstring :=
  [Z.to_N (48 + n / 10); Z.to_N (48 + n mod 10)].

Definition isHexDigit (c : N) : bool :=
  (isDigit c || ((97 <=? c) && (c <=? 102)) || ((65 <=? c) && (c <=? 70)))%N.

(** Whether a text starts, after white space and an optional sign, with an
    integer as [parseInt] reads one: [0x] or [0X] and a hexadecimal digit,
    or else a decimal digit. *)
Definition startsInteger (p : jsstring) : bool :=
  match snd (signOf (trimStart p)) with
  | a :: b :: r =>
      if ((a =? ch "0") && ((b =? ch "x") || (b =? ch "X")))%N
      then match r with
           | h :: _ => isHexDigit h
           | [] => false
           end
      else isDigit a
  | [a] => isDigit a
  | [] => false
  end.

(** ** The specification's wording of the parser *)

(** A field that is missing or blank. *)
Definition missingOrBlank (key : string) (row : Row) : Prop :=
  match get (js key) row with
  | None => True
  | Some v => trim v = []
  end.

(** A field that is present: [v] is its text without the surrounding white
    space, and is not empty. *)
Definition present (key : string) (row : Row) (v : jsstring) : Prop :=
  exists raw, get (js key) row = Some raw /\ trim raw = v /\ v <> [].

(** Whether the parser hands a row to the row mapper: some field is not
    blank and the account cell starts with [BE]. *)
Definition kept (row : Row) : bool :=
  existsb nonBlank (values row)
  && match accountCell row with
     | Some a => startsWith (js "BE") a
     | None => false
     end.

(** The transaction a row contributes to the output, if any. *)
Definition contribution (row : Row) : option Transaction :=
  if kept row then
    match parseTransactionRow row with
    | Returned (Some t) => Some t
    | _ => None
    end
  else None.

(** The surviving transactions of a file, in file order. *)
Fixpoint survivors (rows : list Row) : list Transaction :=
  match rows with
  | [] => []
  | row :: rest =>
      match contribution row with
      | Some t => t :: survivors rest
      | None => survivors rest
      end
  end.

(** What the parser writes about the row at index [i]. *)
Definition rowLine (i : nat) (row : Row) : list ConsoleLine :=
  if existsb nonBlank (values row) then
    if kept row then
      match parseTransactionRow row with
      | Thrown message => [LogRowError (i + 1) message]
      | Returned _ => []
      end
    else [LogSkipRow (i + 1)]
  else [].

Fixpoint rowLines (i : nat) (rows : list Row) : list ConsoleLine :=
  match rows with
  | [] => []
  | row :: rest => rowLine i row ++ rowLines (S i) rest
  end.

Definition noTransactions : jsstring :=
  js "No valid transactions found in CSV file. Please check the file format.".

(** ** The specification's wording of the import *)

(** Exactly one of the three counters is one higher, the other two are
    unchanged. *)
Definition incrementsOne (c c' : Counters) : Prop :=
  (importedCount c' = S (importedCount c) /\ skippedCount c' = skippedCount c
   /\ errorCount c' = errorCount c)
  \/ (importedCount c' = importedCount c /\ skippedCount c' = S (skippedCount c)
      /\ errorCount c' = errorCount c)
  \/ (importedCount c' = importedCount c /\ skippedCount c' = skippedCount c
      /\ errorCount c' = S (errorCount c)).

(** Whether an error is a duplicate-key conflict for the route. *)
Definition isDupEntry (e : QueryError) : bool :=
  match code e with
  | Some k => str_eqb k (js "ER_DUP_ENTRY")
  | None => false
  end.

(** A row that passes the structural checks: the account number starts with
    [BE], the booking-date text and the amount text are present. *)
Definition structurallyValid (row : Row) : Prop :=
  (exists a, get (js "Rekening") row = Some a /\ startsWith (js "BE") a = true)
  /\ (exists b, present "Boekingsdatum" row b)
  /\ (exists m, present "Bedrag" row m).

(** Whether the amount text of a row is there and cannot be parsed. *)
Definition amountUnparsable (row : Row) : bool :=
  match field "Bedrag" row with
  | Some m => match parseAmount m with
              | None => true
              | Some _ => false
              end
  | None => false
  end.

(** Whether the booking-date text of a row is there and can be parsed. *)
Definition dateParsable (row : Row) : bool :=
  match field "Boekingsdatum" row with
  | Some b => match parseDate b with
              | Some _ => true
              | None => false
              end
  | None => false
  end.

(** No duplicate-key overlap and no other refusal: the server raises no
    column error for any of the transactions, none collides with a stored
    row, and none collides with an earlier one of the list. *)
Definition noOverlap (E : Env) (db : Database) (txs : list Transaction) : Prop :=
  (forall t, In t txs -> column_error E t = None)
  /\ (forall t s, In t txs -> In s (transactions db) ->
        unique_transaction E t (stored s) = false)
  /\ ForallOrdPairs (fun a b => unique_transaction E b a = false) txs.

(** The rows the [transactions] table gains for a list of transactions. *)
Definition storedAs (fileHash : jsstring) (txs : list Transaction)
  : list StoredTransaction :=
  map (fun t => {| stored := t; stored_file_hash := fileHash |}) txs.

(** The structural checks as a test. *)
Definition structurallyValidb (row : Row) : bool :=
  match get (js "Rekening") row with
  | Some a => startsWith (js "BE") a
  | None => false
  end
  && negb (falsy (field "Boekingsdatum" row))
  && negb (falsy (field "Bedrag" row)).

(** No transaction of the list collides with an earlier one. *)
Fixpoint distinctKeys (E : Env) (txs : list Transaction) : bool :=
  match txs with
  | [] => true
  | a :: rest =>
      forallb (fun b => negb (unique_transaction E b a)) rest
      && distinctKeys E rest
  end.

(** [noOverlap] as a test. *)
Definition noOverlapb (E : Env) (db : Database) (txs : list Transaction) : bool :=
  forallb (fun t => match column_error E t with
                    | None => true
                    | Some _ => false
                    end) txs
  && forallb (fun t => forallb (fun s => negb (unique_transaction E t (stored s)))
                         (transactions db)) txs
  && distinctKeys E txs.

(** The five columns of the unique key, as the route binds them. *)
Definition keyTuple (t : Transaction)
  : jsstring * jsstring * JSNumber * option jsstring * option jsstring :=
  (accountNumber t, bookingDate t, amount t, counterpartAccount t,
   referenceNumber t).

(** The transactions the parser returns, none when it fails. *)
Definition parsed (E : Env) (content : list Byte.byte) : list Transaction :=
  match fst (parseBelgianBankCSV (Papa_parse E) (utf8 E content)) with
  | Success txs => txs
  | Failure _ => []
  end.

(** A period or a comma. *)
Definition isSeparator (c : N) : bool := ((c =? ch ".") || (c =? ch ","))%N.

(** The text of a sign: a minus or nothing. *)
Definition signText (neg : bool) : jsstring := if neg then [ch "-"] else [].

(** ** A driver that refuses [undefined]

    The demonstration environment with a driver that, like [execute] of
    mysql2, throws when a bind parameter is [undefined]; the only column
    that can be [undefined] is the reference number. *)
Definition refusingUndefined : Env :=
  {| Papa_parse := Demo.plainTokenizer;
     md5 := Demo.decode;
     utf8 := Demo.decode;
     log_error := fun _ _ => None;
     column_error := fun t =>
       match referenceNumber t with
       | None =>
           Some {| code := None;
                   message := js "Bind parameters must not contain undefined. To pass SQL NULL specify JS null" |}
       | Some _ => None
       end;
     sql_varchar := fun s => s;
     sql_date := fun s => s;
     sql_decimal := fun n => match n with Finite q => q | _ => 0%Q end;
     development := false |}.

(** Three payments in a file without a transaction-number column; only the
    second carries a reference. *)
Definition withoutNumbers : list Byte.byte := Demo.csv [
  "Rekening;Boekingsdatum;Bedrag;Mededelingen";
  "BE68539007547034;01/03/2024;-12,30;HUUR MAART";
  "BE68539007547034;02/03/2024;-8,00;FACTUUR REF. : F2024-17";
  "BE68539007547034;03/03/2024;-5,00;KOFFIE"
]%string.

(** Three payments; the booking date of the second has month 13. *)
Definition badDateRows : list Byte.byte := Demo.csv [
  Demo.header;
  "BE68539007547034;01/03/2024;1;BE71096123456769;-12,30;HUUR";
  "BE68539007547034;31/13/2024;2;BE71096123456769;-8,00;BOEKEN";
  "BE68539007547034;03/03/2024;3;BE71096123456769;-5,00;KOFFIE"
]%string.

(** The database after the ten rows are imported into the empty one. *)
Definition afterMarch : Database :=
  fst (fst (upload Demo.env 100 (Demo.post "maart.csv" Demo.tenRows)
              Demo.emptyDb)).

(** ** What the route leaves behind *)

(** The paths a run of the handler unlinks, in order. *)
Definition unlinks (trace : list Effect) : list jsstring :=
  flat_map (fun e => match e with Unlink p => [p] | _ => [] end) trace.

(** The transactions a run of the handler sends to the server, in order. *)
Definition insertCalls (trace : list Effect) : list Transaction :=
  flat_map (fun e => match e with InsertCall t => [t] | _ => [] end) trace.

(** The entries the import loop adds to its error list for the transactions
    at index [i], [i + 1], ...: one for every transaction the server refuses
    for its columns with an error that is not a duplicate-key conflict. *)
Fixpoint rowErrors (E : Env) (i : nat) (txs : list Transaction) : list RowError :=
  match txs with
  | [] => []
  | t :: rest =>
      match column_error E t with
      | Some e =>
          if isDupEntry e then rowErrors E (S i) rest
          else {| row := i + 1; error := message e |} :: rowErrors E (S i) rest
      | None => rowErrors E (S i) rest
      end
  end.

(** No row of the table collides with an earlier one on the unique key. *)
Definition keysDistinct (E : Env) (rows : list StoredTransaction) : Prop :=
  ForallOrdPairs
    (fun a b => unique_transaction E (stored b) (stored a) = false) rows.

(** What may follow a maximal run of characters that satisfy [p]: nothing,
    or a character that does not. *)
Definition endsRun (p : N -> bool) (rest : jsstring) : Prop :=
  match rest with
  | [] => True
  | c :: _ => p c = false
  end.

(** Whether [p] occurs in [s], as [s.includes(p)] tests. *)
Fixpoint occurs (p s : jsstring) : bool :=
  startsWith p s
  || match s with
     | [] => false
     | _ :: r => occurs p r
     end.

(** [a] occurs in [s] as a run of consecutive characters. *)
Definition substring (a s : jsstring) : Prop :=
  exists before after, s = before ++ a ++ after.

(** ** The positional parser (the earlier [csvParser.js])

    The first version of the parser reads the cells of a record by position
    and looks for the first record whose first cell starts with [BE]. *)

(** What both row mappers do once the fifteen cell texts are read. *)
Definition mapFields
    (accountNumber bookingDateStr statementNumber transactionNumber
     counterpartAccount counterpartName counterpartAddress
     counterpartPostalCode transactionType valueDateStr amountStr
     currencyStr bic countryCode description : option jsstring)
  : Outcome (option Transaction) :=
  let currency := match currencyStr with
                  | Some (c :: r) => c :: r
                  | _ => js "EUR"
                  end in
  match accountNumber, bookingDateStr, amountStr with
  | Some (a :: an), Some (b :: bn), Some (m :: mn) =>
      let bookingDate := parseDate (b :: bn) in
      let valueDate := match valueDateStr with
                       | Some v => parseDate v
                       | None => None
                       end in
      match bookingDate with
      | None => Thrown (js "Invalid booking date: " ++ (b :: bn))
      | Some bookingDate =>
          match parseAmount (m :: mn) with
          | None => Thrown (js "Invalid amount: " ++ (m :: mn))
          | Some amount =>
              let '(postalCode, city) := parsePostalCodeCity counterpartPostalCode in
              let referenceNumber :=
                match extractReference description with
                | Some r => Some r
                | None => transactionNumber
                end in
              Returned (Some {|
                accountNumber := a :: an;
                statementNumber := orNull statementNumber;
                transactionNumber := orNull transactionNumber;
                bookingDate := bookingDate;
                valueDate := valueDate;
                counterpartAccount := orNull counterpartAccount;
                counterpartName := orNull counterpartName;
                counterpartAddress := orNull counterpartAddress;
                counterpartPostalCode := postalCode;
                counterpartCity := city;
                transactionType := orNull transactionType;
                amount := amount;
                currency := currency;
                bic := orNull bic;
                countryCode := orNull countryCode;
                description := orNull description;
                referenceNumber := referenceNumber
              |})
          end
      end
  | _, _, _ => Returned None
  end.

(** The fifteen columns of a Belfius export, in the order the positional
    parser expects them, under the names the header-keyed parser reads. *)
Definition belfiusColumns : list string :=
  ["Rekening"; "Boekingsdatum"; "Rekeninguittrekselnummer"; "Transactienummer";
   "Rekening tegenpartij"; "Naam tegenpartij bevat"; "Straat en nummer";
   "Postcode en plaats"; "Transactie"; "Valutadatum"; "Bedrag"; "Devies";
   "BIC"; "Landcode"; "Mededelingen"]%string.

Module Positional.

(** [values[i]?.toString().trim()] *)
Definition cell (i : nat) (row : Row) : option jsstring :=
  option_map trim (nth_error (values row) i).

(** [parseTransactionRow(row)] of the positional parser. *)
Definition parseTransactionRow (row : Row) : Outcome (option Transaction) :=
  mapFields (cell 0 row) (cell 1 row) (cell 2 row) (cell 3 row) (cell 4 row)
    (cell 5 row) (cell 6 row) (cell 7 row) (cell 8 row) (cell 9 row)
    (cell 10 row) (cell 11 row) (cell 12 row) (cell 13 row) (cell 14 row).

(** [firstCell && firstCell.toString().startsWith('BE')] *)
Definition firstCellBE (row : Row) : bool :=
  match hd_error (values row) with
  | Some (c :: r) => startsWith (js "BE") (c :: r)
  | _ => false
  end.

(** The search loop from row [i] on: the index of the first record whose
    first cell starts with [BE]; [dataStartIndex] keeps its initial 0 when
    the loop ends without finding one. *)
Fixpoint findDataStart (i : nat) (rows : list Row) : nat :=
  match rows with
  | [] => 0
  | row :: rest => if firstCellBE row then i else findDataStart (S i) rest
  end.

(** The body of the second [for] loop, from row [i] on.  A console line is
    written with the constructor the header-keyed parser uses for the same
    information. *)
Fixpoint processRows (i : nat) (rows : list Row)
    (transactions : list Transaction) (console : list ConsoleLine)
  : list Transaction * list ConsoleLine :=
  match rows with
  | [] => (transactions, console)
  | row :: rest =>
      if negb (existsb nonBlank (values row)) then
        processRows (S i) rest transactions console
      else
        match parseTransactionRow row with
        | Returned (Some transaction) =>
            processRows (S i) rest (transactions ++ [transaction]) console
        | Returned None =>
            processRows (S i) rest transactions console
        | Thrown message =>
            processRows (S i) rest transactions
              (console ++ [LogRowError (i + 1) message])
        end
  end.

Section Parser.

(** [Papa.parse] under the positional parser's configuration (delimiter
    [;], header row, empty lines skipped). *)
Variable Papa_parse : jsstring -> Papa.Result.

(** [parseBelgianBankCSV(csvContent)] of the positional parser. *)
Definition parseBelgianBankCSV (csvContent : jsstring)
  : ParseResult * list ConsoleLine :=
  let parsed := Papa_parse csvContent in
  match Papa.errors parsed with
  | e :: _ =>
      (Failure (js "CSV parsing failed: " ++ e),
       [LogTokenizerErrors (Papa.errors parsed)])
  | [] =>
      let rows := Papa.data parsed in
      let dataStartIndex := findDataStart 0 rows in
      if dataStartIndex =? 0 then
        (Failure (js "Could not find transaction data in CSV file"), [])
      else
        let '(transactions, console) :=
          processRows dataStartIndex (skipn dataStartIndex rows) [] [] in
        match transactions with
        | [] => (Failure (js "No valid transactions found in CSV file"), console)
        | _ :: _ =>
            (Success transactions, console ++ [LogParsed (length transactions)])
        end
  end.

End Parser.

End Positional.

(** ** The database configuration ([src/config/database.js]) *)

(** [parseInt(v) || d] for a value that is [undefined] or a string: [d]
    when the text has no integer prefix or the integer is 0. *)
Definition parseIntOr (v : option jsstring) (d : Z) : Z :=
  match v with
  | Some s => match parseInt s with
              | Some n => if (n =? 0)%Z then d else n
              | None => d
              end
  | None => d
  end.

(** [list.join(sep)] *)
Fixpoint join (sep : jsstring) (l : list jsstring) : jsstring :=
  match l with
  | [] => []
  | [a] => a
  | a :: rest => a ++ sep ++ join sep rest
  end.

Module Config.

(** [process.env]: the value of a variable, [None] when it is not set. *)
Definition ProcessEnv := string -> option jsstring.

Definition required : list string :=
  ["DB_HOST"; "DB_USER"; "DB_PASSWORD"; "DB_NAME"]%string.

(** [required.filter(key => !process.env[key])] *)
Definition missing (env : ProcessEnv) : list string :=
  filter (fun key => falsy (env key)) required.

(** [validateConfig()] *)
Definition validateConfig (env : ProcessEnv) : Outcome unit :=
  match missing env with
  | [] => Returned tt
  | _ :: _ =>
      Thrown (js "Missing required environment variables: "
              ++ join (js ", ") (map js (missing env))
              ++ [10%N] ++ js "Please check your .env file.")
  end.

(** The fields of [this.config] that are read from the environment; the
    others are literals. *)
Record Settings := {
  host : option jsstring;
  port : Z;
  user : option jsstring;
  password : option jsstring;
  database : option jsstring
}.

(** [new Database()] *)
Definition constructor (env : ProcessEnv) : Outcome Settings :=
  match validateConfig env with
  | Thrown m => Thrown m
  | Returned _ =>
      Returned {| host := env "DB_HOST"%string;
                  port := parseIntOr (env "DB_PORT"%string) 3306;
                  user := env "DB_USER"%string;
                  password := env "DB_PASSWORD"%string;
                  database := env "DB_NAME"%string |}
  end.

End Config.

(** ** The list route ([routes/transactions.js]) *)

(** [req.query] of [GET /api/transactions]; every parameter is absent or a
    string. *)
Record ListQuery := {
  query_page : option jsstring;
  query_limit : option jsstring;
  query_account : option jsstring;
  query_startDate : option jsstring;
  query_endDate : option jsstring
}.

(** A bound parameter of a prepared statement. *)
Inductive Bind : Type :=
| BindText (s : jsstring)
| BindNumber (n : Z).

(** [page], [limit] and [offset] as the integers they denote; the engine
    holds the same numbers while their magnitudes stay below 2^53. *)
Definition page (q : ListQuery) : Z := parseIntOr (query_page q) 1.
Definition limit (q : ListQuery) : Z := parseIntOr (query_limit q) 50.
Definition offset (q : ListQuery) : Z := ((page q - 1) * limit q)%Z.

(** [if (v) { whereClause += condition; }] *)
Definition condition (v : option jsstring) (text : string) : jsstring :=
  if falsy v then [] else js text.

(** [if (v) { params.push(v); }] *)
Definition pushed (v : option jsstring) : list Bind :=
  match v with
  | Some (c :: r) => [BindText (c :: r)]
  | _ => []
  end.

Definition whereClause (q : ListQuery) : jsstring :=
  js "WHERE 1=1"
  ++ condition (query_account q) " AND account_number = ?"
  ++ condition (query_startDate q) " AND booking_date >= ?"
  ++ condition (query_endDate q) " AND booking_date <= ?".

(** [params] before the paging values are pushed. *)
Definition filterParams (q : ListQuery) : list Bind :=
  pushed (query_account q) ++ pushed (query_startDate q)
  ++ pushed (query_endDate q).

(** The counting statement and its parameters. *)
Definition countQuery (q : ListQuery) : jsstring * list Bind :=
  (js "SELECT COUNT(*) as total FROM transactions " ++ whereClause q,
   filterParams q).

(** The page statement and its parameters. *)
Definition pageQuery (q : ListQuery) : jsstring * list Bind :=
  ([10%N] ++ js "            SELECT * FROM transactions " ++ [10%N]
   ++ js "            " ++ whereClause q ++ js " " ++ [10%N]
   ++ js "            ORDER BY booking_date DESC, id DESC " ++ [10%N]
   ++ js "            LIMIT ? OFFSET ?" ++ [10%N] ++ js "        ",
   filterParams q ++ [BindNumber (limit q); BindNumber (offset q)]).

(** The number of [?] place holders of a statement. *)
Definition placeholders (sql : jsstring) : nat :=
  length (filter (fun c => (c =? ch "?")%N) sql).

(** [Math.ceil(total / limit)] on integers, as the exact quotient rounded
    up, which is what the engine computes for a count below 2^53 and a
    limit from 1 to 2^53. *)
Definition totalPages (total limit : Z) : Z := (- ((- total) / limit))%Z.

(** ** The front end (the [BankingApp] class) *)

(** [truncateText(text, maxLength)] for a [maxLength] that is a natural
    number; [None] is a [null] or [undefined] text. *)
Definition truncateText (text : option jsstring) (maxLength : nat) : jsstring :=
  match text with
  | Some (c :: r) =>
      if maxLength <? length (c :: r)
      then firstn maxLength (c :: r) ++ js "..."
      else c :: r
  | _ => []
  end.

(** * Properties *)

Unset Implicit Arguments.

(** ** Strings *)

Lemma str_eqb_refl (s : jsstring) : str_eqb s s = true.
Proof.
  induction s as [|c s IH]; simpl; [reflexivity|].
  now rewrite N.eqb_refl, IH.
Qed.

Lemma str_eqb_eq (a b : jsstring) : str_eqb a b = true <-> a = b.
Proof.
  split.
  - revert b; induction a as [|x a IH]; intros [|y b]; simpl; try discriminate; auto.
    rewrite andb_true_iff, N.eqb_eq. intros [-> H]. now rewrite (IH _ H).
  - intros ->. apply str_eqb_refl.
Qed.

Lemma startsWith_head (x y : N) (p s : jsstring) :
  x <> y -> startsWith (x :: p) (y :: s) = false.
Proof.
  intros H. cbn [startsWith]. apply N.eqb_neq in H. now rewrite H.
Qed.

Lemma dropWhile_nil (p : N -> bool) (s : jsstring) :
  dropWhile p s = [] <-> forallb p s = true.
Proof.
  induction s as [|c s IH]; simpl.
  - tauto.
  - destruct (p c); simpl; [exact IH|]. split; discriminate.
Qed.

Lemma dropWhile_head (p : N -> bool) (s : jsstring) c r :
  dropWhile p s = c :: r -> p c = false.
Proof.
  induction s as [|x s IH]; simpl; [discriminate|].
  destruct (p x) eqn:Hx; [exact IH|].
  intros [= -> _]. exact Hx.
Qed.

Lemma forallb_rev (p : N -> bool) (s : jsstring) :
  forallb p (rev s) = forallb p s.
Proof.
  induction s as [|c s IH]; simpl; [reflexivity|].
  rewrite forallb_app, IH. simpl. rewrite andb_true_r. apply andb_comm.
Qed.

(** A string that trims to nothing holds white space only. *)
Lemma trim_nil_all_space (s : jsstring) :
  trim s = [] -> forallb isSpace s = true.
Proof.
  unfold trim, trimEnd, trimStart. intros H.
  assert (Hr : dropWhile isSpace (rev (dropWhile isSpace s)) = []).
  { rewrite <- (rev_involutive (dropWhile _ (rev _))), H. reflexivity. }
  apply dropWhile_nil in Hr. rewrite forallb_rev in Hr.
  destruct (dropWhile isSpace s) as [|c r] eqn:Hd.
  - now apply dropWhile_nil.
  - apply dropWhile_head in Hd. simpl in Hr. rewrite Hd in Hr. discriminate.
Qed.

Ltac bool_arith :=
  repeat match goal with
         | H : _ && _ = true |- _ => apply andb_true_iff in H; destruct H
         | H : _ || _ = true |- _ => apply orb_true_iff in H; destruct H
         | H : (_ =? _)%N = true |- _ => apply N.eqb_eq in H
         | H : (_ <=? _)%N = true |- _ => apply N.leb_le in H
         | H : (_ <? _)%N = true |- _ => apply N.ltb_lt in H
         | H : (_ =? _)%N = false |- _ => apply N.eqb_neq in H
         | H : (_ <=? _)%N = false |- _ => apply N.leb_gt in H
         | H : (_ <? _)%N = false |- _ => apply N.ltb_ge in H
         end.

(** The cleaning of an amount removes every white-space character. *)
Lemma space_not_amountChar (c : N) : isSpace c = true -> amountChar c = false.
Proof.
  intros Hs. destruct (amountChar c) eqn:Ha; [exfalso|reflexivity].
  unfold amountChar, isDigit, ch in Ha. simpl in Ha.
  unfold isSpace, isWhiteSpace, isLineTerminator in Hs.
  bool_arith; lia.
Qed.

Lemma blank_cleans_to_nil (s : jsstring) :
  isEmpty (trim s) = true -> filter amountChar s = [].
Proof.
  intros H. destruct (trim s) eqn:Ht; [|discriminate].
  apply trim_nil_all_space in Ht. clear H.
  induction s as [|c s IH]; simpl; [reflexivity|].
  simpl in Ht. apply andb_true_iff in Ht as [Hc Hs].
  now rewrite (space_not_amountChar _ Hc), IH.
Qed.

(** ** Amounts *)

Lemma isDigit_digitValue (c : N) :
  isDigit c = true -> digitValue 10 c = Some (c - 48)%N.
Proof.
  unfold isDigit, digitValue. intros H. rewrite H.
  bool_arith. assert (Hlt : (c - 48 <? 10)%N = true) by (apply N.ltb_lt; lia).
  now rewrite Hlt.
Qed.

Lemma digitsPrefix_app (a tail : jsstring) :
  forallb isDigit a = true ->
  digitsPrefix 10 (a ++ tail) = digitsPrefix 10 a ++ digitsPrefix 10 tail.
Proof.
  induction a as [|c a IH]; simpl; [reflexivity|].
  rewrite andb_true_iff. intros [Hc Ha].
  rewrite (isDigit_digitValue _ Hc). simpl. now rewrite IH.
Qed.

Lemma digitsPrefix_length (a : jsstring) :
  forallb isDigit a = true -> length (digitsPrefix 10 a) = length a.
Proof.
  induction a as [|c a IH]; simpl; [reflexivity|].
  rewrite andb_true_iff. intros [Hc Ha].
  rewrite (isDigit_digitValue _ Hc). simpl. now rewrite IH.
Qed.

Lemma skipn_length_app (A : Type) (a r : list A) : skipn (length a) (a ++ r) = r.
Proof. induction a; simpl; auto. Qed.

Lemma filter_amountChar_digits (a : jsstring) :
  forallb isDigit a = true -> filter amountChar a = a.
Proof.
  induction a as [|c a IH]; simpl; [reflexivity|].
  rewrite andb_true_iff. intros [Hc Ha].
  unfold amountChar at 1. rewrite Hc. simpl. now rewrite IH.
Qed.

Lemma replaceFirst_at (a b : N) (pre r : jsstring) :
  forallb (fun c => negb (c =? a)%N) pre = true ->
  replaceFirst a b (pre ++ a :: r) = pre ++ b :: r.
Proof.
  induction pre as [|c pre IH]; simpl.
  - now rewrite N.eqb_refl.
  - rewrite andb_true_iff, negb_true_iff. intros [Hc Hp].
    now rewrite Hc, IH.
Qed.

Lemma replaceFirst_absent (a b : N) (s : jsstring) :
  forallb (fun c => negb (c =? a)%N) s = true -> replaceFirst a b s = s.
Proof.
  induction s as [|c s IH]; simpl; [reflexivity|].
  rewrite andb_true_iff, negb_true_iff. intros [Hc Hp].
  now rewrite Hc, IH.
Qed.

Lemma digits_no_comma (a : jsstring) :
  forallb isDigit a = true ->
  forallb (fun c => negb (c =? ch ",")%N) a = true.
Proof.
  induction a as [|c a IH]; simpl; [reflexivity|].
  rewrite !andb_true_iff. intros [Hc Ha]. split; [|auto].
  apply negb_true_iff, N.eqb_neq. unfold isDigit in Hc. bool_arith.
  change (ch ",") with 44%N. lia.
Qed.

(** Digits, a point and digits, followed by text that neither continues the
    digits nor starts an exponent: the literal read is [a.b]. *)
Lemma literal_point (neg : bool) (a b tail : jsstring) :
  a <> [] -> forallb isDigit a = true -> forallb isDigit b = true ->
  digitsPrefix 10 tail = [] -> exponentPart tail = 0%Z ->
  strUnsignedDecimalLiteral neg (a ++ ch "." :: b ++ tail)
  = Finite (decimal neg (digitsPrefix 10 a ++ digitsPrefix 10 b)
              (- Z.of_nat (length b))).
Proof.
  intros Hne Ha Hb Ht He. unfold strUnsignedDecimalLiteral.
  assert (Hinf : startsWith (js "Infinity") (a ++ ch "." :: b ++ tail) = false).
  { destruct a as [|d a]; [contradiction|]. simpl in Ha.
    apply andb_true_iff in Ha as [Hd _]. unfold isDigit in Hd. bool_arith.
    change (js "Infinity") with (73%N :: js "nfinity").
    apply startsWith_head. lia. }
  rewrite Hinf.
  rewrite (digitsPrefix_app _ _ Ha). change (digitsPrefix 10 (ch "." :: b ++ tail)) with (@nil N).
  rewrite app_nil_r, (digitsPrefix_length _ Ha), skipn_length_app.
  unfold fractionPart. change (ch "." =? ch ".")%N with true. cbv iota.
  rewrite (digitsPrefix_app _ _ Hb), Ht, app_nil_r.
  rewrite (digitsPrefix_length _ Hb), skipn_length_app, He.
  destruct (digitsPrefix 10 a) as [|x xs] eqn:Hda.
  - apply (f_equal (@length N)) in Hda. rewrite (digitsPrefix_length _ Ha) in Hda.
    destruct a; [contradiction|discriminate].
  - reflexivity.
Qed.

(** [parseFloat] of a sign, digits, a point, digits and such a tail. *)
Lemma parseFloat_point (neg : bool) (a b tail : jsstring) :
  a <> [] -> forallb isDigit a = true -> forallb isDigit b = true ->
  digitsPrefix 10 tail = [] -> exponentPart tail = 0%Z ->
  parseFloat (signText neg ++ a ++ ch "." :: b ++ tail)
  = Finite (decimal neg (digitsPrefix 10 a ++ digitsPrefix 10 b)
              (- Z.of_nat (length b))).
Proof.
  intros Hne Ha Hb Ht He.
  rewrite <- (literal_point neg a b tail Hne Ha Hb Ht He).
  unfold parseFloat, trimStart.
  destruct neg; simpl signText.
  - reflexivity.
  - destruct a as [|d a]; [contradiction|].
    simpl in Ha. apply andb_true_iff in Ha as [Hd _].
    assert (Hsp : isSpace d = false).
    { destruct (isSpace d) eqn:Hs; [|reflexivity].
      apply space_not_amountChar in Hs. unfold amountChar in Hs.
      rewrite Hd in Hs. discriminate. }
    simpl. rewrite Hsp. unfold signOf.
    unfold isDigit in Hd. bool_arith.
    replace (d =? ch "-")%N with false by (symmetry; apply N.eqb_neq; change (ch "-") with 45%N; lia).
    replace (d =? ch "+")%N with false by (symmetry; apply N.eqb_neq; change (ch "+") with 43%N; lia).
    reflexivity.
Qed.

Lemma parseAmount_eq_spec (s : jsstring) : parseAmount s = parseAmount_spec s.
Proof.
  destruct s as [|c s]; [reflexivity|].
  unfold parseAmount, parseAmount_spec.
  change (isEmpty (c :: s)) with false. rewrite orb_false_l.
  destruct (isEmpty (trim (c :: s))) eqn:Hb.
  - change (filter _ (c :: s)) with (filter amountChar (c :: s)).
    now rewrite (blank_cleans_to_nil _ Hb).
  - reflexivity.
Qed.

Lemma parseAmount_cleaned (s : jsstring) :
  filter amountChar s <> [] ->
  parseAmount s
  = match parseFloat (replaceFirst (ch ",") (ch ".") (filter amountChar s)) with
    | NaN => None
    | n => Some n
    end.
Proof.
  intros H. rewrite parseAmount_eq_spec.
  destruct s as [|c s]; [contradiction|]. reflexivity.
Qed.

(** C4: parseAmount strips every character that is not a digit, comma,
    period or minus sign, replaces the comma by a period and parses the
    result as a number; it returns null on empty input and when the cleaned
    text is not numeric.  The code's additional blank test changes nothing.
    The four documented examples hold. *)
Theorem parseAmount_refines_spec :
  (forall s : jsstring, parseAmount s = parseAmount_spec s)
  /\ parseAmount (js "1234,56") = Some (num 1234.56%Q)
  /\ parseAmount (js "-12,30") = Some (num (-12.30)%Q)
  /\ parseAmount (js "abc") = None
  /\ parseAmount (js "") = None.
Proof.
  split; [exact parseAmount_eq_spec|].
  repeat split; vm_compute; reflexivity.
Qed.

Lemma cleaned_thousands (neg : bool) (a b t : jsstring) :
  forallb isDigit a = true -> forallb isDigit b = true ->
  replaceFirst (ch ",") (ch ".")
    (filter amountChar (signText neg ++ a ++ ch "." :: b ++ ch "," :: t))
  = signText neg ++ a ++ ch "." :: b ++ ch "." :: filter amountChar t.
Proof.
  intros Ha Hb.
  assert (Hf : filter amountChar (signText neg ++ a ++ ch "." :: b ++ ch "," :: t)
               = (signText neg ++ a ++ ch "." :: b) ++ ch "," :: filter amountChar t).
  { rewrite !filter_app. cbn [filter].
    change (amountChar (ch ".")) with true. cbv iota.
    rewrite filter_app. cbn [filter]. change (amountChar (ch ",")) with true. cbv iota.
    rewrite (filter_amountChar_digits _ Ha), (filter_amountChar_digits _ Hb).
    replace (filter amountChar (signText neg)) with (signText neg) by (now destruct neg).
    now rewrite <- !app_assoc. }
  rewrite Hf, replaceFirst_at.
  - now rewrite <- !app_assoc.
  - rewrite !forallb_app. cbn [forallb].
    rewrite (digits_no_comma _ Ha), (digits_no_comma _ Hb).
    now destruct neg.
Qed.

Lemma cleaned_prefix (neg : bool) (a b : jsstring) :
  forallb isDigit a = true -> forallb isDigit b = true ->
  replaceFirst (ch ",") (ch ".")
    (filter amountChar (signText neg ++ a ++ ch "." :: b))
  = signText neg ++ a ++ ch "." :: b.
Proof.
  intros Ha Hb.
  assert (Hf : filter amountChar (signText neg ++ a ++ ch "." :: b)
               = signText neg ++ a ++ ch "." :: b).
  { rewrite !filter_app. cbn [filter].
    change (amountChar (ch ".")) with true. cbv iota.
    rewrite (filter_amountChar_digits _ Ha), (filter_amountChar_digits _ Hb).
    now destruct neg. }
  rewrite Hf. apply replaceFirst_absent.
  rewrite !forallb_app. cbn [forallb].
  rewrite (digits_no_comma _ Ha), (digits_no_comma _ Hb).
  now destruct neg.
Qed.

Lemma filter_keeps_digits (neg : bool) (a r : jsstring) :
  a <> [] -> forallb isDigit a = true ->
  filter amountChar (signText neg ++ a ++ r) <> [].
Proof.
  intros Hne Ha. rewrite !filter_app, (filter_amountChar_digits _ Ha).
  destruct a; [contradiction|]. destruct (filter amountChar (signText neg)); discriminate.
Qed.

Lemma replaceFirst_skip (a b : N) (pre r : jsstring) :
  forallb (fun c => negb (c =? a)%N) pre = true ->
  replaceFirst a b (pre ++ r) = pre ++ replaceFirst a b r.
Proof.
  induction pre as [|c pre IH]; simpl; [reflexivity|].
  rewrite andb_true_iff, negb_true_iff. intros [Hc Hp].
  now rewrite Hc, IH.
Qed.

Lemma separator_cases (c : N) :
  isSeparator c = true -> c = ch "." \/ c = ch ",".
Proof.
  unfold isSeparator. rewrite orb_true_iff, !N.eqb_eq. tauto.
Qed.

(** The cleaned text of digits, a separator, digits, a separator and
    anything: the first separator has become a period, a separator follows
    the second run of digits. *)
Lemma cleaned_separators (neg : bool) (a b t : jsstring) (sep1 sep2 : N) :
  forallb isDigit a = true -> forallb isDigit b = true ->
  isSeparator sep1 = true -> isSeparator sep2 = true ->
  exists sep t',
    isSeparator sep = true
    /\ replaceFirst (ch ",") (ch ".")
         (filter amountChar (signText neg ++ a ++ sep1 :: b ++ sep2 :: t))
       = signText neg ++ a ++ ch "." :: b ++ sep :: t'.
Proof.
  intros Ha Hb H1 H2.
  assert (Hf : filter amountChar (signText neg ++ a ++ sep1 :: b ++ sep2 :: t)
               = signText neg ++ a ++ sep1 :: b ++ sep2 :: filter amountChar t).
  { rewrite !filter_app. cbn [filter].
    replace (amountChar sep1) with true
      by (apply separator_cases in H1 as [->| ->]; reflexivity).
    rewrite filter_app. cbn [filter].
    replace (amountChar sep2) with true
      by (apply separator_cases in H2 as [->| ->]; reflexivity).
    rewrite (filter_amountChar_digits _ Ha), (filter_amountChar_digits _ Hb).
    now destruct neg. }
  rewrite Hf.
  assert (Hsa : forallb (fun c => negb (c =? ch ",")%N) (signText neg ++ a) = true)
    by (rewrite forallb_app, (digits_no_comma _ Ha); now destruct neg).
  apply separator_cases in H1 as [->| ->].
  - (* the first separator is a period *)
    assert (Hpre : forallb (fun c => negb (c =? ch ",")%N)
                     (signText neg ++ a ++ ch "." :: b) = true).
    { rewrite !forallb_app. cbn [forallb].
      rewrite (digits_no_comma _ Ha), (digits_no_comma _ Hb). now destruct neg. }
    apply separator_cases in H2 as [->| ->].
    + exists (ch "."), (replaceFirst (ch ",") (ch ".") (filter amountChar t)).
      split; [reflexivity|].
      replace (signText neg ++ a ++ ch "." :: b ++ ch "." :: filter amountChar t)
        with ((signText neg ++ a ++ ch "." :: b ++ [ch "."]) ++ filter amountChar t)
        by (now rewrite <- !app_assoc; cbn [app]; rewrite <- !app_assoc).
      rewrite replaceFirst_skip.
      * now rewrite <- !app_assoc; cbn [app]; rewrite <- !app_assoc.
      * rewrite !forallb_app. cbn [forallb].
        rewrite forallb_app, (digits_no_comma _ Ha), (digits_no_comma _ Hb).
        now destruct neg.
    + exists (ch "."), (filter amountChar t). split; [reflexivity|].
      replace (signText neg ++ a ++ ch "." :: b ++ ch "," :: filter amountChar t)
        with ((signText neg ++ a ++ ch "." :: b) ++ ch "," :: filter amountChar t)
        by (now rewrite <- !app_assoc).
      rewrite (replaceFirst_at _ _ _ _ Hpre). now rewrite <- !app_assoc.
  - (* the first separator is a comma *)
    exists sep2, (filter amountChar t). split; [exact H2|].
    rewrite app_assoc, (replaceFirst_at _ _ _ _ Hsa). now rewrite <- app_assoc.
Qed.

Lemma separator_ends_literal (sep : N) (t : jsstring) :
  isSeparator sep = true ->
  digitsPrefix 10 (sep :: t) = [] /\ exponentPart (sep :: t) = 0%Z.
Proof.
  intros H. apply separator_cases in H as [->| ->]; split; reflexivity.
Qed.

(** C10: an amount written with a period as thousands separator and a comma
    as decimal separator is read up to its second separator.  The cleaning
    keeps the periods and turns the first comma only into a period, the
    numeric parse stops at the second period, and the result is the number
    [a.b] of the leading digits, the same as for the text cut before the
    comma: a number, not null and not the intended value.  In particular
    parseAmount("1.234,56") = 1.234.  More generally digits, a separator,
    digits, a second separator and anything give the number [a.b]. *)
Theorem parseAmount_thousands_period :
  (forall (neg : bool) (a b t : jsstring),
      a <> [] -> forallb isDigit a = true -> forallb isDigit b = true ->
      let s := signText neg ++ a ++ ch "." :: b ++ ch "," :: t in
      replaceFirst (ch ",") (ch ".") (filter amountChar s)
        = signText neg ++ a ++ ch "." :: b ++ ch "." :: filter amountChar t
      /\ parseAmount s
         = Some (Finite (decimal neg (digitsPrefix 10 a ++ digitsPrefix 10 b)
                           (- Z.of_nat (length b))))
      /\ parseAmount s = parseAmount (signText neg ++ a ++ ch "." :: b))
  /\ (forall (neg : bool) (a b t : jsstring) (sep1 sep2 : N),
         a <> [] -> forallb isDigit a = true -> forallb isDigit b = true ->
         isSeparator sep1 = true -> isSeparator sep2 = true ->
         parseAmount (signText neg ++ a ++ sep1 :: b ++ sep2 :: t)
         = Some (Finite (decimal neg (digitsPrefix 10 a ++ digitsPrefix 10 b)
                           (- Z.of_nat (length b)))))
  /\ parseAmount (js "1.234,56") = Some (num 1.234%Q)
  /\ parseAmount (js "1.234,56") <> Some (num 1234.56%Q)
  /\ parseAmount (js "1.234,56") <> None.
Proof.
  assert (Hgen : forall (neg : bool) (a b t : jsstring) (sep1 sep2 : N),
             a <> [] -> forallb isDigit a = true -> forallb isDigit b = true ->
             isSeparator sep1 = true -> isSeparator sep2 = true ->
             parseAmount (signText neg ++ a ++ sep1 :: b ++ sep2 :: t)
             = Some (Finite (decimal neg (digitsPrefix 10 a ++ digitsPrefix 10 b)
                               (- Z.of_nat (length b))))).
  { intros neg a b t sep1 sep2 Hne Ha Hb H1 H2.
    rewrite parseAmount_cleaned by (now apply filter_keeps_digits).
    destruct (cleaned_separators neg a b t sep1 sep2 Ha Hb H1 H2)
      as (sep & t' & Hsep & ->).
    destruct (separator_ends_literal sep t' Hsep) as [Hd He].
    now rewrite (parseFloat_point neg a b (sep :: t') Hne Ha Hb Hd He). }
  split; [|split; [exact Hgen|]].
  - intros neg a b t Hne Ha Hb s.
    assert (Hs : parseAmount s
                 = Some (Finite (decimal neg (digitsPrefix 10 a ++ digitsPrefix 10 b)
                                   (- Z.of_nat (length b)))))
      by (apply Hgen; auto).
    split; [exact (cleaned_thousands neg a b t Ha Hb)|].
    split; [exact Hs|].
    rewrite Hs. symmetry.
    rewrite parseAmount_cleaned by (now apply filter_keeps_digits).
    rewrite (cleaned_prefix neg a b Ha Hb).
    rewrite <- (app_nil_r b) at 1.
    now rewrite (parseFloat_point neg a b [] Hne Ha Hb eq_refl eq_refl).
  - repeat split; vm_compute; congruence.
Qed.

Lemma parseAmount_thousands_period_witness :
  parseAmount (js "-1.234,56 EUR")
  = Some (Finite (decimal true [1; 2; 3; 4]%N (-3))).
Proof.
  destruct parseAmount_thousands_period as [H _].
  destruct (H true (js "1") (js "234") (js "56 EUR")) as (_ & Hv & _).
  - discriminate.
  - reflexivity.
  - reflexivity.
  - exact Hv.
Defined.

(** ** Postal codes and references *)

Example parsePostalCodeCity_examples :
  parsePostalCodeCity (Some (js "2600  BERCHEM"))
  = (Some (js "2600"), Some (js "BERCHEM"))
  /\ parsePostalCodeCity (Some (js "BRUSSEL")) = (None, Some (js "BRUSSEL"))
  /\ parsePostalCodeCity (Some (js "")) = (None, None)
  /\ parsePostalCodeCity None = (None, None).
Proof. repeat split; vm_compute; reflexivity. Qed.

Example extractReference_examples :
  extractReference (Some (js "AANKOOP REF. : 0123ABC VAL. 05-03"))
  = Some (js "0123ABC")
  /\ extractReference (Some (js "Betaling via Payconiq 5f3a09c1 Bakkerij"))
     = Some (js "5f3a09c1")
  /\ extractReference (Some (js "Payconiq 5f3a REF.: X9")) = Some (js "X9")
  /\ extractReference (Some (js "HUUR MAART")) = None
  /\ extractReference None = None.
Proof. repeat split; vm_compute; reflexivity. Qed.

(** ** Dates *)

Lemma digitValue10_None (c : N) : digitValue 10 c = None <-> isDigit c = false.
Proof.
  split.
  - intros H. destruct (isDigit c) eqn:Hd; [|reflexivity].
    rewrite (isDigit_digitValue _ Hd) in H. discriminate.
  - unfold isDigit, digitValue. intros H. rewrite H.
    destruct ((97 <=? c) && (c <=? 122))%N eqn:H1.
    + bool_arith. replace (c - 87 <? 10)%N with false; [reflexivity|].
      symmetry. apply N.ltb_ge. lia.
    + destruct ((65 <=? c) && (c <=? 90))%N eqn:H2; [|reflexivity].
      bool_arith. replace (c - 55 <? 10)%N with false; [reflexivity|].
      symmetry. apply N.ltb_ge. lia.
Qed.

Lemma digitValue16_None (c : N) : digitValue 16 c = None <-> isHexDigit c = false.
Proof.
  unfold digitValue, isHexDigit, isDigit.
  destruct ((48 <=? c) && (c <=? 57))%N eqn:H0; simpl.
  - bool_arith. replace (c - 48 <? 16)%N with true by (symmetry; apply N.ltb_lt; lia).
    split; discriminate.
  - destruct ((97 <=? c) && (c <=? 122))%N eqn:H1.
    + apply andb_true_iff in H1 as [Ha Hz]. rewrite Ha. simpl.
      destruct (c <=? 102)%N eqn:Hf; simpl.
      * bool_arith. replace (c - 87 <? 16)%N with true by (symmetry; apply N.ltb_lt; lia).
        split; discriminate.
      * bool_arith. replace (c - 87 <? 16)%N with false by (symmetry; apply N.ltb_ge; lia).
        replace (65 <=? c)%N with true by (symmetry; apply N.leb_le; lia).
        replace (c <=? 70)%N with false by (symmetry; apply N.leb_gt; lia).
        split; reflexivity.
    + destruct ((65 <=? c) && (c <=? 90))%N eqn:H2.
      * apply andb_true_iff in H2 as [Ha Hz]. rewrite Ha. simpl.
        replace ((97 <=? c) && (c <=? 102))%N with false
          by (symmetry; apply andb_false_iff; bool_arith; left; apply N.leb_gt; lia).
        simpl. destruct (c <=? 70)%N eqn:Hf.
        -- bool_arith. replace (c - 55 <? 16)%N with true by (symmetry; apply N.ltb_lt; lia).
           split; discriminate.
        -- bool_arith. replace (c - 55 <? 16)%N with false by (symmetry; apply N.ltb_ge; lia).
           split; reflexivity.
      * replace ((97 <=? c) && (c <=? 102))%N with false.
        2:{ symmetry. apply andb_false_iff. apply andb_false_iff in H1 as [H1|H1]; bool_arith.
            - left. apply N.leb_gt. lia.
            - right. apply N.leb_gt. lia. }
        replace ((65 <=? c) && (c <=? 70))%N with false.
        2:{ symmetry. apply andb_false_iff. apply andb_false_iff in H2 as [H2|H2]; bool_arith.
            - left. apply N.leb_gt. lia.
            - right. apply N.leb_gt. lia. }
        split; reflexivity.
Qed.

Lemma digitsPrefix_nil (radix : N) (s : jsstring) :
  digitsPrefix radix s = []
  <-> match s with [] => True | c :: _ => digitValue radix c = None end.
Proof.
  destruct s as [|c r]; simpl; [tauto|].
  destruct (digitValue radix c); split; try discriminate; auto.
Qed.

(** [parseInt] gives NaN exactly for a text that does not start with an
    integer. *)
Lemma parseInt_None_iff (p : jsstring) :
  parseInt p = None <-> startsInteger p = false.
Proof.
  unfold parseInt, startsInteger.
  destruct (signOf (trimStart p)) as [neg s1]. cbn [snd].
  assert (Hd : forall radix s2,
             match digitsPrefix radix s2 with
             | [] => None
             | ds => Some ((if neg then -1 else 1) * Z.of_N (mathInt radix ds))%Z
             end = None <-> digitsPrefix radix s2 = []).
  { intros radix s2. destruct (digitsPrefix radix s2); split; try discriminate; auto. }
  destruct s1 as [|a [|b r]].
  - simpl. tauto.
  - rewrite Hd, digitsPrefix_nil. apply digitValue10_None.
  - destruct ((a =? ch "0") && ((b =? ch "x") || (b =? ch "X")))%N.
    + rewrite Hd, digitsPrefix_nil. destruct r as [|h r]; [tauto|].
      apply digitValue16_None.
    + rewrite Hd, digitsPrefix_nil. apply digitValue10_None.
Qed.

(** A run of decimal digits is always read. *)
Lemma parseInt_numeric (p : jsstring) :
  numericComponent p = true -> parseInt p <> None.
Proof.
  unfold numericComponent. intros H Hn. apply parseInt_None_iff in Hn.
  destruct p as [|c r]; [discriminate|]. simpl in H.
  apply andb_true_iff in H as [Hc Hr].
  assert (Hsp : isSpace c = false).
  { destruct (isSpace c) eqn:Hs; [|reflexivity].
    apply space_not_amountChar in Hs. unfold amountChar in Hs.
    rewrite Hc in Hs. discriminate. }
  unfold startsInteger, trimStart in Hn. cbn [dropWhile] in Hn. rewrite Hsp in Hn.
  unfold signOf in Hn.
  pose proof Hc as Hc'. unfold isDigit in Hc'. bool_arith.
  replace (c =? ch "-")%N with false in Hn
    by (symmetry; apply N.eqb_neq; change (ch "-") with 45%N; lia).
  replace (c =? ch "+")%N with false in Hn
    by (symmetry; apply N.eqb_neq; change (ch "+") with 43%N; lia).
  cbn [snd] in Hn. destruct r as [|b r].
  - congruence.
  - destruct ((c =? ch "0") && ((b =? ch "x") || (b =? ch "X")))%N eqn:Hx; [|congruence].
    simpl in Hr. apply andb_true_iff in Hr as [Hb _].
    unfold isDigit in Hb. apply andb_true_iff in Hx as [_ Hx].
    change (ch "x") with 120%N in Hx. change (ch "X") with 88%N in Hx.
    bool_arith; lia.
Qed.

Lemma pad_two_digits (n : Z) :
  (1 <= n <= 31)%Z -> padStart 2 (ch "0") (Number_toString n) = twoDigits n.
Proof.
  intros H.
  assert (Hk : exists k, (k < 32)%nat /\ n = Z.of_nat k)
    by (exists (Z.to_nat n); lia).
  destruct Hk as (k & Hk & ->).
  do 32 (destruct k as [|k]; [first [lia | vm_compute; reflexivity]|]).
  lia.
Qed.

Lemma parseDate_blank (s : jsstring) :
  isEmpty s || isEmpty (trim s) = isEmpty (trim s).
Proof. destruct s; reflexivity. Qed.

Lemma isEmpty_true (s : jsstring) : isEmpty s = true <-> s = [].
Proof. destruct s; simpl; split; auto; discriminate. Qed.

Lemma range_test (day month : Z) :
  ((day <? 1) || (day >? 31) || (month <? 1) || (month >? 12))%Z = true
  <-> (day < 1 \/ 31 < day \/ month < 1 \/ 12 < month)%Z.
Proof.
  rewrite !orb_true_iff, !Z.gtb_ltb, !Z.ltb_lt. tauto.
Qed.

Lemma parseDate_None (s : jsstring) :
  parseDate s = None <->
  trim s = []
  \/ length (split (ch "/") s) <> 3
  \/ (exists p, In p (split (ch "/") s) /\ parseInt p = None)
  \/ (exists p0 p1 p2 day month,
         split (ch "/") s = [p0; p1; p2]
         /\ parseInt p0 = Some day /\ parseInt p1 = Some month
         /\ (day < 1 \/ 31 < day \/ month < 1 \/ 12 < month)%Z).
Proof.
  unfold parseDate. rewrite parseDate_blank. split.
  - destruct (isEmpty (trim s)) eqn:Hb.
    + intros _. left. now apply isEmpty_true.
    + destruct (split (ch "/") s) as [|p0 [|p1 [|p2 [|p3 l]]]] eqn:Hsp;
        try (intros _; right; left; simpl; lia).
      destruct (parseInt p0) as [day|] eqn:H0.
      2:{ intros _. right. right. left. exists p0. simpl. auto. }
      destruct (parseInt p1) as [month|] eqn:H1.
      2:{ intros _. right. right. left. exists p1. simpl. auto. }
      destruct (parseInt p2) as [year|] eqn:H2.
      2:{ intros _. right. right. left. exists p2. simpl. auto. }
      destruct ((day <? 1) || (day >? 31) || (month <? 1) || (month >? 12))%Z eqn:Hr.
      * intros _. right. right. right.
        exists p0, p1, p2, day, month. apply range_test in Hr. auto.
      * discriminate.
  - intros [H|[H|[H|H]]].
    + now rewrite H.
    + destruct (isEmpty (trim s)); [reflexivity|].
      destruct (split (ch "/") s) as [|p0 [|p1 [|p2 [|p3 l]]]]; try reflexivity.
      exfalso. now apply H.
    + destruct H as (p & Hin & Hp).
      destruct (isEmpty (trim s)); [reflexivity|].
      destruct (split (ch "/") s) as [|p0 [|p1 [|p2 [|p3 l]]]]; try reflexivity.
      simpl in Hin. destruct Hin as [<-|[<-|[<-|[]]]]; rewrite Hp.
      * reflexivity.
      * now destruct (parseInt p0).
      * now destruct (parseInt p0), (parseInt p1).
    + destruct H as (p0 & p1 & p2 & day & month & Hsp & H0 & H1 & Hr).
      destruct (isEmpty (trim s)); [reflexivity|].
      rewrite Hsp, H0, H1. destruct (parseInt p2); [|reflexivity].
      apply range_test in Hr. now rewrite Hr.
Qed.

Lemma parseDate_Some (s d : jsstring) :
  parseDate s = Some d ->
  exists p0 p1 p2 day month year,
    split (ch "/") s = [p0; p1; p2]
    /\ parseInt p0 = Some day /\ parseInt p1 = Some month
    /\ parseInt p2 = Some year
    /\ (1 <= day <= 31)%Z /\ (1 <= month <= 12)%Z
    /\ d = Number_toString year ++ js "-" ++ twoDigits month
           ++ js "-" ++ twoDigits day.
Proof.
  unfold parseDate.
  destruct (isEmpty s || isEmpty (trim s)); [discriminate|].
  destruct (split (ch "/") s) as [|p0 [|p1 [|p2 [|p3 l]]]]; try discriminate.
  destruct (parseInt p0) as [day|] eqn:H0; [|discriminate].
  destruct (parseInt p1) as [month|] eqn:H1; [|discriminate].
  destruct (parseInt p2) as [year|] eqn:H2; [|discriminate].
  destruct ((day <? 1) || (day >? 31) || (month <? 1) || (month >? 12))%Z eqn:Hr;
    [discriminate|].
  assert (Hrange : (1 <= day <= 31 /\ 1 <= month <= 12)%Z).
  { destruct (Z_lt_dec day 1); [rewrite (proj2 (range_test day month)) in Hr by auto; discriminate|].
    destruct (Z_lt_dec 31 day); [rewrite (proj2 (range_test day month)) in Hr by auto; discriminate|].
    destruct (Z_lt_dec month 1); [rewrite (proj2 (range_test day month)) in Hr by auto; discriminate|].
    destruct (Z_lt_dec 12 month); [rewrite (proj2 (range_test day month)) in Hr by auto; discriminate|].
    lia. }
  destruct Hrange as [Hd Hm].
  intros [= <-]. exists p0, p1, p2, day, month, year.
  split; [reflexivity|]. split; [exact H0|]. split; [exact H1|].
  split; [exact H2|]. split; [exact Hd|]. split; [exact Hm|].
  pose proof (pad_two_digits day Hd) as Pd.
  assert (Pm : padStart 2 (ch "0") (Number_toString month) = twoDigits month)
    by (apply pad_two_digits; lia).
  change (ch "0") with 48%N in Pd, Pm. rewrite Pd, Pm.
  reflexivity.
Qed.

(** What parseDate does, in full.  It returns null exactly when the input
    is empty or blank, does not split into exactly three slash-separated
    parts, has a part that does not start (after white space and an optional sign) with
    an integer, or has a day whose leading integer lies outside [1,31] or a
    month whose leading integer lies outside [1,12].  Otherwise it returns
    the leading integer of the year part as it prints, a dash, the month on
    two digits, a dash and the day on two digits.  A part made of decimal
    digits only always starts with an integer.  The three documented
    examples hold. *)
Theorem parseDate_null_iff :
  (forall s : jsstring,
      parseDate s = None <->
      trim s = []
      \/ length (split (ch "/") s) <> 3
      \/ (exists p, In p (split (ch "/") s) /\ startsInteger p = false)
      \/ (exists p0 p1 p2 day month,
             split (ch "/") s = [p0; p1; p2]
             /\ parseInt p0 = Some day /\ parseInt p1 = Some month
             /\ (day < 1 \/ 31 < day \/ month < 1 \/ 12 < month)%Z))
  /\ (forall s d : jsstring,
         parseDate s = Some d ->
         exists p0 p1 p2 day month year,
           split (ch "/") s = [p0; p1; p2]
           /\ parseInt p0 = Some day /\ parseInt p1 = Some month
           /\ parseInt p2 = Some year
           /\ (1 <= day <= 31)%Z /\ (1 <= month <= 12)%Z
           /\ d = Number_toString year ++ js "-" ++ twoDigits month
                  ++ js "-" ++ twoDigits day)
  /\ (forall p : jsstring, numericComponent p = true -> startsInteger p = true)
  /\ parseDate (js "29/02/2024") = Some (js "2024-02-29")
  /\ parseDate (js "31/13/2024") = None
  /\ parseDate (js "1/1/2024") = Some (js "2024-01-01").
Proof.
  split.
  { intros s. rewrite parseDate_None.
    assert (Hp : (exists p, In p (split (ch "/") s) /\ parseInt p = None)
                 <-> (exists p, In p (split (ch "/") s) /\ startsInteger p = false)).
    { split; intros (p & Hin & H); exists p; split; auto; now apply parseInt_None_iff. }
    rewrite Hp. reflexivity. }
  split; [exact parseDate_Some|].
  split.
  { intros p Hp. destruct (startsInteger p) eqn:Hs; [reflexivity|].
    apply parseInt_None_iff in Hs. now apply parseInt_numeric in Hp. }
  repeat split; vm_compute; reflexivity.
Qed.

Lemma parseDate_null_iff_witness :
  exists day month year,
    parseInt (js "29") = Some day /\ parseInt (js "02") = Some month
    /\ parseInt (js "2024") = Some year
    /\ js "2024-02-29" = Number_toString year ++ js "-" ++ twoDigits month
                         ++ js "-" ++ twoDigits day.
Proof.
  destruct parseDate_null_iff as (_ & H & _).
  destruct (H (js "29/02/2024") (js "2024-02-29") eq_refl)
    as (p0 & p1 & p2 & day & month & year & Hs & H0 & H1 & H2 & _ & _ & Hd).
  injection Hs as <- <- <-.
  exists day, month, year. auto.
Defined.

(** Two lenient readings: a part that is not numeric does not make the
    result null when it starts with digits, and the year is not brought to
    four digits. *)
Lemma parseDate_lenient :
  (In (js "12abc") (split (ch "/") (js "12abc/03/2024"))
   /\ numericComponent (js "12abc") = false
   /\ parseDate (js "12abc/03/2024") = Some (js "2024-03-12"))
  /\ (parseDate (js "1/1/24") = Some (js "24-01-01")
      /\ canonicalDate (js "24-01-01") = false).
Proof.
  repeat split; vm_compute; auto.
Qed.

(** ** Row mapper *)

Lemma falsy_field (key : string) (row : Row) :
  falsy (field key row) = true <-> missingOrBlank key row.
Proof.
  unfold field, missingOrBlank. destruct (get (js key) row) as [v|]; simpl.
  - apply isEmpty_true.
  - tauto.
Qed.

Lemma present_field (key : string) (row : Row) (v : jsstring) :
  present key row v <-> exists c r, v = c :: r /\ field key row = Some (c :: r).
Proof.
  unfold present, field. split.
  - intros (raw & Hg & Ht & Hne). destruct v as [|c r]; [contradiction|].
    exists c, r. rewrite Hg. simpl. now rewrite Ht.
  - intros (c & r & -> & Hf). destruct (get (js key) row) as [raw|]; [|discriminate].
    exists raw. simpl in Hf. injection Hf as Hf. repeat split; auto. discriminate.
Qed.

Lemma mapper_null_iff (row : Row) :
  parseTransactionRow row = Returned None
  <-> missingOrBlank "Rekening" row \/ missingOrBlank "Boekingsdatum" row
      \/ missingOrBlank "Bedrag" row.
Proof.
  rewrite <- !falsy_field. unfold parseTransactionRow.
  destruct (field "Rekening" row) as [[|a an]|]; simpl falsy;
    try (split; [intros _; left; reflexivity | reflexivity]).
  destruct (field "Boekingsdatum" row) as [[|b bn]|]; simpl falsy;
    try (split; [intros _; right; left; reflexivity | reflexivity]).
  destruct (field "Bedrag" row) as [[|m mn]|]; simpl falsy;
    try (split; [intros _; right; right; reflexivity | reflexivity]).
  split.
  - destruct (parseDate (b :: bn)); [|discriminate].
    destruct (parseAmount (m :: mn)); [|discriminate].
    destruct (parsePostalCodeCity (field "Postcode en plaats" row)). discriminate.
  - intros [H|[H|H]]; discriminate.
Qed.

Lemma mapper_throws (row : Row) (a b m : jsstring) :
  present "Rekening" row a -> present "Boekingsdatum" row b ->
  present "Bedrag" row m ->
  (parseDate b = None ->
   parseTransactionRow row = Thrown (js "Invalid booking date: " ++ b))
  /\ (parseDate b <> None -> parseAmount m = None ->
      parseTransactionRow row = Thrown (js "Invalid amount: " ++ m))
  /\ (parseDate b <> None -> parseAmount m <> None ->
      exists t, parseTransactionRow row = Returned (Some t)
                /\ accountNumber t = a /\ Some (bookingDate t) = parseDate b
                /\ Some (amount t) = parseAmount m).
Proof.
  intros Ha Hb Hm.
  apply present_field in Ha as (a0 & an & -> & Ha).
  apply present_field in Hb as (b0 & bn & -> & Hb).
  apply present_field in Hm as (m0 & mn & -> & Hm).
  unfold parseTransactionRow. rewrite Ha, Hb, Hm.
  destruct (parseDate (b0 :: bn)) as [d|].
  - split; [discriminate|]. destruct (parseAmount (m0 :: mn)) as [n|].
    + split; [intros _; discriminate|]. intros _ _.
      destruct (parsePostalCodeCity (field "Postcode en plaats" row)).
      eexists. split; [reflexivity|]. simpl. auto.
    + split; [reflexivity|]. intros _ H. congruence.
  - split; [reflexivity|]. split; intros H; congruence.
Qed.

(** ** The row loop *)

Lemma processRows_spec (rows : list Row) :
  forall i transactions console,
    processRows i rows transactions console
    = (transactions ++ survivors rows, console ++ rowLines i rows).
Proof.
  induction rows as [|row rest IH]; intros i txs console.
  - cbn [processRows survivors rowLines]. now rewrite !app_nil_r.
  - cbn [processRows survivors rowLines]. unfold contribution, rowLine, kept.
    destruct (existsb nonBlank (values row)); cbn [negb andb].
    + destruct (accountCell row) as [[|c r]|].
      * change (startsWith (js "BE") []) with false. cbv iota.
        rewrite IH, <- app_assoc. reflexivity.
      * destruct (startsWith (js "BE") (c :: r)).
        -- destruct (parseTransactionRow row) as [[t|]|message];
             rewrite IH; rewrite <- ?app_assoc; reflexivity.
        -- rewrite IH, <- app_assoc. reflexivity.
      * rewrite IH, <- app_assoc. reflexivity.
    + apply IH.
Qed.

Lemma survivors_app (a b : list Row) :
  survivors (a ++ b) = survivors a ++ survivors b.
Proof.
  induction a as [|row a IH]; simpl; [reflexivity|].
  destruct (contribution row); simpl; now rewrite IH.
Qed.

Lemma rowLines_app (a b : list Row) :
  forall i, rowLines i (a ++ b) = rowLines i a ++ rowLines (i + length a) b.
Proof.
  induction a as [|row a IH]; intros i; simpl.
  - now rewrite Nat.add_0_r.
  - rewrite IH, <- app_assoc. now rewrite Nat.add_succ_r.
Qed.

(** The parser's result and console in terms of the surviving rows. *)
Lemma parse_spec (Papa_parse : jsstring -> Papa.Result) (csvContent : jsstring) :
  Papa.errors (Papa_parse csvContent) = [] ->
  let rows := Papa.data (Papa_parse csvContent) in
  let headers := match rows with r :: _ => map fst r | [] => [] end in
  parseBelgianBankCSV Papa_parse csvContent
  = match survivors rows with
    | [] => (Failure noTransactions,
             [LogProcessing (length rows); LogHeaders headers] ++ rowLines 0 rows)
    | txs => (Success txs,
              ([LogProcessing (length rows); LogHeaders headers] ++ rowLines 0 rows)
                ++ [LogParsed (length txs)])
    end.
Proof.
  intros He rows headers. unfold parseBelgianBankCSV. rewrite He.
  fold rows. fold headers. rewrite processRows_spec. simpl app at 1.
  destruct (survivors rows); reflexivity.
Qed.

Lemma thrown_row_logged (Papa_parse : jsstring -> Papa.Result)
    (csvContent : jsstring) (before after : list Row) (bad : Row)
    (message : jsstring) :
  Papa.errors (Papa_parse csvContent) = [] ->
  Papa.data (Papa_parse csvContent) = before ++ bad :: after ->
  kept bad = true ->
  parseTransactionRow bad = Thrown message ->
  In (LogRowError (length before + 1) message)
     (snd (parseBelgianBankCSV Papa_parse csvContent))
  /\ survivors (before ++ bad :: after) = survivors before ++ survivors after
  /\ fst (parseBelgianBankCSV Papa_parse csvContent)
     = match survivors before ++ survivors after with
       | [] => Failure noTransactions
       | txs => Success txs
       end.
Proof.
  intros He Hd Hk Ht.
  assert (Hs : survivors (before ++ bad :: after)
               = survivors before ++ survivors after).
  { rewrite survivors_app. cbn [survivors]. unfold contribution.
    now rewrite Hk, Ht. }
  assert (Hl : In (LogRowError (length before + 1) message)
                  (rowLines 0 (before ++ bad :: after))).
  { rewrite rowLines_app. apply in_or_app. right. cbn [rowLines].
    apply in_or_app. left. unfold rowLine.
    unfold kept in Hk. apply andb_true_iff in Hk as [Hnb Hacc].
    rewrite Hnb. unfold kept. rewrite Hnb, Hacc, Ht. cbn [andb].
    left. reflexivity. }
  rewrite (parse_spec Papa_parse csvContent He), Hd, Hs.
  split; [|split; [reflexivity|]].
  - destruct (survivors before ++ survivors after); cbn [snd].
    + apply in_or_app. now right.
    + apply in_or_app. left. apply in_or_app. now right.
  - destruct (survivors before ++ survivors after); reflexivity.
Qed.

(** C6: an error thrown by the row mapper on one row is caught by the
    parser and recorded on the console with the row's 1-based index and the
    message; the other rows are processed as if the row were absent, so the
    row does not abort the batch.  On success the parser returns exactly the
    surviving transactions, in file order. *)
Theorem row_errors_do_not_abort :
  forall (Papa_parse : jsstring -> Papa.Result) (csvContent : jsstring),
    Papa.errors (Papa_parse csvContent) = [] ->
    (forall before bad after message,
        Papa.data (Papa_parse csvContent) = before ++ bad :: after ->
        kept bad = true ->
        parseTransactionRow bad = Thrown message ->
        In (LogRowError (length before + 1) message)
           (snd (parseBelgianBankCSV Papa_parse csvContent))
        /\ fst (parseBelgianBankCSV Papa_parse csvContent)
           = match survivors before ++ survivors after with
             | [] => Failure noTransactions
             | txs => Success txs
             end)
    /\ (forall txs,
           fst (parseBelgianBankCSV Papa_parse csvContent) = Success txs <->
           txs <> [] /\ txs = survivors (Papa.data (Papa_parse csvContent)))
    /\ (forall a b : list Row, survivors (a ++ b) = survivors a ++ survivors b)
    /\ (forall row : Row,
           survivors [row]
           = match contribution row with Some t => [t] | None => [] end).
Proof.
  intros Papa_parse csvContent He. split; [|split; [|split]].
  - intros before bad after message Hd Hk Ht.
    destruct (thrown_row_logged Papa_parse csvContent before after bad message
                He Hd Hk Ht) as (H1 & _ & H2).
    now split.
  - intros txs. rewrite (parse_spec Papa_parse csvContent He).
    destruct (survivors (Papa.data (Papa_parse csvContent))) as [|t ts]; cbn [fst].
    + split; [discriminate|]. intros [H ->]. now contradiction H.
    + split.
      * intros [= <-]. split; [discriminate|reflexivity].
      * intros [_ ->]. reflexivity.
  - exact survivors_app.
  - intros row. cbn [survivors]. now destruct (contribution row).
Qed.

Lemma row_errors_do_not_abort_witness :
  In (LogRowError 4 (js "Invalid amount: n/a"))
     (snd (parseBelgianBankCSV Demo.plainTokenizer (Demo.decode Demo.tenRows)))
  /\ exists txs,
      fst (parseBelgianBankCSV Demo.plainTokenizer (Demo.decode Demo.tenRows))
      = Success txs /\ length txs = 8.
Proof.
  destruct (row_errors_do_not_abort Demo.plainTokenizer
              (Demo.decode Demo.tenRows) eq_refl) as (H & _).
  pose (rows := Papa.data (Demo.plainTokenizer (Demo.decode Demo.tenRows))).
  destruct (H (firstn 3 rows) (nth 3 rows []) (skipn 4 rows)
              (js "Invalid amount: n/a")) as [H1 H2].
  - vm_compute. reflexivity.
  - vm_compute. reflexivity.
  - vm_compute. reflexivity.
  - split; [exact H1|].
    eexists. split; [exact H2|]. vm_compute. reflexivity.
Defined.

(** C8, amended: the row mapper returns null exactly when the account
    number, the booking-date text or the amount text is missing or blank,
    and such a row is dropped silently: it contributes nothing and the
    parser writes nothing about it.  A row with all three present whose
    booking date fails parseDate, or whose amount fails parseAmount, makes
    the mapper throw a message naming the offending text, without a row
    index.  The parser catches it, writes the row's 1-based index and the
    message to the console, leaves the row out of the output, and returns
    what it returns for the file without the row: the row error is not part
    of what the parser's caller receives. *)
Theorem row_mapper_drop_or_error :
  forall row : Row,
    (parseTransactionRow row = Returned None <->
     missingOrBlank "Rekening" row \/ missingOrBlank "Boekingsdatum" row
     \/ missingOrBlank "Bedrag" row)
    /\ (forall a b m : jsstring,
           present "Rekening" row a -> present "Boekingsdatum" row b ->
           present "Bedrag" row m ->
           (parseDate b = None ->
            parseTransactionRow row = Thrown (js "Invalid booking date: " ++ b))
           /\ (parseDate b <> None -> parseAmount m = None ->
               parseTransactionRow row = Thrown (js "Invalid amount: " ++ m)))
    /\ (parseTransactionRow row = Returned None ->
        contribution row = None
        /\ forall i, kept row = true -> rowLine i row = [])
    /\ (forall message : jsstring,
           parseTransactionRow row = Thrown message ->
           contribution row = None
           /\ forall (Papa_parse : jsstring -> Papa.Result) csvContent before after,
               Papa.errors (Papa_parse csvContent) = [] ->
               Papa.data (Papa_parse csvContent) = before ++ row :: after ->
               kept row = true ->
               In (LogRowError (length before + 1) message)
                  (snd (parseBelgianBankCSV Papa_parse csvContent))
               /\ survivors (before ++ row :: after)
                  = survivors before ++ survivors after
               /\ fst (parseBelgianBankCSV Papa_parse csvContent)
                  = match survivors before ++ survivors after with
                    | [] => Failure noTransactions
                    | txs => Success txs
                    end).
Proof.
  intros row. split; [apply mapper_null_iff|]. split; [|split].
  - intros a b m Ha Hb Hm.
    destruct (mapper_throws row a b m Ha Hb Hm) as (H1 & H2 & _). now split.
  - intros Hnull. split.
    + unfold contribution. rewrite Hnull. now destruct (kept row).
    + intros i Hk. unfold rowLine. rewrite Hk, Hnull.
      unfold kept in Hk. apply andb_true_iff in Hk as [Hnb _]. now rewrite Hnb.
  - intros message Ht. split.
    + unfold contribution. rewrite Ht. now destruct (kept row).
    + intros Papa_parse csvContent before after He Hd Hk.
      exact (thrown_row_logged Papa_parse csvContent before after row message
               He Hd Hk Ht).
Qed.

Lemma row_mapper_drop_or_error_witness :
  parseTransactionRow
    [(js "Rekening", js "BE68539007547034"); (js "Boekingsdatum", js "31/13/2024");
     (js "Bedrag", js "-12,30")]
  = Thrown (js "Invalid booking date: 31/13/2024").
Proof.
  destruct (row_mapper_drop_or_error
              [(js "Rekening", js "BE68539007547034");
               (js "Boekingsdatum", js "31/13/2024");
               (js "Bedrag", js "-12,30")]) as (_ & H & _ & _).
  destruct (H (js "BE68539007547034") (js "31/13/2024") (js "-12,30")) as [Hd _].
  - exists (js "BE68539007547034").
    split; [reflexivity|split; [reflexivity|discriminate]].
  - exists (js "31/13/2024").
    split; [reflexivity|split; [reflexivity|discriminate]].
  - exists (js "-12,30").
    split; [reflexivity|split; [reflexivity|discriminate]].
  - apply Hd. vm_compute. reflexivity.
Defined.

(** C8 as stated fails: the row error is not reported to the caller.  In a
    file of three rows whose second has the booking date 31/13/2024, the
    mapper throws for that row, the parser writes row 2 and the message to
    the console and returns the two other transactions, and the response of
    the import counts no error and lists none. *)
Lemma row_error_not_reported_to_caller :
  nth_error
    (map parseTransactionRow
       (Papa.data (Demo.plainTokenizer (Demo.decode badDateRows)))) 1
  = Some (Thrown (js "Invalid booking date: 31/13/2024"))
  /\ In (LogRowError 2 (js "Invalid booking date: 31/13/2024"))
        (snd (parseBelgianBankCSV Demo.plainTokenizer (Demo.decode badDateRows)))
  /\ (exists t1 t3,
        fst (parseBelgianBankCSV Demo.plainTokenizer (Demo.decode badDateRows))
        = Success [t1; t3])
  /\ snd (fst (upload Demo.env 100 (Demo.post "maart.csv" badDateRows)
                 Demo.emptyDb))
     = RespSuccess {| totalRecords := 2; imported := 2;
                      skipped := 0; errors := 0 |} [].
Proof.
  split; [vm_compute; reflexivity|].
  split; [vm_compute; tauto|].
  split; [eexists; eexists; vm_compute; reflexivity|].
  vm_compute. reflexivity.
Qed.

(** ** The import loop *)

Section ImportLoop.

Variable E : Env.

Lemma insertTransaction_logs (t : Transaction) (h : jsstring) (db : Database) :
  import_logs (fst (insertTransaction E t h db)) = import_logs db.
Proof.
  unfold insertTransaction. destruct (column_error E t); [reflexivity|].
  now destruct (existsb _ _).
Qed.

(** One more transaction: its step, then the rest of the loop. *)
Lemma importRows_cons (h : jsstring) (i : nat) (t : Transaction)
    (rest : list Transaction) (db : Database) (c : Counters)
    (trace : list Effect) :
  importRows E h i (t :: rest) db c trace
  = let '(db1, c1, trace1) := importRows E h i [t] db c trace in
    importRows E h (S i) rest db1 c1 trace1.
Proof.
  cbn [importRows].
  destruct (insertTransaction E t h db) as [db' [err|]].
  - now destruct (match code err with Some k => _ | None => _ end).
  - reflexivity.
Qed.

(** The step for one transaction raises exactly one counter, and which one
    is decided by the outcome of the INSERT. *)
Lemma importRows_step (h : jsstring) (i : nat) (t : Transaction)
    (db : Database) (c : Counters) (trace : list Effect) :
  let c' := snd (fst (importRows E h i [t] db c trace)) in
  incrementsOne c c'
  /\ match snd (insertTransaction E t h db) with
     | None => importedCount c' = S (importedCount c)
               /\ errorList c' = errorList c
     | Some e =>
         if isDupEntry e
         then skippedCount c' = S (skippedCount c) /\ errorList c' = errorList c
         else errorCount c' = S (errorCount c)
              /\ errorList c'
                 = errorList c ++ [{| row := i + 1; error := message e |}]
     end
  /\ fst (fst (importRows E h i [t] db c trace))
     = fst (insertTransaction E t h db).
Proof.
  cbn [importRows]. unfold incrementsOne, isDupEntry.
  destruct (insertTransaction E t h db) as [db' [err|]]; cbn [snd fst].
  - destruct (match code err with Some k => _ | None => _ end);
      cbn [snd fst importedCount skippedCount errorCount errorList]; tauto.
  - cbn [snd fst importedCount skippedCount errorCount errorList]. tauto.
Qed.

Lemma importRows_counts (h : jsstring) (txs : list Transaction) :
  forall i db c trace,
    let c' := snd (fst (importRows E h i txs db c trace)) in
    importedCount c' + skippedCount c' + errorCount c'
    = importedCount c + skippedCount c + errorCount c + length txs
    /\ import_logs (fst (fst (importRows E h i txs db c trace)))
       = import_logs db.
Proof.
  induction txs as [|t rest IH]; intros i db c trace.
  - cbn. split; [lia|reflexivity].
  - rewrite importRows_cons.
    pose proof (importRows_step h i t db c trace) as (Hinc & _ & Hdb).
    destruct (importRows E h i [t] db c trace) as [[db1 c1] trace1].
    cbn [fst snd] in Hinc, Hdb.
    specialize (IH (S i) db1 c1 trace1). cbv zeta in IH.
    destruct IH as [IH1 IH2]. cbv zeta. rewrite IH1, IH2. split.
    + cbn [length]. unfold incrementsOne in Hinc. lia.
    + rewrite Hdb. apply insertTransaction_logs.
Qed.

End ImportLoop.

(** ** The import log *)

Lemma nextId_fresh (db : Database) (l : ImportLog) :
  In l (import_logs db) -> id l <> nextId db.
Proof.
  intros Hin. unfold nextId.
  assert (H : Forall (fun k => k <= list_max (map id (import_logs db)))
                     (map id (import_logs db)))
    by (apply list_max_le; lia).
  rewrite Forall_forall in H. specialize (H (id l) (in_map id _ _ Hin)). lia.
Qed.

Lemma updateLog_new (logs : list ImportLog) (l : ImportLog)
    (set : ImportLog -> ImportLog) (T : list StoredTransaction) :
  (forall x, In x logs -> id x <> id l) ->
  updateLog (id l) set {| import_logs := logs ++ [l]; transactions := T |}
  = {| import_logs := logs ++ [set l]; transactions := T |}.
Proof.
  intros Hfresh. unfold updateLog. cbn [import_logs transactions]. f_equal.
  rewrite map_app. cbn [map]. rewrite Nat.eqb_refl. f_equal.
  induction logs as [|x logs IH]; [reflexivity|]. cbn [map].
  assert (Hx : (id x =? id l) = false)
    by (apply Nat.eqb_neq, Hfresh; now left).
  rewrite Hx, IH; [reflexivity|]. intros y Hy. apply Hfresh. now right.
Qed.

(** ** The upload route *)

(** The handler on a file whose fingerprint is not on record and whose log
    row the server accepts. *)
Lemma upload_fresh (E : Env) (now : nat) (f : UploadedFile) (db : Database) :
  selectLogs (md5 E (buffer f)) db = [] ->
  log_error E (originalname f) (md5 E (buffer f)) = None ->
  upload E now {| file := Some f |} db
  = let hash := md5 E (buffer f) in
    let content := utf8 E (buffer f) in
    let l0 := newLog now (originalname f) hash db in
    let db1 := {| import_logs := import_logs db ++ [l0];
                  transactions := transactions db |} in
    let '(parseResult, out) := parseBelgianBankCSV (Papa_parse E) content in
    let trace := Console (LogUpload (originalname f))
                 :: ParserCall content :: map Console out in
    match parseResult with
    | Failure err =>
        ({| import_logs := import_logs db ++ [setFailed err l0];
            transactions := transactions db |},
         RespError 400 err,
         trace ++ [Unlink (path f)])
    | Success txs =>
        let '(db2, c, trace2) := importRows E hash 0 txs db1 noCounts trace in
        ({| import_logs := import_logs db
              ++ [setCompleted now (length txs) (importedCount c)
                    (skippedCount c) (errorCount c) (errorList c) l0];
            transactions := transactions db2 |},
         RespSuccess
           {| totalRecords := length txs;
              imported := importedCount c;
              skipped := skippedCount c;
              errors := errorCount c |}
           (firstn 5 (errorList c)),
         trace2 ++ [Unlink (path f);
                    Console (LogImportCompleted (importedCount c)
                               (skippedCount c) (errorCount c))])
    end.
Proof.
  intros Hsel Hlog. unfold upload. cbn [file]. rewrite Hsel. cbv zeta.
  rewrite Hlog. unfold insertLog.
  assert (Hfresh : forall x, In x (import_logs db) ->
                     id x <> id (newLog now (originalname f) (md5 E (buffer f)) db))
    by (intros x Hx; now apply nextId_fresh).
  change (nextId db) with (id (newLog now (originalname f) (md5 E (buffer f)) db)).
  destruct (parseBelgianBankCSV (Papa_parse E) (utf8 E (buffer f)))
    as [[txs|err] out].
  - pose proof (importRows_counts E (md5 E (buffer f)) txs 0
                  {| import_logs := import_logs db
                       ++ [newLog now (originalname f) (md5 E (buffer f)) db];
                     transactions := transactions db |}
                  noCounts
                  (Console (LogUpload (originalname f))
                   :: ParserCall (utf8 E (buffer f)) :: map Console out))
      as [_ Hlogs].
    destruct (importRows E (md5 E (buffer f)) 0 txs _ noCounts _)
      as [[db2 c] trace2].
    cbn [fst import_logs] in Hlogs. destruct db2 as [logs2 T2].
    cbn [import_logs] in Hlogs. subst logs2.
    rewrite (updateLog_new _ _ _ _ Hfresh). reflexivity.
  - rewrite (updateLog_new _ _ _ _ Hfresh). reflexivity.
Qed.

Lemma upload_known (E : Env) (now : nat) (f : UploadedFile) (db : Database)
    (l : ImportLog) (ls : list ImportLog) :
  selectLogs (md5 E (buffer f)) db = l :: ls ->
  upload E now {| file := Some f |} db
  = (db, RespDuplicate 409 (js "File already processed") (imported_at l),
     [Console (LogUpload (originalname f)); Unlink (path f)]).
Proof.
  intros Hsel. unfold upload. cbn [file]. now rewrite Hsel.
Qed.

(** C9: in every import that reaches row processing, each parsed
    transaction raises exactly one of the three counters by one, so that
    imported + skipped + errors equals the number of parsed transactions,
    which is the totalRecords of the returned summary. *)
Theorem counters_partition_records :
  forall E : Env,
    (forall h i t rest db c trace,
        incrementsOne c (snd (fst (importRows E h i [t] db c trace)))
        /\ importRows E h i (t :: rest) db c trace
           = (let '(db1, c1, trace1) := importRows E h i [t] db c trace in
              importRows E h (S i) rest db1 c1 trace1))
    /\ (forall now req db db' summary errs trace,
           upload E now req db = (db', RespSuccess summary errs, trace) ->
           imported summary + skipped summary + errors summary
           = totalRecords summary
           /\ exists f txs,
               file req = Some f
               /\ fst (parseBelgianBankCSV (Papa_parse E) (utf8 E (buffer f)))
                  = Success txs
               /\ totalRecords summary = length txs).
Proof.
  intros E. split.
  - intros h i t rest db c trace. split.
    + apply importRows_step.
    + apply importRows_cons.
  - intros now [[f|]] db db' summary errs trace H.
    2:{ unfold upload in H. cbn [file] in H. discriminate. }
    destruct (selectLogs (md5 E (buffer f)) db) as [|l ls] eqn:Hsel.
    2:{ rewrite (upload_known E now f db l ls Hsel) in H. discriminate. }
    destruct (log_error E (originalname f) (md5 E (buffer f))) as [e|] eqn:Hlog.
    { unfold upload in H. cbn [file] in H. rewrite Hsel in H. cbv zeta in H.
      rewrite Hlog in H. discriminate. }
    rewrite (upload_fresh E now f db Hsel Hlog) in H. cbv zeta in H.
    destruct (parseBelgianBankCSV (Papa_parse E) (utf8 E (buffer f)))
      as [[txs|err] out] eqn:Hparse; [|discriminate].
    match type of H with
    | context [importRows E ?h 0 txs ?d noCounts ?t] =>
        pose proof (importRows_counts E h txs 0 d noCounts t) as [Hsum _];
        destruct (importRows E h 0 txs d noCounts t) as [[db2 c] trace2]
    end.
    cbn [fst snd] in Hsum. injection H as _ <- _ _.
    cbn [imported skipped errors totalRecords].
    split; [cbn in Hsum; lia|].
    exists f, txs. now rewrite Hparse.
Qed.

Lemma counters_partition_records_witness :
  exists db' trace,
    upload Demo.env 100 (Demo.post "maart.csv" Demo.tenRows) Demo.emptyDb
    = (db', RespSuccess {| totalRecords := 8; imported := 8;
                           skipped := 0; errors := 0 |} [], trace)
    /\ 8 + 0 + 0 = 8.
Proof.
  eexists. eexists. split; [vm_compute; reflexivity|].
  destruct (counters_partition_records Demo.env) as [_ H].
  refine (proj1 (H 100 (Demo.post "maart.csv" Demo.tenRows) Demo.emptyDb
                   _ {| totalRecords := 8; imported := 8;
                        skipped := 0; errors := 0 |} [] _ _)).
  vm_compute. reflexivity.
Defined.

Lemma survivors_none (rows : list Row) :
  (forall row, In row rows ->
     match accountCell row with
     | Some a => startsWith (js "BE") a = false
     | None => True
     end) ->
  survivors rows = [].
Proof.
  induction rows as [|row rest IH]; intros H; [reflexivity|].
  cbn [survivors]. unfold contribution, kept.
  specialize (H row (or_introl eq_refl)) as Hrow.
  destruct (accountCell row) as [a|].
  - rewrite Hrow, andb_false_r. apply IH. intros r Hr. apply H. now right.
  - rewrite andb_false_r. apply IH. intros r Hr. apply H. now right.
Qed.

(** C7: when no transaction survives (the tokenizer having reported no
    error), the parse fails with the "No valid transactions found" message,
    whether or not a row raised an error; an import that reaches the parse
    (no log on record for the fingerprint, log row accepted) then marks its
    ImportLog failed with that message, answers 400 with it and inserts no
    transaction.  A file without data rows, and a file with
    no row whose account cell starts with BE, are such files. *)
Theorem no_transactions_fails_import :
  (forall rows : list Row,
      (forall row, In row rows ->
         match accountCell row with
         | Some a => startsWith (js "BE") a = false
         | None => True
         end) ->
      survivors rows = [])
  /\ (forall (E : Env) (now : nat) (f : UploadedFile) (db : Database),
         selectLogs (md5 E (buffer f)) db = [] ->
         log_error E (originalname f) (md5 E (buffer f)) = None ->
         Papa.errors (Papa_parse E (utf8 E (buffer f))) = [] ->
         survivors (Papa.data (Papa_parse E (utf8 E (buffer f)))) = [] ->
         fst (parseBelgianBankCSV (Papa_parse E) (utf8 E (buffer f)))
         = Failure noTransactions
         /\ exists db' trace l,
             upload E now {| file := Some f |} db
             = (db', RespError 400 noTransactions, trace)
             /\ transactions db' = transactions db
             /\ (forall t, ~ In (InsertCall t) trace)
             /\ import_logs db' = import_logs db ++ [l]
             /\ file_hash l = md5 E (buffer f)
             /\ filename l = originalname f
             /\ import_status l = failed
             /\ error_message l = Some (ErrorText noTransactions)).
Proof.
  split; [exact survivors_none|].
  intros E now f db Hsel Hlog He Hs.
  pose proof (parse_spec (Papa_parse E) (utf8 E (buffer f)) He) as Hp.
  cbv zeta in Hp. rewrite Hs in Hp.
  split; [now rewrite Hp|].
  rewrite (upload_fresh E now f db Hsel Hlog). cbv zeta. rewrite Hp.
  eexists. eexists. eexists. split; [reflexivity|].
  cbn [transactions import_logs]. split; [reflexivity|]. split.
  - intros t Hin. cbn [app] in Hin.
    destruct Hin as [Hin|[Hin|Hin]]; try discriminate.
    apply in_app_or in Hin as [Hin|[Hin|[]]]; [|discriminate].
    apply in_map_iff in Hin as (x & Hx & _). discriminate.
  - repeat split; reflexivity.
Qed.

Lemma no_transactions_fails_import_witness :
  exists db' trace,
    upload Demo.env 100 (Demo.post "leeg.csv" Demo.headerOnly) Demo.emptyDb
    = (db', RespError 400 noTransactions, trace)
    /\ transactions db' = [].
Proof.
  destruct no_transactions_fails_import as [_ H].
  destruct (H Demo.env 100
              {| path := js "uploads/leeg.csv"; originalname := js "leeg.csv";
                 buffer := Demo.headerOnly |} Demo.emptyDb)
    as (_ & db' & trace & l & Hu & Ht & _).
  - vm_compute. reflexivity.
  - reflexivity.
  - vm_compute. reflexivity.
  - vm_compute. reflexivity.
  - exists db', trace. split; [exact Hu|exact Ht].
Defined.

(** C2, amended: for a file whose fingerprint is not on record yet and whose
    log row the server accepts, the first run creates the ImportLog and ends
    as a successful import (log completed) when the parse succeeds and as a
    parse failure (status 400, log failed) when it fails; the second
    run on the same bytes, whatever its time and file name, is a
    duplicate-file rejection: it finds that log by fingerprint, does nothing
    but log the upload and remove the staged file (no parser call, no
    INSERT, database unchanged), and answers 409 with the first run's
    timestamp. *)
Theorem second_upload_is_rejected :
  forall (E : Env) (now1 now2 : nat) (f1 f2 : UploadedFile) (db : Database),
    buffer f2 = buffer f1 ->
    selectLogs (md5 E (buffer f1)) db = [] ->
    log_error E (originalname f1) (md5 E (buffer f1)) = None ->
    exists db1 r1 trace1 l,
      upload E now1 {| file := Some f1 |} db = (db1, r1, trace1)
      /\ match fst (parseBelgianBankCSV (Papa_parse E) (utf8 E (buffer f1))) with
         | Success txs => exists summary errs, r1 = RespSuccess summary errs
         | Failure err => r1 = RespError 400 err
         end
      /\ selectLogs (md5 E (buffer f1)) db1 = [l]
      /\ imported_at l = now1
      /\ import_status l
         = match fst (parseBelgianBankCSV (Papa_parse E) (utf8 E (buffer f1))) with
           | Success _ => completed
           | Failure _ => failed
           end
      /\ upload E now2 {| file := Some f2 |} db1
         = (db1, RespDuplicate 409 (js "File already processed") now1,
            [Console (LogUpload (originalname f2)); Unlink (path f2)]).
Proof.
  intros E now1 now2 f1 f2 db Hbuf Hsel Hlog.
  rewrite (upload_fresh E now1 f1 db Hsel Hlog). cbv zeta.
  assert (Hnew : forall (set : ImportLog -> ImportLog) T,
             file_hash (set (newLog now1 (originalname f1) (md5 E (buffer f1)) db))
             = md5 E (buffer f1) ->
             selectLogs (md5 E (buffer f1))
               {| import_logs := import_logs db
                    ++ [set (newLog now1 (originalname f1) (md5 E (buffer f1)) db)];
                  transactions := T |}
             = [set (newLog now1 (originalname f1) (md5 E (buffer f1)) db)]).
  { intros set T Hh. unfold selectLogs in *. cbn [import_logs].
    rewrite filter_app, Hsel. cbn [filter app]. now rewrite Hh, str_eqb_refl. }
  destruct (parseBelgianBankCSV (Papa_parse E) (utf8 E (buffer f1)))
    as [[txs|err] out]; cbn [fst].
  - destruct (importRows E (md5 E (buffer f1)) 0 txs _ noCounts _)
      as [[db2 c] trace2].
    eexists. eexists. eexists. eexists.
    split; [reflexivity|]. split; [eauto|].
    split; [apply Hnew; reflexivity|]. split; [reflexivity|].
    split; [cbn [import_status setCompleted]; now destruct (errorCount c =? 0)|].
    erewrite upload_known by (rewrite Hbuf; apply Hnew; reflexivity).
    reflexivity.
  - eexists. eexists. eexists. eexists.
    split; [reflexivity|]. split; [reflexivity|].
    split; [apply Hnew; reflexivity|]. split; [reflexivity|].
    split; [reflexivity|].
    erewrite upload_known by (rewrite Hbuf; apply Hnew; reflexivity).
    reflexivity.
Qed.

Lemma second_upload_is_rejected_witness :
  exists db1 r1 trace1,
    upload Demo.env 100 (Demo.post "maart.csv" Demo.tenRows) Demo.emptyDb
    = (db1, r1, trace1)
    /\ upload Demo.env 200 (Demo.post "kopie.csv" Demo.tenRows) db1
       = (db1, RespDuplicate 409 (js "File already processed") 100,
          [Console (LogUpload (js "kopie.csv")); Unlink (js "uploads/kopie.csv")]).
Proof.
  destruct (second_upload_is_rejected Demo.env 100 200
              {| path := js "uploads/maart.csv"; originalname := js "maart.csv";
                 buffer := Demo.tenRows |}
              {| path := js "uploads/kopie.csv"; originalname := js "kopie.csv";
                 buffer := Demo.tenRows |}
              Demo.emptyDb)
    as (db1 & r1 & trace1 & l & H1 & _ & _ & _ & _ & H2).
  - reflexivity.
  - vm_compute. reflexivity.
  - reflexivity.
  - exists db1, r1, trace1. split; [exact H1|exact H2].
Defined.

(** C2 as stated fails for a file the parser rejects: the first run is a
    parse failure, not a successful import, and the second run is still
    rejected as a duplicate, so the two runs hold no successful import. *)
Lemma reupload_after_failed_parse :
  snd (fst (upload Demo.env 100 (Demo.post "leeg.csv" Demo.headerOnly)
              Demo.emptyDb))
  = RespError 400 noTransactions
  /\ snd (fst (upload Demo.env 200 (Demo.post "leeg.csv" Demo.headerOnly)
                 (fst (fst (upload Demo.env 100
                              (Demo.post "leeg.csv" Demo.headerOnly)
                              Demo.emptyDb)))))
     = RespDuplicate 409 (js "File already processed") 100.
Proof.
  split; vm_compute; reflexivity.
Qed.

(** ** Structurally valid rows *)

Lemma get_In (key : jsstring) (row : Row) (v : jsstring) :
  get key row = Some v -> In v (values row).
Proof.
  induction row as [|[k x] row IH]; cbn [get values map snd]; [discriminate|].
  destruct (str_eqb k key).
  - intros [= ->]. now left.
  - intros H. right. now apply IH.
Qed.

Lemma startsWith_BE (a : jsstring) :
  startsWith (js "BE") a = true -> exists r, a = 66%N :: r /\ trim a <> [].
Proof.
  change (js "BE") with [66%N; 69%N]. destruct a as [|c r]; [discriminate|].
  cbn [startsWith]. rewrite andb_true_iff, N.eqb_eq. intros [<- _].
  exists r. split; [reflexivity|]. intros Ht.
  apply trim_nil_all_space in Ht. discriminate.
Qed.

Lemma valid_row_kept (row : Row) :
  structurallyValid row ->
  kept row = true /\ exists a, present "Rekening" row a.
Proof.
  intros ((a & Hg & Hbe) & _).
  destruct (startsWith_BE a Hbe) as (r & -> & Htrim). split.
  - unfold kept, accountCell. rewrite Hg, Hbe, andb_true_r.
    apply existsb_exists. exists (66%N :: r).
    split; [exact (get_In _ _ _ Hg)|].
    unfold nonBlank. destruct (trim (66%N :: r)); [contradiction|reflexivity].
  - exists (trim (66%N :: r)). now exists (66%N :: r).
Qed.

(** What becomes of a structurally valid row whose booking date parses: an
    "Invalid amount" error when the amount cannot be parsed, a transaction
    otherwise. *)
Lemma valid_row_outcome (row : Row) :
  structurallyValid row -> dateParsable row = true ->
  if amountUnparsable row
  then exists m, present "Bedrag" row m
                 /\ parseTransactionRow row = Thrown (js "Invalid amount: " ++ m)
                 /\ contribution row = None
  else exists t, contribution row = Some t.
Proof.
  intros Hv Hd. destruct (valid_row_kept row Hv) as [Hk [a Ha]].
  destruct Hv as (_ & [b Hb] & [m Hm]).
  destruct (mapper_throws row a b m Ha Hb Hm) as (_ & Hamount & Hok).
  pose proof Hb as Hb'. apply present_field in Hb' as (b0 & bn & -> & Hfb).
  pose proof Hm as Hm'. apply present_field in Hm' as (m0 & mn & -> & Hfm).
  unfold dateParsable in Hd. rewrite Hfb in Hd.
  assert (Hdate : parseDate (b0 :: bn) <> None)
    by (destruct (parseDate (b0 :: bn)); [discriminate|discriminate]).
  unfold amountUnparsable, contribution. rewrite Hfm, Hk.
  destruct (parseAmount (m0 :: mn)) eqn:Hpa.
  - destruct (Hok Hdate) as (t & Ht & _); [discriminate|].
    exists t. now rewrite Ht.
  - exists (m0 :: mn). rewrite (Hamount Hdate eq_refl). auto.
Qed.

Lemma survivors_length (rows : list Row) :
  Forall structurallyValid rows ->
  Forall (fun r => dateParsable r = true) rows ->
  length (survivors rows) + length (filter amountUnparsable rows) = length rows.
Proof.
  induction 1 as [|row rows Hv _ IH]; intros Hd; [reflexivity|].
  inversion Hd as [|? ? Hd1 Hd2]; subst.
  specialize (IH Hd2). pose proof (valid_row_outcome row Hv Hd1) as Ho.
  cbn [survivors filter]. destruct (amountUnparsable row).
  - destruct Ho as (m & _ & _ & ->). cbn [length]. lia.
  - destruct Ho as (t & ->). cbn [length]. lia.
Qed.

(** ** Imports without overlap *)

Lemma insert_accepted (E : Env) (t : Transaction) (h : jsstring) (db : Database) :
  column_error E t = None ->
  (forall s, In s (transactions db) -> unique_transaction E t (stored s) = false) ->
  insertTransaction E t h db
  = ({| import_logs := import_logs db;
        transactions := transactions db ++ storedAs h [t] |}, None).
Proof.
  intros Hc Hu. unfold insertTransaction. rewrite Hc.
  replace (existsb _ (transactions db)) with false; [reflexivity|].
  symmetry. apply not_true_is_false. intros Hex.
  apply existsb_exists in Hex as (s & Hin & Hs). rewrite (Hu s Hin) in Hs.
  discriminate.
Qed.

Lemma importRows_all_inserted (E : Env) (h : jsstring) (txs : list Transaction) :
  forall i db c trace,
    noOverlap E db txs ->
    importRows E h i txs db c trace
    = ({| import_logs := import_logs db;
          transactions := transactions db ++ storedAs h txs |},
       {| importedCount := importedCount c + length txs;
          skippedCount := skippedCount c;
          errorCount := errorCount c;
          errorList := errorList c |},
       trace ++ map InsertCall txs).
Proof.
  induction txs as [|t rest IH]; intros i db c trace (Hc & Hdb & Hpairs).
  - cbn. rewrite !app_nil_r, Nat.add_0_r. now destruct db, c.
  - cbn [importRows].
    rewrite (insert_accepted E t h db);
      [|apply Hc; now left|intros s Hs; apply Hdb; [now left|exact Hs]].
    inversion Hpairs as [|? ? Hhead Htail]; subst.
    rewrite IH.
    + cbn [import_logs transactions importedCount skippedCount errorCount
             errorList length map storedAs].
      rewrite <- !app_assoc. cbn [app]. unfold storedAs.
      replace (S (importedCount c) + length rest)
        with (importedCount c + S (length rest)) by lia.
      reflexivity.
    + split; [|split].
      * intros x Hx. apply Hc. now right.
      * intros x s Hx Hs. cbn [transactions] in Hs.
        apply in_app_or in Hs as [Hs|[<-|[]]].
        -- apply Hdb; [now right|exact Hs].
        -- cbn [stored]. rewrite Forall_forall in Hhead. now apply Hhead.
      * exact Htail.
Qed.

(** C1, amended: for a file not imported before, whose log row the server
    accepts and whose ten rows all pass the structural checks and have a
    booking date that parses, of which exactly two have an amount that
    cannot be parsed, with no duplicate-key overlap and no other refusal by
    the storage, the import returns a summary with totalRecords=8,
    imported=8, skipped=0 and errors=0 and an empty error list; the two rows
    are dropped by the parser, which writes their 1-based indices and
    "Invalid amount" messages to the console only; the eight others are
    stored, and the import log is completed with the same counts and no
    error message. *)
Theorem partial_failure_summary :
  forall (E : Env) (now : nat) (f : UploadedFile) (db : Database)
         (rows : list Row),
    selectLogs (md5 E (buffer f)) db = [] ->
    log_error E (originalname f) (md5 E (buffer f)) = None ->
    Papa_parse E (utf8 E (buffer f))
    = {| Papa.data := rows; Papa.errors := [] |} ->
    Forall structurallyValid rows ->
    Forall (fun r => dateParsable r = true) rows ->
    length rows = 10 ->
    length (filter amountUnparsable rows) = 2 ->
    noOverlap E db (survivors rows) ->
    exists db' trace l,
      upload E now {| file := Some f |} db
      = (db',
         RespSuccess {| totalRecords := 8; imported := 8;
                        skipped := 0; errors := 0 |} [],
         trace)
      /\ import_logs db' = import_logs db ++ [l]
      /\ import_status l = completed
      /\ (total_records l, imported_records l, skipped_records l,
          error_records l) = (8, 8, 0, 0)
      /\ error_message l = None
      /\ transactions db'
         = transactions db ++ storedAs (md5 E (buffer f)) (survivors rows)
      /\ length (survivors rows) = 8
      /\ (forall i row,
             nth_error rows i = Some row -> amountUnparsable row = true ->
             exists m,
               present "Bedrag" row m
               /\ In (Console (LogRowError (i + 1) (js "Invalid amount: " ++ m)))
                     trace).
Proof.
  intros E now f db rows Hsel Hlog Hpapa Hvalid Hdates Hlen Hbad Hover.
  assert (He : Papa.errors (Papa_parse E (utf8 E (buffer f))) = [])
    by now rewrite Hpapa.
  assert (Hd : Papa.data (Papa_parse E (utf8 E (buffer f))) = rows)
    by now rewrite Hpapa.
  pose proof (survivors_length rows Hvalid Hdates) as Hs.
  assert (H8 : length (survivors rows) = 8) by lia.
  pose proof (parse_spec (Papa_parse E) (utf8 E (buffer f)) He) as Hp.
  cbv zeta in Hp. rewrite Hd in Hp.
  assert (Hlogged : forall i row,
             nth_error rows i = Some row -> amountUnparsable row = true ->
             exists m,
               present "Bedrag" row m
               /\ In (LogRowError (i + 1) (js "Invalid amount: " ++ m))
                     (snd (parseBelgianBankCSV (Papa_parse E) (utf8 E (buffer f))))).
  { intros i row Hnth Hun.
    destruct (nth_error_split rows i Hnth) as (before & after & Hrows & Hi).
    assert (Hin : In row rows) by (eapply nth_error_In; eauto).
    rewrite Forall_forall in Hvalid, Hdates.
    pose proof (valid_row_outcome row (Hvalid row Hin) (Hdates row Hin)) as Ho.
    rewrite Hun in Ho. destruct Ho as (m & Hm & Hthrown & _).
    exists m. split; [exact Hm|].
    destruct (valid_row_kept row (Hvalid row Hin)) as [Hk _].
    rewrite <- Hi.
    apply (thrown_row_logged (Papa_parse E) (utf8 E (buffer f)) before after row);
      auto.
    now rewrite Hd. }
  rewrite (upload_fresh E now f db Hsel Hlog). cbv zeta.
  destruct (survivors rows) as [|t ts] eqn:Hsurv; [discriminate|].
  rewrite Hp in Hlogged |- *. cbn [snd] in Hlogged.
  rewrite importRows_all_inserted by exact Hover.
  cbn [importedCount skippedCount errorCount errorList noCounts firstn
         import_logs transactions].
  rewrite H8. cbn [Nat.add].
  eexists. eexists. eexists. split; [reflexivity|].
  split; [reflexivity|]. split; [reflexivity|]. split; [reflexivity|].
  split; [reflexivity|]. split; [reflexivity|]. split; [reflexivity|].
  intros i row Hnth Hun. destruct (Hlogged i row Hnth Hun) as (m & Hm & Hin).
  exists m. split; [exact Hm|].
  apply in_or_app. left. apply in_or_app. left.
  right. right. apply in_map. rewrite H8 in Hin. exact Hin.
Qed.

Lemma structurallyValidb_ok (row : Row) :
  structurallyValidb row = true -> structurallyValid row.
Proof.
  unfold structurallyValidb, structurallyValid.
  rewrite !andb_true_iff, !negb_true_iff. intros [[Ha Hb] Hm].
  split; [|split].
  - destruct (get (js "Rekening") row) as [a|]; [|discriminate]. now exists a.
  - destruct (field "Boekingsdatum" row) as [[|c r]|] eqn:Hf; try discriminate.
    exists (c :: r). apply present_field. now exists c, r.
  - destruct (field "Bedrag" row) as [[|c r]|] eqn:Hf; try discriminate.
    exists (c :: r). apply present_field. now exists c, r.
Qed.

Lemma forallb_Forall (A : Type) (p : A -> bool) (P : A -> Prop) (l : list A) :
  (forall x, p x = true -> P x) -> forallb p l = true -> Forall P l.
Proof.
  intros Hp H. apply Forall_forall. intros x Hx.
  apply Hp. rewrite forallb_forall in H. now apply H.
Qed.

Lemma distinctKeys_ok (E : Env) (txs : list Transaction) :
  distinctKeys E txs = true ->
  ForallOrdPairs (fun a b => unique_transaction E b a = false) txs.
Proof.
  induction txs as [|a rest IH]; cbn [distinctKeys]; [constructor|].
  rewrite andb_true_iff. intros [Ha Hrest]. constructor; [|now apply IH].
  apply (forallb_Forall _ _ _ _ (fun b Hb => proj1 (negb_true_iff _) Hb) Ha).
Qed.

Lemma noOverlapb_ok (E : Env) (db : Database) (txs : list Transaction) :
  noOverlapb E db txs = true -> noOverlap E db txs.
Proof.
  unfold noOverlapb, noOverlap. rewrite !andb_true_iff.
  intros [[Hc Hdb] Hpairs]. split; [|split].
  - intros t Ht. rewrite forallb_forall in Hc. specialize (Hc t Ht).
    now destruct (column_error E t).
  - intros t s Ht Hs. rewrite forallb_forall in Hdb. specialize (Hdb t Ht).
    rewrite forallb_forall in Hdb. now apply negb_true_iff, Hdb.
  - now apply distinctKeys_ok.
Qed.

Lemma partial_failure_summary_witness :
  exists db' trace,
    upload Demo.env 100 (Demo.post "maart.csv" Demo.tenRows) Demo.emptyDb
    = (db',
       RespSuccess {| totalRecords := 8; imported := 8;
                      skipped := 0; errors := 0 |} [],
       trace)
    /\ length (transactions db') = 8
    /\ In (Console (LogRowError 4 (js "Invalid amount: n/a"))) trace.
Proof.
  pose (rows := Papa.data (Demo.plainTokenizer (Demo.decode Demo.tenRows))).
  destruct (partial_failure_summary Demo.env 100
              {| path := js "uploads/maart.csv"; originalname := js "maart.csv";
                 buffer := Demo.tenRows |} Demo.emptyDb rows)
    as (db' & trace & l & Hu & _ & _ & _ & _ & Ht & _ & Hlog).
  - vm_compute. reflexivity.
  - reflexivity.
  - vm_compute. reflexivity.
  - apply (forallb_Forall _ structurallyValidb _ _ structurallyValidb_ok).
    vm_compute. reflexivity.
  - apply (forallb_Forall _ dateParsable _ _ (fun r H => H)).
    vm_compute. reflexivity.
  - vm_compute. reflexivity.
  - vm_compute. reflexivity.
  - apply noOverlapb_ok. vm_compute. reflexivity.
  - exists db', trace. split; [exact Hu|]. split.
    + rewrite Ht. vm_compute. reflexivity.
    + destruct (Hlog 3 (nth 3 rows [])) as (m & Hm & Hin).
      * vm_compute. reflexivity.
      * vm_compute. reflexivity.
      * destruct Hm as (raw & Hraw & Htrim & _).
        injection Hraw as <-. rewrite <- Htrim in Hin. exact Hin.
Defined.

(** C1 as stated fails: on ten structurally valid rows of which rows 4 and 9
    have an amount that cannot be parsed, the summary counts no error and
    the returned error list is empty. *)
Lemma partial_failure_errors_not_surfaced :
  forallb structurallyValidb
    (Papa.data (Demo.plainTokenizer (Demo.decode Demo.tenRows))) = true
  /\ length (Papa.data (Demo.plainTokenizer (Demo.decode Demo.tenRows))) = 10
  /\ map amountUnparsable
       (Papa.data (Demo.plainTokenizer (Demo.decode Demo.tenRows)))
     = [false; false; false; true; false; false; false; false; true; false]
  /\ snd (fst (upload Demo.env 100 (Demo.post "maart.csv" Demo.tenRows)
                 Demo.emptyDb))
     = RespSuccess {| totalRecords := 8; imported := 8;
                      skipped := 0; errors := 0 |} []
  /\ forall summary errs,
      snd (fst (upload Demo.env 100 (Demo.post "maart.csv" Demo.tenRows)
                  Demo.emptyDb))
      = RespSuccess summary errs ->
      errors summary <> 2 /\ errs = [].
Proof.
  split; [vm_compute; reflexivity|]. split; [vm_compute; reflexivity|].
  split; [vm_compute; reflexivity|].
  assert (H : snd (fst (upload Demo.env 100 (Demo.post "maart.csv" Demo.tenRows)
                          Demo.emptyDb))
              = RespSuccess {| totalRecords := 8; imported := 8;
                               skipped := 0; errors := 0 |} [])
    by (vm_compute; reflexivity).
  split; [exact H|]. intros summary errs H'. rewrite H in H'.
  injection H' as <- <-. split; [discriminate|reflexivity].
Qed.

(** ** Duplicate keys *)

Section DuplicateKeys.

Variable E : Env.

(** A row whose counterpart account or reference is NULL collides with no
    row. *)
Lemma null_key_never_collides (a b : Transaction) :
  counterpartAccount a = None \/ referenceNumber a = None ->
  unique_transaction E a b = false /\ unique_transaction E b a = false.
Proof.
  unfold unique_transaction, sql_eq_nullable. intros [H|H]; rewrite H.
  - split.
    + now rewrite andb_false_r.
    + destruct (counterpartAccount b); now rewrite andb_false_r.
  - split.
    + now rewrite andb_false_r.
    + destruct (referenceNumber b); now rewrite andb_false_r.
Qed.

(** Whether two rows collide depends on the five key columns only. *)
Lemma unique_transaction_key (a a' b : Transaction) :
  keyTuple a = keyTuple a' ->
  unique_transaction E a b = unique_transaction E a' b.
Proof.
  unfold keyTuple, unique_transaction. intros [= -> -> -> -> ->]. reflexivity.
Qed.

(** A row whose key columns all hold a value collides with itself. *)
Lemma same_key_collides (a : Transaction) :
  counterpartAccount a <> None -> referenceNumber a <> None ->
  unique_transaction E a a = true.
Proof.
  unfold unique_transaction, sql_eq_nullable. intros Hc Hr.
  destruct (counterpartAccount a); [|contradiction].
  destruct (referenceNumber a); [|contradiction].
  rewrite !str_eqb_refl. cbn [andb]. rewrite !andb_true_r.
  apply Qeq_bool_iff. reflexivity.
Qed.

Lemma insert_collides (t : Transaction) (h : jsstring) (db : Database) :
  column_error E t = None ->
  (exists s, In s (transactions db) /\ unique_transaction E t (stored s) = true) ->
  insertTransaction E t h db = (db, Some (ER_DUP_ENTRY)).
Proof.
  intros Hc Hex. unfold insertTransaction. rewrite Hc.
  replace (existsb _ (transactions db)) with true; [reflexivity|].
  symmetry. now apply existsb_exists.
Qed.

(** A duplicate-key conflict counts as skipped, leaves the error list as it
    is, and the loop goes on with the next transaction. *)
Lemma dup_entry_is_skipped (h : jsstring) (i : nat) (t : Transaction)
    (rest : list Transaction) (db : Database) (c : Counters)
    (trace : list Effect) :
  column_error E t = None ->
  (exists s, In s (transactions db) /\ unique_transaction E t (stored s) = true) ->
  importRows E h i (t :: rest) db c trace
  = importRows E h (S i) rest db
      {| importedCount := importedCount c;
         skippedCount := S (skippedCount c);
         errorCount := errorCount c;
         errorList := errorList c |}
      (trace ++ [InsertCall t]).
Proof.
  intros Hc Hex. cbn [importRows]. now rewrite (insert_collides t h db Hc Hex).
Qed.

Lemma importRows_all_skipped (h : jsstring) (txs : list Transaction) :
  forall i db c trace,
    (forall t, In t txs ->
       column_error E t = None
       /\ exists s, In s (transactions db)
                    /\ unique_transaction E t (stored s) = true) ->
    importRows E h i txs db c trace
    = (db,
       {| importedCount := importedCount c;
          skippedCount := skippedCount c + length txs;
          errorCount := errorCount c;
          errorList := errorList c |},
       trace ++ map InsertCall txs).
Proof.
  induction txs as [|t rest IH]; intros i db c trace H.
  - cbn. rewrite app_nil_r, Nat.add_0_r. now destruct c.
  - destruct (H t (or_introl eq_refl)) as [Hc Hex].
    rewrite (dup_entry_is_skipped h i t rest db c trace Hc Hex), IH.
    + cbn [importedCount skippedCount errorCount errorList length map].
      rewrite <- app_assoc. cbn [app].
      replace (S (skippedCount c) + length rest)
        with (skippedCount c + S (length rest)) by lia.
      reflexivity.
    + intros x Hx. apply H. now right.
Qed.

(** The loop only adds rows to the table. *)
Lemma importRows_keeps (h : jsstring) (txs : list Transaction) :
  forall i db c trace s,
    In s (transactions db) ->
    In s (transactions (fst (fst (importRows E h i txs db c trace)))).
Proof.
  induction txs as [|t rest IH]; intros i db c trace s Hs; [exact Hs|].
  rewrite importRows_cons.
  pose proof (importRows_step E h i t db c trace) as (_ & _ & Hdb).
  destruct (importRows E h i [t] db c trace) as [[db1 c1] trace1].
  cbn [fst] in Hdb. apply IH. rewrite Hdb.
  unfold insertTransaction. destruct (column_error E t); [exact Hs|].
  destruct (existsb _ (transactions db)); [exact Hs|].
  cbn [fst transactions]. apply in_or_app. now left.
Qed.

(** After the loop, every transaction the server raised no column error for
    and whose key columns all hold a value collides with a stored row. *)
Lemma importRows_stores (h : jsstring) (txs : list Transaction) :
  forall i db c trace t,
    In t txs ->
    column_error E t = None ->
    counterpartAccount t <> None -> referenceNumber t <> None ->
    exists s,
      In s (transactions (fst (fst (importRows E h i txs db c trace))))
      /\ unique_transaction E t (stored s) = true.
Proof.
  induction txs as [|x rest IH]; intros i db c trace t Hin Hc Hcp Href;
    [contradiction|].
  rewrite importRows_cons.
  pose proof (importRows_step E h i x db c trace) as (_ & _ & Hdb).
  destruct (importRows E h i [x] db c trace) as [[db1 c1] trace1].
  cbn [fst] in Hdb. destruct Hin as [->|Hin]; [|now apply IH].
  assert (Hex : exists s, In s (transactions db1)
                          /\ unique_transaction E t (stored s) = true).
  { rewrite Hdb. unfold insertTransaction. rewrite Hc.
    destruct (existsb _ (transactions db)) eqn:Hdup.
    - apply existsb_exists in Hdup as (s & Hs & Hu). now exists s.
    - exists {| stored := t; stored_file_hash := h |}. cbn [fst transactions stored].
      split; [apply in_or_app; right; now left|].
      now apply same_key_collides. }
  destruct Hex as (s & Hs & Hu). exists s. split; [|exact Hu].
  now apply importRows_keeps.
Qed.

(** Re-import: transactions that agree, one by one, on the five key columns
    with those of an earlier run of the loop are all skipped, provided the
    key columns all hold a value and the server raises no column error. *)
Lemma reimport_all_skipped (h1 h2 : jsstring) (txs1 txs2 : list Transaction)
    (db : Database) (c1 : Counters) (trace1 trace2 : list Effect) :
  map keyTuple txs2 = map keyTuple txs1 ->
  (forall t, In t txs1 -> column_error E t = None) ->
  (forall t, In t txs2 ->
     column_error E t = None
     /\ counterpartAccount t <> None /\ referenceNumber t <> None) ->
  importRows E h2 0 txs2 (fst (fst (importRows E h1 0 txs1 db c1 trace1)))
    noCounts trace2
  = (fst (fst (importRows E h1 0 txs1 db c1 trace1)),
     {| importedCount := 0; skippedCount := length txs2;
        errorCount := 0; errorList := [] |},
     trace2 ++ map InsertCall txs2).
Proof.
  intros Hkeys H1 H2. rewrite importRows_all_skipped; [reflexivity|].
  intros t2 Ht2. destruct (H2 t2 Ht2) as (Hc2 & Hcp & Href). split; [exact Hc2|].
  assert (Hk : In (keyTuple t2) (map keyTuple txs1))
    by (rewrite <- Hkeys; now apply in_map).
  apply in_map_iff in Hk as (t1 & Hk & Ht1).
  assert (Hcp1 : counterpartAccount t1 <> None)
    by (unfold keyTuple in Hk; injection Hk as _ _ _ -> _; exact Hcp).
  assert (Href1 : referenceNumber t1 <> None)
    by (unfold keyTuple in Hk; injection Hk as _ _ _ _ ->; exact Href).
  destruct (importRows_stores h1 txs1 0 db c1 trace1 t1 Ht1 (H1 t1 Ht1) Hcp1 Href1)
    as (s & Hs & Hu).
  exists s. split; [exact Hs|].
  now rewrite <- (unique_transaction_key t1 t2 (stored s) Hk).
Qed.

End DuplicateKeys.

(** The re-import of five transfers, all key columns filled, from a file with
    other bytes: nothing is imported, all five are skipped. *)
Example reimport_transfers_skipped :
  map keyTuple (parsed Demo.env (Demo.transfers "APRIL"))
  = map keyTuple (parsed Demo.env (Demo.transfers "MAART"))
  /\ snd (fst (upload Demo.env 200
                 (Demo.post "april.csv" (Demo.transfers "APRIL"))
                 (fst (fst (upload Demo.env 100
                              (Demo.post "maart.csv" (Demo.transfers "MAART"))
                              Demo.emptyDb)))))
     = RespSuccess {| totalRecords := 5; imported := 0;
                      skipped := 5; errors := 0 |} [].
Proof.
  split; vm_compute; reflexivity.
Qed.

(** C3: a duplicate-key conflict is counted as skipped and the loop goes on,
    and rows whose five key columns all hold a value are all skipped when
    they are imported again.  The unique key however rejects no row whose
    counterpart account is NULL, which is what the row mapper makes of an
    empty counterpart field: five card payments that were imported
    successfully and come again, identical on the five key columns, in a
    file with other bytes, are inserted a second time, imported=5 and
    skipped=0, and the table holds each of them twice. *)
Theorem reimport_without_counterpart_not_skipped :
  map keyTuple (parsed Demo.env (Demo.cardPayments "APRIL"))
  = map keyTuple (parsed Demo.env (Demo.cardPayments "MAART"))
  /\ length (parsed Demo.env (Demo.cardPayments "MAART")) = 5
  /\ map counterpartAccount (parsed Demo.env (Demo.cardPayments "MAART"))
     = [None; None; None; None; None]
  /\ snd (fst (upload Demo.env 100
                 (Demo.post "maart.csv" (Demo.cardPayments "MAART"))
                 Demo.emptyDb))
     = RespSuccess {| totalRecords := 5; imported := 5;
                      skipped := 0; errors := 0 |} []
  /\ snd (fst (upload Demo.env 200
                 (Demo.post "april.csv" (Demo.cardPayments "APRIL"))
                 (fst (fst (upload Demo.env 100
                              (Demo.post "maart.csv" (Demo.cardPayments "MAART"))
                              Demo.emptyDb)))))
     = RespSuccess {| totalRecords := 5; imported := 5;
                      skipped := 0; errors := 0 |} []
  /\ length (transactions
               (fst (fst (upload Demo.env 200
                            (Demo.post "april.csv" (Demo.cardPayments "APRIL"))
                            (fst (fst (upload Demo.env 100
                                         (Demo.post "maart.csv"
                                            (Demo.cardPayments "MAART"))
                                         Demo.emptyDb)))))))
     = 10.
Proof.
  repeat split; vm_compute; reflexivity.
Qed.

(** For any tokenizer, digest and server: transactions without counterpart
    account that the server raises no column error for are all inserted,
    whatever the table already holds. *)
Lemma null_counterpart_always_inserted (E : Env) (h : jsstring)
    (txs : list Transaction) (i : nat) (db : Database) (c : Counters)
    (trace : list Effect) :
  (forall t, In t txs -> column_error E t = None /\ counterpartAccount t = None) ->
  importRows E h i txs db c trace
  = ({| import_logs := import_logs db;
        transactions := transactions db ++ storedAs h txs |},
     {| importedCount := importedCount c + length txs;
        skippedCount := skippedCount c;
        errorCount := errorCount c;
        errorList := errorList c |},
     trace ++ map InsertCall txs).
Proof.
  intros H. apply importRows_all_inserted. split; [|split].
  - intros t Ht. now apply H.
  - intros t s Ht _.
    apply (null_key_never_collides E t (stored s)). left. now apply H.
  - clear i db c trace. induction txs as [|a rest IH]; constructor.
    + apply Forall_forall. intros b Hb.
      apply (null_key_never_collides E b a). left. apply H. now right.
    + apply IH. intros t Ht. apply H. now right.
Qed.

(** A file with two summary lines and no row whose account cell starts with
    BE: the parse fails and nothing is stored. *)
Example no_account_rows_fail :
  exists db' trace,
    upload Demo.env 100 (Demo.post "saldo.csv" Demo.noAccountRows) Demo.emptyDb
    = (db', RespError 400 noTransactions, trace)
    /\ transactions db' = []
    /\ map import_status (import_logs db') = [failed].
Proof.
  eexists. eexists. split; [vm_compute; reflexivity|].
  split; reflexivity.
Qed.

(** * Further properties of the code *)

(** ** Amounts: what the cleaning makes irrelevant *)

(** [parseAmount] on any text, blank or not, in terms of the cleaned text. *)
Lemma parseAmount_by_cleaned (s : jsstring) :
  parseAmount s
  = match parseFloat (replaceFirst (ch ",") (ch ".") (filter amountChar s)) with
    | NaN => None
    | n => Some n
    end.
Proof.
  unfold parseAmount.
  destruct (isEmpty s || isEmpty (trim s)) eqn:Hb; [|reflexivity].
  apply orb_true_iff in Hb as [Hb|Hb].
  - destruct s; [reflexivity|discriminate].
  - now rewrite (blank_cleans_to_nil s Hb).
Qed.

Lemma literal_integer (neg : bool) (a : jsstring) :
  a <> [] -> forallb isDigit a = true ->
  strUnsignedDecimalLiteral neg a = Finite (decimal neg (digitsPrefix 10 a) 0).
Proof.
  intros Hne Ha. unfold strUnsignedDecimalLiteral.
  assert (Hinf : startsWith (js "Infinity") a = false).
  { destruct a as [|d a]; [contradiction|]. simpl in Ha.
    apply andb_true_iff in Ha as [Hd _]. unfold isDigit in Hd. bool_arith.
    change (js "Infinity") with (73%N :: js "nfinity").
    apply startsWith_head. lia. }
  rewrite Hinf, (digitsPrefix_length _ Ha), skipn_all.
  cbn [fractionPart]. rewrite app_nil_r.
  destruct (digitsPrefix 10 a) as [|x xs] eqn:Hda.
  - apply (f_equal (@length N)) in Hda. rewrite (digitsPrefix_length _ Ha) in Hda.
    destruct a; [contradiction|discriminate].
  - reflexivity.
Qed.

Lemma parseFloat_integer (neg : bool) (a : jsstring) :
  a <> [] -> forallb isDigit a = true ->
  parseFloat (signText neg ++ a) = Finite (decimal neg (digitsPrefix 10 a) 0).
Proof.
  intros Hne Ha. rewrite <- (literal_integer neg a Hne Ha).
  unfold parseFloat, trimStart.
  destruct neg; simpl signText.
  - reflexivity.
  - destruct a as [|d a]; [contradiction|].
    simpl in Ha. apply andb_true_iff in Ha as [Hd _].
    assert (Hsp : isSpace d = false).
    { destruct (isSpace d) eqn:Hs; [|reflexivity].
      apply space_not_amountChar in Hs. unfold amountChar in Hs.
      rewrite Hd in Hs. discriminate. }
    simpl. rewrite Hsp. unfold signOf.
    unfold isDigit in Hd. bool_arith.
    replace (d =? ch "-")%N with false by (symmetry; apply N.eqb_neq; change (ch "-") with 45%N; lia).
    replace (d =? ch "+")%N with false by (symmetry; apply N.eqb_neq; change (ch "+") with 43%N; lia).
    reflexivity.
Qed.

Lemma sign_digits_no_comma (neg : bool) (a : jsstring) :
  forallb isDigit a = true ->
  forallb (fun c => negb (c =? ch ",")%N) (signText neg ++ a) = true.
Proof.
  intros Ha. rewrite forallb_app, (digits_no_comma _ Ha). now destruct neg.
Qed.

(** X1: the amount read from a text depends only on its digits, commas,
    periods and minus signs, whatever else surrounds or separates them
    (currency symbols, letters, spaces).  When what is left is a sign, digits
    and a decimal comma with digits, the amount is that decimal number; when
    it is a sign and digits, it is that integer. *)
Theorem parseAmount_ignores_decoration :
  (forall s s' : jsstring,
      filter amountChar s = filter amountChar s' -> parseAmount s = parseAmount s')
  /\ (forall (s : jsstring) (neg : bool) (a b : jsstring),
         a <> [] -> forallb isDigit a = true -> forallb isDigit b = true ->
         filter amountChar s = signText neg ++ a ++ ch "," :: b ->
         parseAmount s
         = Some (Finite (decimal neg (digitsPrefix 10 a ++ digitsPrefix 10 b)
                           (- Z.of_nat (length b)))))
  /\ (forall (s : jsstring) (neg : bool) (a : jsstring),
         a <> [] -> forallb isDigit a = true ->
         filter amountChar s = signText neg ++ a ->
         parseAmount s = Some (Finite (decimal neg (digitsPrefix 10 a) 0))).
Proof.
  split; [|split].
  - intros s s' H. now rewrite !parseAmount_by_cleaned, H.
  - intros s neg a b Hne Ha Hb Hs.
    rewrite parseAmount_by_cleaned, Hs, app_assoc.
    rewrite replaceFirst_at by (now apply sign_digits_no_comma).
    rewrite <- app_assoc, <- (app_nil_r b) at 1.
    now rewrite (parseFloat_point neg a b [] Hne Ha Hb eq_refl eq_refl).
  - intros s neg a Hne Ha Hs.
    rewrite parseAmount_by_cleaned, Hs.
    rewrite replaceFirst_absent by (now apply sign_digits_no_comma).
    now rewrite (parseFloat_integer neg a Hne Ha).
Qed.

Lemma parseAmount_ignores_decoration_witness :
  parseAmount (js "EUR 1 234,56 (betaald)") = Some (num 1234.56%Q)
  /\ parseAmount (js "- 50 EUR") = Some (num (-50)%Q).
Proof.
  destruct parseAmount_ignores_decoration as (_ & Hc & Hi).
  split.
  - apply (Hc (js "EUR 1 234,56 (betaald)") false (js "1234") (js "56"));
      [discriminate|reflexivity|reflexivity|reflexivity].
  - apply (Hi (js "- 50 EUR") true (js "50"));
      [discriminate|reflexivity|reflexivity].
Defined.

(** ** Prefixes, suffixes and trimming *)

Lemma takeWhile_dropWhile (p : N -> bool) (s : jsstring) :
  takeWhile p s ++ dropWhile p s = s.
Proof.
  induction s as [|c s IH]; simpl; [reflexivity|].
  destruct (p c); simpl; [now rewrite IH|reflexivity].
Qed.

Lemma takeWhile_all (p : N -> bool) (s : jsstring) :
  forallb p (takeWhile p s) = true.
Proof.
  induction s as [|c s IH]; simpl; [reflexivity|].
  destruct (p c) eqn:Hc; simpl; [now rewrite Hc|reflexivity].
Qed.

Lemma takeWhile_run (p : N -> bool) (a rest : jsstring) :
  forallb p a = true -> endsRun p rest -> takeWhile p (a ++ rest) = a.
Proof.
  intros Ha Hr. induction a as [|c a IH]; simpl.
  - destruct rest as [|c r]; [reflexivity|]. simpl in Hr. simpl. now rewrite Hr.
  - simpl in Ha. apply andb_true_iff in Ha as [Hc Ha]. now rewrite Hc, IH.
Qed.

Lemma dropWhile_run (p : N -> bool) (a rest : jsstring) :
  forallb p a = true -> endsRun p rest -> dropWhile p (a ++ rest) = rest.
Proof.
  intros Ha Hr. induction a as [|c a IH]; simpl.
  - destruct rest as [|c r]; [reflexivity|]. simpl in Hr. simpl. now rewrite Hr.
  - simpl in Ha. apply andb_true_iff in Ha as [Hc Ha]. now rewrite Hc, IH.
Qed.

Lemma startsWith_app (a b : jsstring) : startsWith a (a ++ b) = true.
Proof.
  induction a as [|c a IH]; [reflexivity|].
  cbn [startsWith app]. now rewrite N.eqb_refl, IH.
Qed.

(** Dropping from the front stops at the first character that fails the
    test, so what stands from there on is kept. *)
Lemma dropWhile_keeps (p : N -> bool) (a b : jsstring) (c : N) :
  p c = false -> exists a', dropWhile p (a ++ c :: b) = a' ++ c :: b.
Proof.
  intros Hc. induction a as [|x a IH]; simpl.
  - rewrite Hc. now exists [].
  - destruct (p x); [exact IH|]. now exists (x :: a).
Qed.

Lemma trimEnd_keeps (pre post : jsstring) (c : N) :
  isSpace c = false -> exists a, trimEnd (pre ++ c :: post) = pre ++ c :: a.
Proof.
  intros Hc. unfold trimEnd. rewrite rev_app_distr. cbn [rev].
  rewrite <- app_assoc. cbn [app].
  destruct (dropWhile_keeps isSpace (rev post) (rev pre) c Hc) as [a' ->].
  exists (rev a'). rewrite rev_app_distr. cbn [rev].
  now rewrite rev_involutive, <- app_assoc.
Qed.

(** A text that starts with a character that is not white space keeps it,
    and all that precedes the last such character, when trimmed. *)
Lemma trim_keeps (c : N) (pre post : jsstring) (d : N) :
  isSpace c = false -> isSpace d = false ->
  exists a, trim (c :: pre ++ d :: post) = c :: pre ++ d :: a.
Proof.
  intros Hc Hd. unfold trim, trimStart. cbn [dropWhile]. rewrite Hc.
  exact (trimEnd_keeps (c :: pre) post d Hd).
Qed.

Lemma trim_head (c : N) (r : jsstring) :
  isSpace c = false -> exists a, trim (c :: r) = c :: a.
Proof.
  intros Hc. unfold trim, trimStart. cbn [dropWhile]. rewrite Hc.
  exact (trimEnd_keeps [] r c Hc).
Qed.

Lemma trimEnd_no_space (s : jsstring) :
  forallb (fun c => negb (isSpace c)) s = true -> trimEnd s = s.
Proof.
  intros H. unfold trimEnd.
  destruct (rev s) as [|c r] eqn:Hr.
  - rewrite <- (rev_involutive s), Hr. reflexivity.
  - assert (Hc : isSpace c = false).
    { apply negb_true_iff.
      assert (Hin : In c s) by (apply in_rev; rewrite Hr; now left).
      rewrite forallb_forall in H. exact (H c Hin). }
    cbn [dropWhile]. rewrite Hc, <- Hr. apply rev_involutive.
Qed.

Lemma trim_no_space (s : jsstring) :
  forallb (fun c => negb (isSpace c)) s = true -> trim s = s.
Proof.
  intros H. unfold trim, trimStart.
  destruct s as [|c r]; [reflexivity|].
  pose proof H as H'. cbn [forallb] in H'. apply andb_true_iff in H' as [Hc _].
  apply negb_true_iff in Hc. cbn [dropWhile]. rewrite Hc.
  now apply trimEnd_no_space.
Qed.

Lemma digit_not_space (c : N) : isDigit c = true -> isSpace c = false.
Proof.
  intros Hd. destruct (isSpace c) eqn:Hs; [|reflexivity].
  apply space_not_amountChar in Hs. unfold amountChar in Hs.
  rewrite Hd in Hs. discriminate.
Qed.

Lemma digits_no_space (s : jsstring) :
  forallb isDigit s = true -> forallb (fun c => negb (isSpace c)) s = true.
Proof.
  induction s as [|c s IH]; simpl; [reflexivity|].
  rewrite !andb_true_iff. intros [Hc Hs]. split; [|auto].
  now rewrite (digit_not_space _ Hc).
Qed.

(** The last character of a trimmed text is not white space. *)
Lemma trim_last (s pre : jsstring) (c : N) :
  trim s = pre ++ [c] -> isSpace c = false.
Proof.
  unfold trim, trimEnd. intros H.
  apply (f_equal (@rev N)) in H. rewrite rev_involutive, rev_app_distr in H.
  cbn [rev app] in H. exact (dropWhile_head _ _ _ _ H).
Qed.

Lemma trim_first (s r : jsstring) (c : N) :
  trim s = c :: r -> isSpace c = false.
Proof.
  unfold trim, trimStart. intros H.
  destruct (dropWhile isSpace s) as [|x t] eqn:Hd; [discriminate|].
  pose proof (dropWhile_head _ _ _ _ Hd) as Hx.
  destruct (trimEnd_keeps [] t x Hx) as [a Ha]. cbn [app] in Ha.
  rewrite Ha in H. now injection H as <- _.
Qed.

(** ** Postal code and city *)

Lemma space_not_digit (c : N) : isSpace c = true -> isDigit c = false.
Proof.
  intros Hs. destruct (isDigit c) eqn:Hd; [|reflexivity].
  apply digit_not_space in Hd. congruence.
Qed.

Lemma not_space_not_terminator (c : N) :
  isSpace c = false -> isLineTerminator c = false.
Proof.
  unfold isSpace. intros H. now apply orb_false_iff in H.
Qed.

(** What a match of the postal-code pattern gives: the first group is the
    leading run of digits; the second starts with a character that is not
    white space, unless the text ends in white space. *)
Lemma matchPostalCodeCity_inv (s g1 g2 : jsstring) :
  matchPostalCodeCity s = Some (g1, g2) ->
  g1 = takeWhile isDigit s /\ g1 <> []
  /\ ((exists c r, g2 = c :: r /\ isSpace c = false)
      \/ (exists pre l, s = pre ++ [l] /\ isSpace l = true)).
Proof.
  unfold matchPostalCodeCity.
  pose proof (takeWhile_dropWhile isDigit s) as Hs.
  pose proof (takeWhile_dropWhile isSpace (dropWhile isDigit s)) as Hr.
  pose proof (takeWhile_all isSpace (dropWhile isDigit s)) as Hw.
  destruct (takeWhile isDigit s) as [|d ds]; [discriminate|].
  destruct (takeWhile isSpace (dropWhile isDigit s)) as [|x w]; [discriminate|].
  destruct (dropWhile isSpace (dropWhile isDigit s)) as [|c r] eqn:Hr2.
  - destruct (rev (x :: w)) as [|l [|l' t]] eqn:Hrev; try discriminate.
    destruct (isLineTerminator l); [discriminate|].
    intros [= <- <-]. split; [reflexivity|]. split; [discriminate|]. right.
    assert (Hxw : x :: w = rev (l' :: t) ++ [l]).
    { rewrite <- (rev_involutive (x :: w)), Hrev. reflexivity. }
    exists ((d :: ds) ++ rev (l' :: t)), l. split.
    + rewrite <- Hs, <- Hr, app_nil_r, Hxw. now rewrite app_assoc.
    + rewrite Hxw, forallb_app in Hw. apply andb_true_iff in Hw as [_ Hl].
      cbn [forallb] in Hl. now rewrite andb_true_r in Hl.
  - destruct (forallb _ (c :: r)); [|discriminate].
    intros [= <- <-]. split; [reflexivity|]. split; [discriminate|]. left.
    exists c, r. split; [reflexivity|]. exact (dropWhile_head _ _ _ _ Hr2).
Qed.

(** X2: a text made of digits, white space and a rest that starts with a
    character that is not white space and holds no line break is split into
    the digits as postal code and the trimmed rest as city. *)
Theorem parsePostalCodeCity_splits (d w : jsstring) (x : N) (city : jsstring) :
  d <> [] -> forallb isDigit d = true ->
  w <> [] -> forallb isSpace w = true ->
  isSpace x = false ->
  forallb (fun c => negb (isLineTerminator c)) city = true ->
  parsePostalCodeCity (Some (d ++ w ++ x :: city))
  = (Some d, Some (trim (x :: city))).
Proof.
  intros Hd Hdd Hw Hww Hx Hcity. unfold parsePostalCodeCity.
  assert (Hend1 : endsRun isDigit (w ++ x :: city)).
  { destruct w as [|c w]; [contradiction|]. cbn [app endsRun].
    cbn [forallb] in Hww. apply andb_true_iff in Hww as [Hc _].
    now apply space_not_digit. }
  assert (Hend2 : endsRun isSpace (x :: city)) by exact Hx.
  assert (Hblank : isEmpty (d ++ w ++ x :: city)
                   || isEmpty (trim (d ++ w ++ x :: city)) = false).
  { destruct d as [|c d]; [contradiction|]. cbn [app isEmpty orb].
    cbn [forallb] in Hdd. apply andb_true_iff in Hdd as [Hc _].
    destruct (trim_head c (d ++ w ++ x :: city) (digit_not_space _ Hc)) as [a ->].
    reflexivity. }
  rewrite Hblank. unfold matchPostalCodeCity.
  rewrite (takeWhile_run isDigit d _ Hdd Hend1).
  rewrite (dropWhile_run isDigit d _ Hdd Hend1).
  rewrite (takeWhile_run isSpace w _ Hww Hend2).
  rewrite (dropWhile_run isSpace w _ Hww Hend2).
  destruct d as [|c d]; [contradiction|]. destruct w as [|y w]; [contradiction|].
  cbn [forallb]. rewrite (not_space_not_terminator _ Hx), Hcity. cbn [negb andb].
  now rewrite (trim_no_space _ (digits_no_space _ Hdd)).
Qed.

Lemma parsePostalCodeCity_splits_witness :
  parsePostalCodeCity (Some (js "2600  BERCHEM (ANTWERPEN) "))
  = (Some (js "2600"), Some (trim (js "BERCHEM (ANTWERPEN) "))).
Proof.
  apply (parsePostalCodeCity_splits (js "2600") (js "  ") (ch "B")
           (js "ERCHEM (ANTWERPEN) "));
    solve [discriminate | reflexivity].
Defined.

(** X3: the pair is (null, null) exactly for a missing or blank text; a
    postal code, when one is returned, is a non-empty run of digits that the
    text starts with; and a text that is not blank and yields no postal code
    is returned whole, trimmed, as the city. *)
Theorem parsePostalCodeCity_result (v : option jsstring) :
  (parsePostalCodeCity v = (None, None)
   <-> match v with None => True | Some s => trim s = [] end)
  /\ (forall p, fst (parsePostalCodeCity v) = Some p ->
        p <> [] /\ forallb isDigit p = true
        /\ exists s, v = Some s /\ startsWith p s = true)
  /\ (forall s, v = Some s -> trim s <> [] ->
        fst (parsePostalCodeCity v) = None ->
        snd (parsePostalCodeCity v) = Some (trim s)).
Proof.
  destruct v as [s|]; cbn [parsePostalCodeCity].
  2:{ split; [tauto|]. split; [discriminate|]. intros s H. discriminate. }
  destruct (isEmpty s || isEmpty (trim s)) eqn:Hb.
  - assert (Ht : trim s = []).
    { apply orb_true_iff in Hb as [Hb|Hb].
      - destruct s; [reflexivity|discriminate].
      - destruct (trim s); [reflexivity|discriminate]. }
    split; [tauto|]. split; [discriminate|]. intros s' [= <-] Hne. contradiction.
  - apply orb_false_iff in Hb as [_ Hb].
    assert (Ht : trim s <> []) by (intros H; rewrite H in Hb; discriminate).
    destruct (matchPostalCodeCity s) as [[g1 g2]|] eqn:Hm.
    + apply matchPostalCodeCity_inv in Hm as (Hg1 & Hne & _).
      assert (Hdig : forallb isDigit g1 = true)
        by (rewrite Hg1; apply takeWhile_all).
      rewrite (trim_no_space _ (digits_no_space _ Hdig)).
      split; [split; [discriminate|tauto]|].
      split; [|discriminate].
      cbn [fst]. intros p [= <-]. split; [exact Hne|]. split; [exact Hdig|].
      exists s. split; [reflexivity|].
      rewrite Hg1. rewrite <- (takeWhile_dropWhile isDigit s) at 2.
      apply startsWith_app.
    + split; [split; [discriminate|tauto]|].
      split; [discriminate|]. now intros s' [= <-] _ _.
Qed.

Lemma parsePostalCodeCity_result_witness :
  (js "1000" <> [] /\ forallb isDigit (js "1000") = true
   /\ exists s, Some (js "1000 BRUSSEL") = Some s /\ startsWith (js "1000") s = true)
  /\ snd (parsePostalCodeCity (Some (js " Antwerpen "))) = Some (js "Antwerpen").
Proof.
  split.
  - destruct (parsePostalCodeCity_result (Some (js "1000 BRUSSEL"))) as (_ & H & _).
    apply H. reflexivity.
  - destruct (parsePostalCodeCity_result (Some (js " Antwerpen "))) as (_ & _ & H).
    apply (H (js " Antwerpen ")); [reflexivity|discriminate|reflexivity].
Defined.

(** ** References *)

Lemma search_found (A : Type) (m : jsstring -> option A) (s : jsstring) (x : A) :
  search m s = Some x -> exists before rest, s = before ++ rest /\ m rest = Some x.
Proof.
  induction s as [|c s IH]; cbn [search].
  - destruct (m []) eqn:Hm; [|discriminate].
    intros [= <-]. now exists [], [].
  - destruct (m (c :: s)) eqn:Hm.
    + intros [= <-]. now exists [], (c :: s).
    + intros H. destruct (IH H) as (before & rest & -> & Hr).
      now exists (c :: before), rest.
Qed.

Lemma substring_suffix (a before rest : jsstring) :
  substring a rest -> substring a (before ++ rest).
Proof.
  intros (b & c & ->). exists (before ++ b), c. now rewrite <- app_assoc.
Qed.

Lemma substring_dropWhile (p : N -> bool) (a s : jsstring) :
  substring a (dropWhile p s) -> substring a s.
Proof.
  intros H. rewrite <- (takeWhile_dropWhile p s). now apply substring_suffix.
Qed.

Lemma substring_skipn (n : nat) (a s : jsstring) :
  substring a (skipn n s) -> substring a s.
Proof.
  intros H. rewrite <- (firstn_skipn n s). now apply substring_suffix.
Qed.

Lemma substring_takeWhile (p : N -> bool) (s : jsstring) :
  substring (takeWhile p s) s.
Proof.
  exists [], (dropWhile p s). cbn [app]. symmetry. apply takeWhile_dropWhile.
Qed.

Lemma matchRef_inv (s tok : jsstring) :
  matchRef s = Some tok ->
  tok <> [] /\ forallb (fun c => negb (isSpace c)) tok = true /\ substring tok s.
Proof.
  unfold matchRef. destruct (startsWith (js "REF.") s); [|discriminate].
  destruct (dropWhile isSpace (skipn 4 s)) as [|c r] eqn:Hd; [discriminate|].
  destruct (c =? ch ":")%N; [|discriminate].
  pose proof (takeWhile_all (fun x => negb (isSpace x)) (dropWhile isSpace r)) as Hall.
  pose proof (substring_takeWhile (fun x => negb (isSpace x)) (dropWhile isSpace r)) as Hsub.
  destruct (takeWhile _ (dropWhile isSpace r)) as [|x t]; [discriminate|].
  intros [= <-]. split; [discriminate|]. split; [exact Hall|].
  apply (substring_skipn 4), (substring_dropWhile isSpace). rewrite Hd.
  apply (substring_suffix _ [c]), (substring_dropWhile isSpace). exact Hsub.
Qed.

Lemma lowerHex_not_space (c : N) : isLowerHex c = true -> negb (isSpace c) = true.
Proof.
  intros H. apply negb_true_iff. destruct (isSpace c) eqn:Hs; [|reflexivity].
  unfold isLowerHex in H. unfold isSpace, isWhiteSpace, isLineTerminator in Hs.
  bool_arith; lia.
Qed.

Lemma matchPayconiq_inv (s tok : jsstring) :
  matchPayconiq s = Some tok ->
  tok <> [] /\ forallb isLowerHex tok = true /\ substring tok s.
Proof.
  unfold matchPayconiq. destruct (startsWith (js "Payconiq") s); [|discriminate].
  destruct (takeWhile isSpace (skipn 8 s)); [discriminate|].
  pose proof (takeWhile_all isLowerHex (dropWhile isSpace (skipn 8 s))) as Hall.
  pose proof (substring_takeWhile isLowerHex (dropWhile isSpace (skipn 8 s))) as Hsub.
  destruct (takeWhile isLowerHex _) as [|x t]; [discriminate|].
  intros [= <-]. split; [discriminate|]. split; [exact Hall|].
  apply (substring_skipn 8), (substring_dropWhile isSpace). exact Hsub.
Qed.

(** X4: a reference, when one is extracted, is a non-empty run of
    consecutive characters of the description without any white space;
    nothing is extracted from a missing or empty description. *)
Theorem extractReference_token (description : option jsstring) (r : jsstring) :
  extractReference description = Some r ->
  r <> [] /\ forallb (fun c => negb (isSpace c)) r = true
  /\ exists d, description = Some d /\ d <> [] /\ substring r d.
Proof.
  destruct description as [[|c d]|]; cbn [extractReference]; try discriminate.
  destruct (search matchRef (c :: d)) as [tok|] eqn:Href.
  - intros [= <-]. apply search_found in Href as (before & rest & Hs & Hm).
    apply matchRef_inv in Hm as (Hne & Hsp & Hsub).
    split; [exact Hne|]. split; [exact Hsp|].
    exists (c :: d). split; [reflexivity|]. split; [discriminate|].
    rewrite Hs. now apply substring_suffix.
  - intros Hpay. apply search_found in Hpay as (before & rest & Hs & Hm).
    apply matchPayconiq_inv in Hm as (Hne & Hhex & Hsub).
    split; [exact Hne|]. split.
    + apply forallb_forall. intros x Hx. apply lowerHex_not_space.
      rewrite forallb_forall in Hhex. now apply Hhex.
    + exists (c :: d). split; [reflexivity|]. split; [discriminate|].
      rewrite Hs. now apply substring_suffix.
Qed.

Lemma extractReference_token_witness :
  js "a1b2c3" <> [] /\ forallb (fun c => negb (isSpace c)) (js "a1b2c3") = true
  /\ exists d, Some (js "Betaling via Payconiq a1b2c3 Bakker") = Some d
               /\ d <> [] /\ substring (js "a1b2c3") d.
Proof.
  apply (extractReference_token (Some (js "Betaling via Payconiq a1b2c3 Bakker"))).
  reflexivity.
Defined.

Lemma search_skip (A : Type) (m : jsstring -> option A) (before s : jsstring) :
  (forall b1 b2, before = b1 ++ b2 -> b2 <> [] -> m (b2 ++ s) = None) ->
  search m (before ++ s) = search m s.
Proof.
  induction before as [|c before IH]; intros H; [reflexivity|].
  assert (H0 : m ((c :: before) ++ s) = None)
    by (apply (H [] (c :: before) eq_refl); discriminate).
  cbn [app] in H0. cbn [app search]. rewrite H0.
  apply IH. intros b1 b2 -> Hne. now apply (H (c :: b1) b2).
Qed.

Lemma occurs_suffix (p b1 b2 : jsstring) :
  occurs p (b1 ++ b2) = false -> startsWith p b2 = false.
Proof.
  induction b1 as [|c b1 IH]; cbn [app].
  - destruct b2; cbn [occurs]; intros H; now apply orb_false_iff in H.
  - cbn [occurs]. intros H. apply orb_false_iff in H as [_ H]. now apply IH.
Qed.

Lemma startsWith_cons (x y : N) (p s : jsstring) :
  startsWith (x :: p) (y :: s) = (x =? y)%N && startsWith p s.
Proof. reflexivity. Qed.

(** The marker has no border: an occurrence cannot begin inside the text
    before one and end inside it. *)
Lemma marker_no_straddle (b tail : jsstring) :
  b <> [] -> startsWith (js "REF.") b = false ->
  startsWith (js "REF.") (b ++ js "REF." ++ tail) = false.
Proof.
  change (js "REF.") with [82; 69; 70; 46]%N.
  destruct b as [|x [|y [|z [|u b]]]]; [contradiction|..]; intros _;
    cbn [app]; rewrite ?startsWith_cons.
  - intros _. destruct (82 =? x)%N; reflexivity.
  - intros _. destruct (82 =? x)%N, (69 =? y)%N; reflexivity.
  - intros _. destruct (82 =? x)%N, (69 =? y)%N, (70 =? z)%N; reflexivity.
  - cbn [startsWith]. rewrite !andb_true_r. tauto.
Qed.

Lemma matchRef_at_marker (ws1 ws2 tok rest : jsstring) :
  forallb isSpace ws1 = true -> forallb isSpace ws2 = true ->
  tok <> [] -> forallb (fun c => negb (isSpace c)) tok = true ->
  endsRun (fun c => negb (isSpace c)) rest ->
  matchRef (js "REF." ++ ws1 ++ ch ":" :: ws2 ++ tok ++ rest) = Some tok.
Proof.
  intros H1 H2 Hne Htok Hrest. unfold matchRef.
  rewrite startsWith_app.
  change 4 with (length (js "REF.")). rewrite skipn_length_app.
  rewrite (dropWhile_run isSpace ws1 _ H1) by reflexivity.
  rewrite N.eqb_refl.
  assert (Hend : endsRun isSpace (tok ++ rest)).
  { destruct tok as [|t tok]; [contradiction|]. cbn [app endsRun].
    cbn [forallb] in Htok. apply andb_true_iff in Htok as [Ht _].
    now apply negb_true_iff. }
  rewrite (dropWhile_run isSpace ws2 _ H2 Hend).
  rewrite (takeWhile_run _ tok rest Htok Hrest).
  destruct tok; [contradiction|reflexivity].
Qed.

(** X5: the first [REF.] marker of a description, when it is followed by
    optional white space, a colon, optional white space and a token, decides
    the reference: the token up to the next white space is extracted,
    whatever precedes the marker (a Payconiq identifier included) and
    whatever follows the token. *)
Theorem extractReference_ref_marker (before ws1 ws2 tok rest : jsstring) :
  occurs (js "REF.") before = false ->
  forallb isSpace ws1 = true -> forallb isSpace ws2 = true ->
  tok <> [] -> forallb (fun c => negb (isSpace c)) tok = true ->
  endsRun (fun c => negb (isSpace c)) rest ->
  extractReference
    (Some (before ++ js "REF." ++ ws1 ++ ch ":" :: ws2 ++ tok ++ rest))
  = Some tok.
Proof.
  intros Hocc H1 H2 Hne Htok Hrest.
  assert (Hsearch : search matchRef
            (before ++ js "REF." ++ ws1 ++ ch ":" :: ws2 ++ tok ++ rest)
          = Some tok).
  { rewrite search_skip.
    - destruct (js "REF." ++ ws1 ++ ch ":" :: ws2 ++ tok ++ rest) eqn:Hd;
        [discriminate|]. cbn [search]. rewrite <- Hd.
      now rewrite matchRef_at_marker.
    - intros b1 b2 Hb Hb2. unfold matchRef.
      rewrite marker_no_straddle; [reflexivity|exact Hb2|].
      apply (occurs_suffix _ b1). now rewrite <- Hb. }
  unfold extractReference.
  destruct (before ++ js "REF." ++ ws1 ++ ch ":" :: ws2 ++ tok ++ rest) eqn:Hd.
  - destruct before; discriminate.
  - now rewrite Hsearch.
Qed.

Lemma extractReference_ref_marker_witness :
  extractReference
    (Some (js "Payconiq 0a1b OVERSCHRIJVING REF. : 2024/0315 VAL. 01-03"))
  = Some (js "2024/0315").
Proof.
  apply (extractReference_ref_marker (js "Payconiq 0a1b OVERSCHRIJVING ")
           (js " ") (js " ") (js "2024/0315") (js " VAL. 01-03"));
    solve [discriminate | reflexivity].
Defined.

(** ** What the row mapper returns *)

(** The header-keyed mapper is the shared body on the fifteen named cells. *)
Lemma parseTransactionRow_mapFields (row : Row) :
  parseTransactionRow row
  = mapFields (field "Rekening" row) (field "Boekingsdatum" row)
      (field "Rekeninguittrekselnummer" row) (field "Transactienummer" row)
      (field "Rekening tegenpartij" row) (field "Naam tegenpartij bevat" row)
      (field "Straat en nummer" row) (field "Postcode en plaats" row)
      (field "Transactie" row) (field "Valutadatum" row) (field "Bedrag" row)
      (field "Devies" row) (field "BIC" row) (field "Landcode" row)
      (field "Mededelingen" row).
Proof. reflexivity. Qed.

Lemma mapFields_inv
    (a b st tn ca cn cad cpc tt vd am cur bi cc desc : option jsstring)
    (t : Transaction) :
  mapFields a b st tn ca cn cad cpc tt vd am cur bi cc desc = Returned (Some t) ->
  (a = Some (accountNumber t) /\ accountNumber t <> [])
  /\ (exists bs, b = Some bs /\ parseDate bs = Some (bookingDate t))
  /\ (exists ms, am = Some ms /\ parseAmount ms = Some (amount t))
  /\ valueDate t = match vd with Some v => parseDate v | None => None end
  /\ (counterpartPostalCode t, counterpartCity t) = parsePostalCodeCity cpc
  /\ [statementNumber t; transactionNumber t; counterpartAccount t;
      counterpartName t; counterpartAddress t; transactionType t; bic t;
      countryCode t; description t]
     = map orNull [st; tn; ca; cn; cad; tt; bi; cc; desc]
  /\ currency t = match cur with Some (c :: r) => c :: r | _ => js "EUR" end
  /\ referenceNumber t
     = match extractReference desc with Some r => Some r | None => tn end.
Proof.
  unfold mapFields.
  destruct a as [[|a0 a]|]; try discriminate.
  destruct b as [[|b0 b]|]; try discriminate.
  destruct am as [[|m0 m]|]; try discriminate.
  destruct (parseDate (b0 :: b)) as [d|] eqn:Hd; [|discriminate].
  destruct (parseAmount (m0 :: m)) as [n|] eqn:Hn; [|discriminate].
  destruct (parsePostalCodeCity cpc) as [pc city].
  intros [= <-]. cbn -[js orNull extractReference].
  split; [split; [reflexivity|discriminate]|].
  split; [now exists (b0 :: b)|]. split; [now exists (m0 :: m)|].
  repeat split; reflexivity.
Qed.

Lemma orNull_not_empty (v : option jsstring) : orNull v <> Some [].
Proof. destruct v as [[|c r]|]; discriminate. Qed.

Lemma parseDate_not_empty (s d : jsstring) : parseDate s = Some d -> d <> [].
Proof.
  intros H. apply parseDate_Some in H
    as (p0 & p1 & p2 & day & month & year & _ & _ & _ & _ & _ & _ & ->).
  intros Hn. apply app_eq_nil in Hn as [_ Hn]. discriminate.
Qed.

Lemma parseAmount_not_NaN (s : jsstring) (n : JSNumber) :
  parseAmount s = Some n -> n <> NaN.
Proof.
  unfold parseAmount. destruct (isEmpty s || isEmpty (trim s)); [discriminate|].
  destruct (parseFloat _); [discriminate| |]; intros [= <-]; discriminate.
Qed.

(** On a trimmed cell neither part of the pair is the empty string. *)
Lemma parsePostalCodeCity_trimmed (raw : option jsstring) :
  fst (parsePostalCodeCity (option_map trim raw)) <> Some []
  /\ snd (parsePostalCodeCity (option_map trim raw)) <> Some [].
Proof.
  destruct raw as [raw|]; cbn [option_map parsePostalCodeCity];
    [|split; discriminate].
  destruct (isEmpty (trim raw) || isEmpty (trim (trim raw))) eqn:Hb;
    [split; discriminate|].
  apply orb_false_iff in Hb as [_ Hb].
  destruct (matchPostalCodeCity (trim raw)) as [[g1 g2]|] eqn:Hm; cbn [fst snd].
  - apply matchPostalCodeCity_inv in Hm as (Hg1 & Hne & Hg2).
    assert (Hdig : forallb isDigit g1 = true)
      by (rewrite Hg1; apply takeWhile_all).
    rewrite (trim_no_space _ (digits_no_space _ Hdig)).
    split; [congruence|].
    destruct Hg2 as [(c & r & -> & Hc)|(pre & l & Hpre & Hl)].
    + destruct (trim_head c r Hc) as [a ->]. discriminate.
    + apply trim_last in Hpre. congruence.
  - split; [discriminate|].
    destruct (trim (trim raw)); [discriminate|discriminate].
Qed.

Lemma extractReference_not_empty (description : option jsstring) :
  extractReference description <> Some [].
Proof.
  destruct description as [[|c d]|]; cbn [extractReference]; try discriminate.
  destruct (search matchRef (c :: d)) as [tok|] eqn:Href.
  - apply search_found in Href as (_ & rest & _ & Hm).
    apply matchRef_inv in Hm as (Hne & _). congruence.
  - intros Hpay. apply search_found in Hpay as (_ & rest & _ & Hm).
    apply matchPayconiq_inv in Hm as (Hne & _). congruence.
Qed.

(** X6: in a transaction the header-keyed mapper returns, the account
    number, the booking date and the currency are not empty, the amount is
    a number, and every optional text is null rather than the empty string.
    The reference number is the exception: it is the empty string exactly
    when no reference is found in the description and the transaction-number
    cell is blank, and it is undefined exactly when no reference is found
    and the file has no transaction-number column. *)
Theorem parseTransactionRow_no_empty_text (row : Row) (t : Transaction) :
  parseTransactionRow row = Returned (Some t) ->
  accountNumber t <> [] /\ bookingDate t <> [] /\ currency t <> []
  /\ amount t <> NaN
  /\ Forall (fun v => v <> Some [])
       [statementNumber t; transactionNumber t; valueDate t;
        counterpartAccount t; counterpartName t; counterpartAddress t;
        counterpartPostalCode t; counterpartCity t; transactionType t;
        bic t; countryCode t; description t]
  /\ (referenceNumber t = Some []
      <-> extractReference (field "Mededelingen" row) = None
          /\ exists raw, get (js "Transactienummer") row = Some raw
                         /\ trim raw = [])
  /\ (referenceNumber t = None
      <-> extractReference (field "Mededelingen" row) = None
          /\ get (js "Transactienummer") row = None).
Proof.
  rewrite parseTransactionRow_mapFields. intros H.
  apply mapFields_inv in H
    as ((_ & Ha) & (bs & _ & Hb) & (ms & _ & Hm) & Hv & Hpc & Hor & Hcur & Href).
  split; [exact Ha|]. split; [exact (parseDate_not_empty _ _ Hb)|].
  split.
  { rewrite Hcur. destruct (field "Devies" row) as [[|c r]|]; discriminate. }
  split; [exact (parseAmount_not_NaN _ _ Hm)|].
  split.
  { injection Hor as -> -> -> -> -> -> -> -> ->.
    pose proof (parsePostalCodeCity_trimmed (get (js "Postcode en plaats") row))
      as [Hp Hc].
    change (option_map trim (get (js "Postcode en plaats") row))
      with (field "Postcode en plaats" row) in Hp, Hc.
    rewrite <- Hpc in Hp, Hc. cbn [fst snd] in Hp, Hc.
    assert (Hvd : valueDate t <> Some []).
    { rewrite Hv. destruct (field "Valutadatum" row) as [v|]; [|discriminate].
      destruct (parseDate v) as [d|] eqn:Hd; [|discriminate].
      apply parseDate_not_empty in Hd. congruence. }
    repeat constructor; try apply orNull_not_empty; assumption. }
  rewrite Href.
  pose proof (extractReference_not_empty (field "Mededelingen" row)) as Hne.
  destruct (extractReference (field "Mededelingen" row)) as [r|].
  - split; split; try (intros [? _]); try discriminate. congruence.
  - unfold field. destruct (get (js "Transactienummer") row) as [raw|];
      cbn [option_map].
    + split; split.
      * intros [= Ht]. split; [reflexivity|]. now exists raw.
      * intros (_ & raw' & [= <-] & ->). reflexivity.
      * discriminate.
      * intros [_ ?]. discriminate.
    + split; split; try discriminate; try tauto.
      intros (_ & raw' & ? & _). discriminate.
Qed.

Lemma parseTransactionRow_no_empty_text_witness :
  exists t,
    parseTransactionRow
      [(js "Rekening", js "BE68539007547034"); (js "Boekingsdatum", js "01/03/2024");
       (js "Transactienummer", js " "); (js "Bedrag", js "-12,30")]
    = Returned (Some t)
    /\ transactionNumber t <> Some [] /\ referenceNumber t = Some [].
Proof.
  assert (H : { t | parseTransactionRow
      [(js "Rekening", js "BE68539007547034"); (js "Boekingsdatum", js "01/03/2024");
       (js "Transactienummer", js " "); (js "Bedrag", js "-12,30")]
      = Returned (Some t) }) by (eexists; vm_compute; reflexivity).
  destruct H as [t H]. exists t. split; [exact H|].
  destruct (parseTransactionRow_no_empty_text _ t H)
    as (_ & _ & _ & _ & Hall & Href & _).
  split.
  - inversion Hall as [|? ? _ Hrest]. inversion Hrest as [|? ? Htn _]. exact Htn.
  - apply Href. split; [reflexivity|]. exists (js " "). split; reflexivity.
Defined.

(** ** What the parser returns *)

Lemma startsWith_BE_trim (a : jsstring) :
  startsWith (js "BE") a = true -> startsWith (js "BE") (trim a) = true.
Proof.
  change (js "BE") with [66%N; 69%N].
  destruct a as [|x [|y r]]; try discriminate.
  - cbn [startsWith]. rewrite andb_false_r. discriminate.
  - cbn [startsWith]. rewrite andb_true_r, andb_true_iff, !N.eqb_eq.
    intros [<- <-].
    destruct (trim_keeps 66 [] r 69 eq_refl eq_refl) as [t Ht].
    cbn [app] in Ht. rewrite Ht. reflexivity.
Qed.

Lemma contribution_inv (row : Row) (t : Transaction) :
  contribution row = Some t ->
  parseTransactionRow row = Returned (Some t)
  /\ startsWith (js "BE") (accountNumber t) = true.
Proof.
  unfold contribution, kept. destruct (existsb nonBlank (values row)); [|discriminate].
  cbn [andb]. destruct (accountCell row) as [cell|] eqn:Hcell; [|discriminate].
  destruct (startsWith (js "BE") cell) eqn:Hbe; [|discriminate].
  destruct (parseTransactionRow row) as [[t'|]|m] eqn:Hp; try discriminate.
  intros [= ->]. split; [reflexivity|].
  rewrite parseTransactionRow_mapFields in Hp.
  apply mapFields_inv in Hp as ((Ha & Hne) & _).
  unfold field in Ha. unfold accountCell in Hcell.
  destruct (get (js "Rekening") row) as [[|c r]|]; cbn [option_map] in Ha;
    try discriminate.
  - injection Ha as Ha. now rewrite <- Ha in Hne.
  - injection Hcell as <-. injection Ha as <-. now apply startsWith_BE_trim.
Qed.

Lemma survivors_In (rows : list Row) (t : Transaction) :
  In t (survivors rows) -> exists row, In row rows /\ contribution row = Some t.
Proof.
  induction rows as [|row rows IH]; cbn [survivors]; [contradiction|].
  destruct (contribution row) as [t'|] eqn:Hc.
  - intros [<-|Hin].
    + exists row. split; [now left|exact Hc].
    + destruct (IH Hin) as (r & Hr & Hrc). exists r. split; [now right|exact Hrc].
  - intros Hin. destruct (IH Hin) as (r & Hr & Hrc).
    exists r. split; [now right|exact Hrc].
Qed.

Lemma survivors_bound (rows : list Row) : length (survivors rows) <= length rows.
Proof.
  induction rows as [|row rows IH]; cbn [survivors length]; [lia|].
  destruct (contribution row); cbn [length]; lia.
Qed.

(** X7: when the parser succeeds, the list it returns is not empty and not
    longer than the file has records, and every transaction in it has an
    account number that starts with BE and is what the row mapper returns
    for some record of the file. *)
Theorem parsed_transactions_valid (Papa_parse : jsstring -> Papa.Result)
    (csvContent : jsstring) (txs : list Transaction) :
  fst (parseBelgianBankCSV Papa_parse csvContent) = Success txs ->
  txs <> []
  /\ length txs <= length (Papa.data (Papa_parse csvContent))
  /\ Forall (fun t =>
       startsWith (js "BE") (accountNumber t) = true
       /\ exists row, In row (Papa.data (Papa_parse csvContent))
                      /\ parseTransactionRow row = Returned (Some t)) txs.
Proof.
  destruct (Papa.errors (Papa_parse csvContent)) as [|e es] eqn:He.
  - rewrite (parse_spec Papa_parse csvContent He). cbv zeta.
    pose proof (survivors_bound (Papa.data (Papa_parse csvContent))) as Hlen.
    pose proof (survivors_In (Papa.data (Papa_parse csvContent))) as Hin.
    destruct (survivors (Papa.data (Papa_parse csvContent))) as [|t0 ts];
      cbn [fst]; [discriminate|].
    intros [= <-]. split; [discriminate|]. split; [exact Hlen|].
    apply Forall_forall. intros t Ht.
    destruct (Hin t Ht) as (row & Hrow & Hc).
    apply contribution_inv in Hc as [Hp Hbe].
    split; [exact Hbe|]. now exists row.
  - unfold parseBelgianBankCSV. rewrite He. discriminate.
Qed.

Lemma parsed_transactions_valid_witness :
  exists txs,
    fst (parseBelgianBankCSV Demo.plainTokenizer (Demo.decode Demo.tenRows))
    = Success txs
    /\ txs <> [] /\ length txs <= 10.
Proof.
  assert (H : { txs | fst (parseBelgianBankCSV Demo.plainTokenizer
                             (Demo.decode Demo.tenRows)) = Success txs })
    by (eexists; vm_compute; reflexivity).
  destruct H as [txs H]. exists txs. split; [exact H|].
  destruct (parsed_transactions_valid _ _ txs H) as (Hne & Hlen & _).
  split; [exact Hne|exact Hlen].
Defined.

(** A record without a [Rekening] key whose first cell starts with BE
    passes the row filter, is dropped by the mapper, and leaves no line on
    the console. *)
Lemma unnamed_account_row (i : nat) (row : Row) :
  get (js "Rekening") row = None ->
  contribution row = None
  /\ (Positional.firstCellBE row = true -> rowLine i row = []).
Proof.
  intros Hget.
  assert (Hp : parseTransactionRow row = Returned None).
  { unfold parseTransactionRow, field. now rewrite Hget. }
  split.
  - unfold contribution. rewrite Hp. now destruct (kept row).
  - intros Hbe. unfold rowLine, kept, accountCell. rewrite Hget, Hp.
    unfold Positional.firstCellBE in Hbe.
    destruct (hd_error (values row)) as [[|c r]|]; try discriminate.
    rewrite Hbe. now destruct (existsb nonBlank (values row)).
Qed.

(** X8: the row filter accepts a record by its first cell when the file
    has no [Rekening] column, but the mapper reads the account number by
    that name only.  A file whose account column bears another name and
    whose records all start with a BE account is therefore rejected as
    having no valid transactions, and no record is mentioned on the
    console. *)
Theorem missing_account_column_drops_silently
    (Papa_parse : jsstring -> Papa.Result) (csvContent : jsstring) :
  Papa.errors (Papa_parse csvContent) = [] ->
  Forall (fun row => get (js "Rekening") row = None
                     /\ Positional.firstCellBE row = true)
         (Papa.data (Papa_parse csvContent)) ->
  parseBelgianBankCSV Papa_parse csvContent
  = (Failure noTransactions,
     [LogProcessing (length (Papa.data (Papa_parse csvContent)));
      LogHeaders match Papa.data (Papa_parse csvContent) with
                 | r :: _ => map fst r
                 | [] => []
                 end]).
Proof.
  intros He Hall. rewrite (parse_spec Papa_parse csvContent He). cbv zeta.
  assert (H : survivors (Papa.data (Papa_parse csvContent)) = []
              /\ forall i, rowLines i (Papa.data (Papa_parse csvContent)) = []).
  { induction Hall as [|row rows [Hget Hbe] _ [IH1 IH2]]; [now split|].
    destruct (unnamed_account_row 0 row Hget) as [Hc _].
    split.
    - cbn [survivors]. now rewrite Hc.
    - intros i. cbn [rowLines].
      destruct (unnamed_account_row i row Hget) as [_ Hl].
      now rewrite (Hl Hbe), IH2. }
  destruct H as [-> Hl]. now rewrite Hl.
Qed.

Lemma missing_account_column_drops_silently_witness :
  fst (parseBelgianBankCSV Demo.plainTokenizer
         (js "Rekeningnummer;Boekingsdatum;Bedrag" ++ [10%N]
          ++ js "BE68539007547034;01/03/2024;-12,30" ++ [10%N]))
  = Failure noTransactions.
Proof.
  rewrite missing_account_column_drops_silently; [reflexivity|reflexivity|].
  apply (forallb_Forall _
           (fun row => match get (js "Rekening") row with
                       | None => Positional.firstCellBE row
                       | Some _ => false
                       end)).
  - intros row. destruct (get (js "Rekening") row); [discriminate|]. now split.
  - vm_compute. reflexivity.
Defined.

(** ** What the import loop does to the table, the counters and the trace *)

Lemma ForallOrdPairs_snoc (A : Type) (R : A -> A -> Prop) (l : list A) (x : A) :
  ForallOrdPairs R l -> Forall (fun a => R a x) l -> ForallOrdPairs R (l ++ [x]).
Proof.
  induction 1 as [|a l Ha Hl IH]; intros Hx; cbn [app].
  - constructor; constructor.
  - inversion Hx as [|? ? Hax Hlx]; subst. constructor.
    + apply Forall_app. split; [exact Ha|]. now constructor.
    + now apply IH.
Qed.

Lemma unlinks_app (a b : list Effect) : unlinks (a ++ b) = unlinks a ++ unlinks b.
Proof. apply flat_map_app. Qed.

Lemma insertCalls_app (a b : list Effect) :
  insertCalls (a ++ b) = insertCalls a ++ insertCalls b.
Proof. apply flat_map_app. Qed.

Lemma console_only (out : list ConsoleLine) :
  unlinks (map Console out) = [] /\ insertCalls (map Console out) = [].
Proof. induction out as [|l out [IH1 IH2]]; split; auto. Qed.

Section ImportShape.

Variable E : Env.

(** The loop as a whole: the table gains the accepted transactions, in
    order and under the file's fingerprint; the error list gains the
    entries of [rowErrors]; the trace gains one INSERT per transaction and
    no unlink; a table without colliding rows stays so. *)
Lemma importRows_shape (h : jsstring) (txs : list Transaction) :
  forall i db c trace db' c' trace',
    importRows E h i txs db c trace = (db', c', trace') ->
    exists ins,
      db' = {| import_logs := import_logs db;
               transactions := transactions db ++ storedAs h ins |}
      /\ importedCount c' = importedCount c + length ins
      /\ errorCount c' = errorCount c + length (rowErrors E i txs)
      /\ errorList c' = errorList c ++ rowErrors E i txs
      /\ incl ins txs
      /\ unlinks trace' = unlinks trace
      /\ insertCalls trace' = insertCalls trace ++ txs
      /\ (keysDistinct E (transactions db) -> keysDistinct E (transactions db')).
Proof.
  induction txs as [|t rest IH]; intros i db c trace db' c' trace'.
  - cbn [importRows]. intros [= <- <- <-]. exists [].
    cbn [storedAs map length rowErrors]. rewrite !app_nil_r, !Nat.add_0_r.
    destruct db. repeat split; try reflexivity; auto. apply incl_refl.
  - cbn [importRows rowErrors]. unfold insertTransaction.
    destruct (column_error E t) as [e|] eqn:Hcol.
    + fold (isDupEntry e). destruct (isDupEntry e); intros H;
        destruct (IH _ _ _ _ _ _ _ H)
          as (ins & Hdb & Himp & Herr & Hlist & Hincl & Hun & Hcalls & Hkeys);
        exists ins; cbn [importedCount errorCount errorList] in *;
        (split; [exact Hdb|]); (split; [exact Himp|]).
      * split; [exact Herr|]. split; [exact Hlist|].
        split; [now apply incl_tl|].
        rewrite unlinks_app in Hun. rewrite insertCalls_app in Hcalls.
        cbn in Hun, Hcalls. rewrite app_nil_r in Hun.
        split; [exact Hun|]. split; [|exact Hkeys].
        now rewrite Hcalls, <- app_assoc.
      * split; [cbn [length]; lia|].
        split; [now rewrite Hlist, <- app_assoc|].
        split; [now apply incl_tl|].
        rewrite unlinks_app in Hun. rewrite insertCalls_app in Hcalls.
        cbn in Hun, Hcalls. rewrite app_nil_r in Hun.
        split; [exact Hun|]. split; [|exact Hkeys].
        now rewrite Hcalls, <- app_assoc.
    + destruct (existsb (fun s => unique_transaction E t (stored s))
                  (transactions db)) eqn:Hex.
      * change (match code ER_DUP_ENTRY with
                | Some k => str_eqb k (js "ER_DUP_ENTRY")
                | None => false
                end) with true. cbv iota. intros H.
        destruct (IH _ _ _ _ _ _ _ H)
          as (ins & Hdb & Himp & Herr & Hlist & Hincl & Hun & Hcalls & Hkeys).
        exists ins. cbn [importedCount errorCount errorList] in *.
        split; [exact Hdb|]. split; [exact Himp|]. split; [exact Herr|].
        split; [exact Hlist|]. split; [now apply incl_tl|].
        rewrite unlinks_app in Hun. rewrite insertCalls_app in Hcalls.
        cbn in Hun, Hcalls. rewrite app_nil_r in Hun.
        split; [exact Hun|]. split; [|exact Hkeys].
        now rewrite Hcalls, <- app_assoc.
      * intros H.
        destruct (IH _ _ _ _ _ _ _ H)
          as (ins & Hdb & Himp & Herr & Hlist & Hincl & Hun & Hcalls & Hkeys).
        exists (t :: ins).
        cbn [importedCount errorCount errorList import_logs transactions] in *.
        split.
        { rewrite Hdb, <- app_assoc. reflexivity. }
        split; [cbn [length]; lia|]. split; [exact Herr|].
        split; [exact Hlist|].
        split.
        { intros x [<-|Hx]; [now left|right; now apply Hincl]. }
        rewrite unlinks_app in Hun. rewrite insertCalls_app in Hcalls.
        cbn in Hun, Hcalls. rewrite app_nil_r in Hun.
        split; [exact Hun|]. split; [now rewrite Hcalls, <- app_assoc|].
        intros Hd. apply Hkeys. apply ForallOrdPairs_snoc; [exact Hd|].
        apply Forall_forall. intros s Hs. cbn [stored].
        destruct (unique_transaction E t (stored s)) eqn:Hu; [|reflexivity].
        assert (Hex' : existsb (fun s => unique_transaction E t (stored s))
                         (transactions db) = true)
          by (apply existsb_exists; now exists s).
        congruence.
Qed.

End ImportShape.

(** ** The four ways the handler ends on a request with a file *)

Lemma upload_paths (E : Env) (now : nat) (f : UploadedFile) (db : Database) :
  let h := md5 E (buffer f) in
  let content := utf8 E (buffer f) in
  let l0 := newLog now (originalname f) h db in
  (exists l ls,
      selectLogs h db = l :: ls
      /\ upload E now {| file := Some f |} db
         = (db, RespDuplicate 409 (js "File already processed") (imported_at l),
            [Console (LogUpload (originalname f)); Unlink (path f)]))
  \/ (exists err,
         selectLogs h db = [] /\ log_error E (originalname f) h = Some err
         /\ upload E now {| file := Some f |} db
            = (db,
               RespFailed 500 (js "Failed to process file")
                 (if development E then Some (message err) else None),
               [Console (LogUpload (originalname f));
                Console (LogUploadError (message err)); Unlink (path f)]))
  \/ (exists err out,
         selectLogs h db = [] /\ log_error E (originalname f) h = None
         /\ parseBelgianBankCSV (Papa_parse E) content = (Failure err, out)
         /\ upload E now {| file := Some f |} db
            = ({| import_logs := import_logs db ++ [setFailed err l0];
                  transactions := transactions db |},
               RespError 400 err,
               (Console (LogUpload (originalname f))
                :: ParserCall content :: map Console out) ++ [Unlink (path f)]))
  \/ (exists txs out ins c trace2,
         selectLogs h db = [] /\ log_error E (originalname f) h = None
         /\ parseBelgianBankCSV (Papa_parse E) content = (Success txs, out)
         /\ upload E now {| file := Some f |} db
            = ({| import_logs := import_logs db
                    ++ [setCompleted now (length txs) (importedCount c)
                          (skippedCount c) (errorCount c) (errorList c) l0];
                  transactions := transactions db ++ storedAs h ins |},
               RespSuccess
                 {| totalRecords := length txs;
                    imported := importedCount c;
                    skipped := skippedCount c;
                    errors := errorCount c |}
                 (firstn 5 (errorList c)),
               trace2 ++ [Unlink (path f);
                          Console (LogImportCompleted (importedCount c)
                                     (skippedCount c) (errorCount c))])
         /\ importedCount c = length ins
         /\ errorList c = rowErrors E 0 txs
         /\ errorCount c = length (rowErrors E 0 txs)
         /\ importedCount c + skippedCount c + errorCount c = length txs
         /\ incl ins txs
         /\ unlinks trace2 = []
         /\ insertCalls trace2 = txs
         /\ (keysDistinct E (transactions db) ->
             keysDistinct E (transactions db ++ storedAs h ins))).
Proof.
  intros h content l0.
  destruct (selectLogs h db) as [|l ls] eqn:Hsel.
  2:{ left. exists l, ls. split; [reflexivity|]. now apply (upload_known E now f db l ls). }
  right. destruct (log_error E (originalname f) h) as [err|] eqn:Hlog.
  { left. exists err. split; [reflexivity|]. split; [reflexivity|].
    unfold upload. cbn [file]. fold h. rewrite Hsel. cbv zeta. fold h.
    now rewrite Hlog. }
  right. pose proof (upload_fresh E now f db Hsel Hlog) as Hu. cbv zeta in Hu.
  fold h in Hu. fold content in Hu. fold l0 in Hu.
  destruct (parseBelgianBankCSV (Papa_parse E) content) as [[txs|err] out] eqn:Hp.
  2:{ left. exists err, out. now repeat split. }
  right.
  pose proof (importRows_counts E h txs 0
                {| import_logs := import_logs db ++ [l0];
                   transactions := transactions db |} noCounts
                (Console (LogUpload (originalname f))
                 :: ParserCall content :: map Console out)) as [Hsum _].
  destruct (importRows E h 0 txs _ noCounts _) as [[db2 c] trace2] eqn:Hloop.
  cbn [fst snd] in Hsum.
  destruct (importRows_shape E h txs _ _ _ _ _ _ _ Hloop)
    as (ins & Hdb & Himp & Herr & Hlist & Hincl & Hun & Hcalls & Hkeys).
  cbn [import_logs transactions importedCount skippedCount errorCount
       errorList noCounts app] in Himp, Herr, Hlist, Hkeys, Hdb, Hsum.
  destruct (console_only out) as [Ho1 Ho2].
  exists txs, out, ins, c, trace2.
  split; [reflexivity|]. split; [reflexivity|]. split; [reflexivity|].
  split. { rewrite Hu, Hdb. reflexivity. }
  split; [exact Himp|]. split; [exact Hlist|]. split; [exact Herr|].
  split; [lia|]. split; [exact Hincl|].
  split. { rewrite Hun. cbn. exact Ho1. }
  split. { rewrite Hcalls. unfold insertCalls in *. cbn [flat_map app]. now rewrite Ho2. }
  intros Hd. rewrite Hdb in Hkeys. cbn [transactions] in Hkeys. now apply Hkeys.
Qed.

(** ** Tokenizer errors *)

(** X9: when the tokenizer reports errors, the import fails with the
    message of the first of them, whatever records the tokenizer produced
    besides: no record is looked at, nothing is sent to the table, and the
    log row of the file is marked failed with that message. *)
Theorem tokenizer_error_fails_import (E : Env) (now : nat) (f : UploadedFile)
    (db : Database) (e : jsstring) (es : list jsstring) :
  selectLogs (md5 E (buffer f)) db = [] ->
  log_error E (originalname f) (md5 E (buffer f)) = None ->
  Papa.errors (Papa_parse E (utf8 E (buffer f))) = e :: es ->
  exists db' l,
    upload E now {| file := Some f |} db
    = (db', RespError 400 (js "CSV parsing failed: " ++ e),
       [Console (LogUpload (originalname f)); ParserCall (utf8 E (buffer f));
        Console (LogTokenizerErrors (e :: es)); Unlink (path f)])
    /\ transactions db' = transactions db
    /\ import_logs db' = import_logs db ++ [l]
    /\ file_hash l = md5 E (buffer f)
    /\ import_status l = failed
    /\ error_message l = Some (ErrorText (js "CSV parsing failed: " ++ e)).
Proof.
  intros Hsel Hlog He.
  rewrite (upload_fresh E now f db Hsel Hlog). cbv zeta.
  unfold parseBelgianBankCSV. rewrite He.
  eexists. eexists. split; [reflexivity|].
  cbn [transactions import_logs]. repeat split; reflexivity.
Qed.

Lemma tokenizer_error_fails_import_witness :
  exists db' trace,
    upload Demo.env 100
      (Demo.post "kort.csv"
         (Demo.csv [Demo.header; "BE68539007547034;01/03/2024;1;;-12,30;HUUR";
                    "BE68539007547034;02/03/2024"]%string))
      Demo.emptyDb
    = (db', RespError 400 (js "CSV parsing failed: Too few or too many fields"),
       trace)
    /\ transactions db' = [].
Proof.
  destruct (tokenizer_error_fails_import Demo.env 100
              {| path := js "uploads/kort.csv"; originalname := js "kort.csv";
                 buffer := Demo.csv [Demo.header;
                     "BE68539007547034;01/03/2024;1;;-12,30;HUUR";
                     "BE68539007547034;02/03/2024"]%string |}
              Demo.emptyDb (js "Too few or too many fields") [])
    as (db' & l & Hu & Ht & _).
  - vm_compute. reflexivity.
  - reflexivity.
  - vm_compute. reflexivity.
  - exists db'. eexists. split; [exact Hu|exact Ht].
Defined.

(** ** The error entries of an import *)

Lemma rowErrors_In (E : Env) (txs : list Transaction) :
  forall i e, In e (rowErrors E i txs) ->
    exists k t q,
      nth_error txs k = Some t /\ column_error E t = Some q
      /\ isDupEntry q = false /\ row e = i + k + 1 /\ error e = message q.
Proof.
  induction txs as [|t rest IH]; intros i e; cbn [rowErrors]; [contradiction|].
  assert (Hrest : In e (rowErrors E (S i) rest) ->
            exists k t' q,
              nth_error (t :: rest) k = Some t' /\ column_error E t' = Some q
              /\ isDupEntry q = false /\ row e = i + k + 1 /\ error e = message q).
  { intros Hin. destruct (IH _ _ Hin) as (k & t' & q & Hn & Hc & Hd & Hr & Hm).
    exists (S k), t', q. repeat split; auto; lia. }
  destruct (column_error E t) as [q|] eqn:Hc; [|exact Hrest].
  destruct (isDupEntry q) eqn:Hd; [exact Hrest|].
  intros [<-|Hin]; [|now apply Hrest].
  exists 0, t, q. cbn [nth_error row error]. repeat split; auto; lia.
Qed.

Lemma rowErrors_increasing (E : Env) (txs : list Transaction) :
  forall i, ForallOrdPairs (fun a b => row a < row b) (rowErrors E i txs).
Proof.
  induction txs as [|t rest IH]; intros i; cbn [rowErrors]; [constructor|].
  destruct (column_error E t) as [q|]; [|apply IH].
  destruct (isDupEntry q); [apply IH|]. constructor; [|apply IH].
  apply Forall_forall. intros e He.
  destruct (rowErrors_In E rest _ _ He) as (k & _ & _ & _ & _ & _ & Hr & _).
  cbn [row]. lia.
Qed.

Lemma ForallOrdPairs_firstn (A : Type) (R : A -> A -> Prop) (l : list A) :
  ForallOrdPairs R l -> forall n, ForallOrdPairs R (firstn n l).
Proof.
  induction 1 as [|a l Ha Hl IH]; intros [|n]; cbn [firstn]; try constructor.
  - apply Forall_forall. intros x Hx. rewrite Forall_forall in Ha.
    apply Ha. revert Hx. clear. revert n.
    induction l as [|y l IHl]; intros [|n]; cbn [firstn]; try contradiction.
    intros [<-|Hx]; [now left|right; now apply (IHl n)].
  - apply IH.
Qed.

Lemma In_firstn (A : Type) (l : list A) (n : nat) (x : A) :
  In x (firstn n l) -> In x l.
Proof.
  revert n. induction l as [|y l IH]; intros [|n]; cbn [firstn]; try contradiction.
  intros [<-|Hx]; [now left|right; now apply (IH n)].
Qed.

(** X10: the error entries of a success response are the first five of
    the entries collected by the loop, one for every parsed transaction
    that the server refuses with an error other than a duplicate key, and
    [errors] counts them all.  The row of an entry is the 1-based position
    of the refused transaction among the parsed transactions (not its line
    in the file), the message is the server's, and the entries come in
    increasing row order. *)
Theorem import_errors_identify_transactions (E : Env) (now : nat)
    (f : UploadedFile) (db : Database) (s : Summary) (errs : list RowError) :
  snd (fst (upload E now {| file := Some f |} db)) = RespSuccess s errs ->
  errs = firstn 5 (rowErrors E 0 (parsed E (buffer f)))
  /\ errors s = length (rowErrors E 0 (parsed E (buffer f)))
  /\ totalRecords s = length (parsed E (buffer f))
  /\ length errs <= 5
  /\ (forall e, In e errs ->
        1 <= row e <= totalRecords s
        /\ exists t q,
             nth_error (parsed E (buffer f)) (row e - 1) = Some t
             /\ column_error E t = Some q /\ isDupEntry q = false
             /\ error e = message q)
  /\ ForallOrdPairs (fun a b => row a < row b) errs.
Proof.
  destruct (upload_paths E now f db)
    as [(l & ls & _ & ->)|[(err & _ & _ & ->)|[(err & out & _ & _ & _ & ->)|H]]];
    cbn [fst snd]; try discriminate.
  destruct H as (txs & out & ins & c & trace2 & _ & _ & Hp & -> & _ & Hlist
                 & Herr & _).
  cbn [fst snd]. intros Heq.
  assert (Hs : s = {| totalRecords := length txs; imported := importedCount c;
                      skipped := skippedCount c; errors := errorCount c |})
    by congruence.
  assert (He : errs = firstn 5 (errorList c)) by congruence.
  clear Heq. subst s errs. unfold parsed. rewrite Hp. cbn [fst].
  cbn [errors totalRecords]. rewrite Hlist.
  split; [reflexivity|]. split; [exact Herr|]. split; [reflexivity|].
  split; [apply firstn_le_length|]. split.
  - intros e He. apply In_firstn in He.
    destruct (rowErrors_In E txs _ _ He) as (k & t & q & Hn & Hc & Hd & Hr & Hm).
    assert (Hk : k < length txs) by (apply nth_error_Some; congruence).
    split; [lia|]. exists t, q.
    replace (row e - 1) with k by lia. now repeat split.
  - apply ForallOrdPairs_firstn, rowErrors_increasing.
Qed.

Lemma import_errors_identify_transactions_witness :
  exists s errs,
    snd (fst (upload refusingUndefined 100
                (Demo.post "maart.csv" withoutNumbers) Demo.emptyDb))
    = RespSuccess s errs
    /\ map row errs = [1; 3] /\ errors s = 2 /\ totalRecords s = 3.
Proof.
  assert (H : { r | snd (fst (upload refusingUndefined 100
                  (Demo.post "maart.csv" withoutNumbers) Demo.emptyDb))
                = RespSuccess (fst r) (snd r) })
    by (eexists (_, _); vm_compute; reflexivity).
  destruct H as [[s errs] H]. cbn [fst snd] in H. exists s, errs.
  split; [exact H|].
  destruct (import_errors_identify_transactions refusingUndefined 100 _ _ s errs H)
    as (-> & -> & -> & _).
  split; [|split]; vm_compute; reflexivity.
Defined.

(** ** Clean-up of the uploaded file *)

(** X11: on every path of the handler that has a file (duplicate, refused
    log row, failed parse, completed import) the uploaded file is unlinked
    exactly once; without a file nothing is unlinked. *)
Theorem upload_unlinks_file_once (E : Env) (now : nat) (req : Request)
    (db : Database) :
  unlinks (snd (upload E now req db))
  = match file req with
    | Some f => [path f]
    | None => []
    end.
Proof.
  destruct req as [[f|]]; [|reflexivity]. cbn [file].
  destruct (upload_paths E now f db)
    as [(l & ls & _ & ->)|[(err & _ & _ & ->)|[(err & out & _ & _ & _ & ->)|H]]];
    cbn [snd]; try reflexivity.
  - rewrite unlinks_app.
    change (Console (LogUpload (originalname f))
            :: ParserCall (utf8 E (buffer f)) :: map Console out)
      with ([Console (LogUpload (originalname f));
             ParserCall (utf8 E (buffer f))] ++ map Console out).
    rewrite unlinks_app. destruct (console_only out) as [-> _]. reflexivity.
  - destruct H as (txs & out & ins & c & trace2 & _ & _ & _ & -> & _ & _ & _
                   & _ & _ & Hun & _).
    cbn [snd]. rewrite unlinks_app, Hun. reflexivity.
Qed.

(** ** What an upload does to the two tables *)

(** X12: an upload never changes or removes a stored transaction or an
    existing log row.  The table of transactions gains rows at its end only,
    each a parsed transaction of the file under the file's fingerprint: as
    many as the summary counts as imported when the response is a success,
    and none when the response is a duplicate rejection (409) or a failed
    parse (400); nothing is said of the number after a 500 response.  The
    log table gains at most one row. *)
Theorem upload_only_appends (E : Env) (now : nat) (f : UploadedFile)
    (db : Database) :
  exists added newLogs,
    transactions (fst (fst (upload E now {| file := Some f |} db)))
    = transactions db ++ added
    /\ import_logs (fst (fst (upload E now {| file := Some f |} db)))
       = import_logs db ++ newLogs
    /\ length newLogs <= 1
    /\ match snd (fst (upload E now {| file := Some f |} db)) with
       | RespSuccess s _ => length added = imported s
       | RespDuplicate _ _ _ => added = []
       | RespError _ _ => added = []
       | RespFailed _ _ _ => True
       end
    /\ Forall (fun s => stored_file_hash s = md5 E (buffer f)
                        /\ In (stored s) (parsed E (buffer f))) added.
Proof.
  destruct (upload_paths E now f db)
    as [(l & ls & _ & ->)|[(err & _ & _ & ->)|[(err & out & _ & _ & _ & ->)|H]]];
    cbn [fst snd transactions import_logs].
  - exists [], []. rewrite !app_nil_r. repeat split; auto.
  - exists [], []. rewrite !app_nil_r. repeat split; auto.
  - exists [], [setFailed err (newLog now (originalname f) (md5 E (buffer f)) db)].
    rewrite !app_nil_r. repeat split; auto.
  - destruct H as (txs & out & ins & c & trace2 & _ & _ & Hp & -> & Himp & _ & _
                   & _ & Hincl & _).
    cbn [fst snd transactions import_logs imported].
    eexists. eexists. split; [reflexivity|]. split; [reflexivity|].
    split; [cbn [length]; lia|].
    split; [unfold storedAs; now rewrite length_map|].
    apply Forall_forall. intros s Hs. unfold storedAs in Hs.
    apply in_map_iff in Hs as (t & <- & Ht). cbn [stored stored_file_hash].
    split; [reflexivity|]. unfold parsed. rewrite Hp. cbn [fst]. now apply Hincl.
Qed.

(** ** Invariants of the two tables *)

Lemma NoDup_snoc (A : Type) (l : list A) (x : A) :
  NoDup l -> ~ In x l -> NoDup (l ++ [x]).
Proof.
  intros Hl Hx. apply (NoDup_Add (Add_app x l [])).
  rewrite app_nil_r. now split.
Qed.

Lemma selectLogs_nil (h : jsstring) (db : Database) :
  selectLogs h db = [] -> ~ In h (map file_hash (import_logs db)).
Proof.
  unfold selectLogs. intros Hsel Hin.
  apply in_map_iff in Hin as (l & Hl & Hin).
  assert (Hf : In l (filter (fun l => str_eqb (file_hash l) h) (import_logs db))).
  { apply filter_In. split; [exact Hin|]. rewrite Hl. apply str_eqb_refl. }
  rewrite Hsel in Hf. contradiction.
Qed.

Lemma nextId_not_in (db : Database) : ~ In (nextId db) (map id (import_logs db)).
Proof.
  intros Hin. apply in_map_iff in Hin as (l & Hl & Hin).
  now apply (nextId_fresh db l Hin).
Qed.

(** X13: an upload that runs on its own (requests one after the other)
    keeps the fingerprints of the import log pairwise distinct, as the
    UNIQUE constraint on [file_hash] demands, and keeps the log ids pairwise
    distinct. *)
Theorem upload_keeps_logs_unique (E : Env) (now : nat) (req : Request)
    (db : Database) :
  NoDup (map file_hash (import_logs db)) ->
  NoDup (map id (import_logs db)) ->
  NoDup (map file_hash (import_logs (fst (fst (upload E now req db)))))
  /\ NoDup (map id (import_logs (fst (fst (upload E now req db))))).
Proof.
  intros Hh Hid. destruct req as [[f|]]; [|now split].
  destruct (upload_paths E now f db)
    as [(l & ls & _ & ->)|[(err & _ & _ & ->)
       |[(err & out & Hsel & _ & _ & ->)|H]]];
    cbn [fst snd import_logs]; try (now split).
  - rewrite !map_app. cbn [map file_hash id setFailed newLog]. split.
    + apply NoDup_snoc; [exact Hh|now apply selectLogs_nil].
    + apply NoDup_snoc; [exact Hid|apply nextId_not_in].
  - destruct H as (txs & out & ins & c & trace2 & Hsel & _ & _ & -> & _).
    cbn [fst snd import_logs]. rewrite !map_app.
    cbn [map file_hash id setCompleted newLog]. split.
    + apply NoDup_snoc; [exact Hh|now apply selectLogs_nil].
    + apply NoDup_snoc; [exact Hid|apply nextId_not_in].
Qed.

Lemma upload_keeps_logs_unique_witness :
  length (import_logs afterMarch) = 1
  /\ length (import_logs
               (fst (fst (upload Demo.env 200
                            (Demo.post "kopie.csv" Demo.tenRows) afterMarch))))
     = 1
  /\ length (import_logs
               (fst (fst (upload Demo.env 300
                            (Demo.post "april.csv" (Demo.transfers "APRIL"))
                            afterMarch))))
     = 2
  /\ NoDup (map file_hash
              (import_logs
                 (fst (fst (upload Demo.env 200
                              (Demo.post "kopie.csv" Demo.tenRows) afterMarch)))))
  /\ NoDup (map file_hash
              (import_logs
                 (fst (fst (upload Demo.env 300
                              (Demo.post "april.csv" (Demo.transfers "APRIL"))
                              afterMarch))))).
Proof.
  assert (Hh : NoDup (map file_hash (import_logs afterMarch)))
    by (vm_compute; constructor; [intros []|constructor]).
  assert (Hid : NoDup (map id (import_logs afterMarch)))
    by (vm_compute; constructor; [intros []|constructor]).
  split; [vm_compute; reflexivity|]. split; [vm_compute; reflexivity|].
  split; [vm_compute; reflexivity|]. split.
  - exact (proj1 (upload_keeps_logs_unique Demo.env 200
                    (Demo.post "kopie.csv" Demo.tenRows) afterMarch Hh Hid)).
  - exact (proj1 (upload_keeps_logs_unique Demo.env 300
                    (Demo.post "april.csv" (Demo.transfers "APRIL"))
                    afterMarch Hh Hid)).
Defined.

(** X14: an upload keeps the table of transactions free of rows that
    collide on the unique key: if no stored row collides with an earlier
    one before the upload, none does after it, although rows of the file may
    collide with stored rows or with each other. *)
Theorem upload_keeps_keys_distinct (E : Env) (now : nat) (req : Request)
    (db : Database) :
  keysDistinct E (transactions db) ->
  keysDistinct E (transactions (fst (fst (upload E now req db)))).
Proof.
  intros Hd. destruct req as [[f|]]; [|exact Hd].
  destruct (upload_paths E now f db)
    as [(l & ls & _ & ->)|[(err & _ & _ & ->)|[(err & out & _ & _ & _ & ->)|H]]];
    cbn [fst snd transactions]; try exact Hd.
  destruct H as (txs & out & ins & c & trace2 & _ & _ & _ & -> & _ & _ & _
                 & _ & _ & _ & _ & Hkeys).
  cbn [fst snd transactions]. now apply Hkeys.
Qed.

Lemma upload_keeps_keys_distinct_witness :
  keysDistinct Demo.env (transactions (fst (fst
    (upload Demo.env 100
       (Demo.post "dubbel.csv"
          (Demo.csv [Demo.header;
                     "BE68539007547034;01/03/2024;1;BE71096123456769;-12,30;HUUR";
                     "BE68539007547034;01/03/2024;1;BE71096123456769;-12,30;HUUR"]%string))
       Demo.emptyDb)))).
Proof.
  apply upload_keeps_keys_distinct. constructor.
Defined.

(** X15: the log row of an upload and its response agree.  After a
    success response the last log row carries the file's fingerprint, the
    status completed, the completion time and the four counts of the
    summary; it stores no error sample exactly when the error count is 0,
    and the errors of the response are the first five of the stored sample.
    After a failed parse the last log row is marked failed with the message
    of the response and has no completion time.  A duplicate or a refused
    log row leaves both tables as they were, and the date of a duplicate
    response is that of a log row with the file's fingerprint. *)
Theorem upload_log_matches_response (E : Env) (now : nat) (f : UploadedFile)
    (db : Database) :
  let db' := fst (fst (upload E now {| file := Some f |} db)) in
  match snd (fst (upload E now {| file := Some f |} db)) with
  | RespSuccess s errs =>
      exists l,
        import_logs db' = import_logs db ++ [l]
        /\ file_hash l = md5 E (buffer f) /\ filename l = originalname f
        /\ import_status l = completed /\ completed_at l = Some now
        /\ total_records l = totalRecords s
        /\ imported_records l = imported s
        /\ skipped_records l = skipped s
        /\ error_records l = errors s
        /\ (error_message l = None <-> errors s = 0)
        /\ errs = firstn 5 match error_message l with
                           | Some (ErrorSample sample) => sample
                           | _ => []
                           end
  | RespError _ err =>
      exists l,
        import_logs db' = import_logs db ++ [l]
        /\ file_hash l = md5 E (buffer f) /\ filename l = originalname f
        /\ import_status l = failed /\ completed_at l = None
        /\ error_message l = Some (ErrorText err)
        /\ transactions db' = transactions db
  | RespDuplicate _ _ date =>
      db' = db
      /\ exists l, In l (import_logs db) /\ file_hash l = md5 E (buffer f)
                   /\ imported_at l = date
  | RespFailed _ _ _ => db' = db
  end.
Proof.
  cbv zeta.
  destruct (upload_paths E now f db)
    as [(l & ls & Hsel & ->)|[(err & _ & _ & ->)
       |[(err & out & _ & _ & _ & ->)|H]]];
    cbn [fst snd].
  - split; [reflexivity|]. exists l.
    assert (Hin : In l (selectLogs (md5 E (buffer f)) db))
      by (rewrite Hsel; now left).
    apply filter_In in Hin as [Hin Heq]. apply str_eqb_eq in Heq. auto.
  - reflexivity.
  - eexists. split; [reflexivity|]. repeat split; reflexivity.
  - destruct H as (txs & out & ins & c & trace2 & _ & _ & _ & -> & _ & Hlist
                   & Herr & _).
    cbn [fst snd]. eexists. split; [reflexivity|].
    cbn [file_hash filename import_status completed_at total_records
         imported_records skipped_records error_records error_message
         setCompleted newLog totalRecords imported skipped errors].
    split; [reflexivity|]. split; [reflexivity|].
    split; [now destruct (errorCount c =? 0)|].
    split; [reflexivity|]. split; [reflexivity|]. split; [reflexivity|].
    split; [reflexivity|]. split; [reflexivity|].
    rewrite Herr, Hlist. destruct (rowErrors E 0 txs) as [|e es].
    + split; [split; reflexivity|reflexivity].
    + split; [split; discriminate|].
      change (firstn 5 (e :: es)) with (firstn (Nat.min 5 10) (e :: es)).
      now rewrite <- firstn_firstn.
Qed.

(** ** Transactions with a full key *)

(** A completed import in terms of the loop it ran. *)
Lemma upload_success_loop (E : Env) (now : nat) (f : UploadedFile)
    (db : Database) (s : Summary) (errs : list RowError) :
  snd (fst (upload E now {| file := Some f |} db)) = RespSuccess s errs ->
  exists txs out,
    selectLogs (md5 E (buffer f)) db = []
    /\ parseBelgianBankCSV (Papa_parse E) (utf8 E (buffer f)) = (Success txs, out)
    /\ transactions (fst (fst (upload E now {| file := Some f |} db)))
       = transactions (fst (fst
           (importRows E (md5 E (buffer f)) 0 txs
              {| import_logs := import_logs db
                   ++ [newLog now (originalname f) (md5 E (buffer f)) db];
                 transactions := transactions db |}
              noCounts
              (Console (LogUpload (originalname f))
               :: ParserCall (utf8 E (buffer f)) :: map Console out)))).
Proof.
  destruct (selectLogs (md5 E (buffer f)) db) as [|l ls] eqn:Hsel.
  2:{ rewrite (upload_known E now f db l ls Hsel). discriminate. }
  destruct (log_error E (originalname f) (md5 E (buffer f))) as [err|] eqn:Hlog.
  { unfold upload. cbn [file]. rewrite Hsel. cbv zeta. rewrite Hlog. discriminate. }
  rewrite (upload_fresh E now f db Hsel Hlog). cbv zeta.
  destruct (parseBelgianBankCSV (Papa_parse E) (utf8 E (buffer f)))
    as [[txs|err] out]; [|discriminate].
  intros _. exists txs, out. split; [reflexivity|]. split; [reflexivity|].
  now destruct (importRows E (md5 E (buffer f)) 0 txs _ noCounts _) as [[db2 c] trace2].
Qed.

Lemma upload_stores (E : Env) (now : nat) (f : UploadedFile) (db : Database)
    (s : Summary) (errs : list RowError) (t : Transaction) :
  snd (fst (upload E now {| file := Some f |} db)) = RespSuccess s errs ->
  In t (parsed E (buffer f)) ->
  column_error E t = None ->
  counterpartAccount t <> None -> referenceNumber t <> None ->
  exists st,
    In st (transactions (fst (fst (upload E now {| file := Some f |} db))))
    /\ unique_transaction E t (stored st) = true.
Proof.
  intros H Hin Hcol Hcp Href.
  destruct (upload_success_loop E now f db s errs H) as (txs & out & _ & Hp & ->).
  unfold parsed in Hin. rewrite Hp in Hin. cbn [fst] in Hin.
  now apply importRows_stores.
Qed.

(** A file whose transactions the server raises no column error for and
    that all collide with stored rows: every one is skipped and the table is
    left as it is. *)
Lemma upload_all_collide (E : Env) (now : nat) (f : UploadedFile)
    (db : Database) (txs : list Transaction) :
  selectLogs (md5 E (buffer f)) db = [] ->
  log_error E (originalname f) (md5 E (buffer f)) = None ->
  fst (parseBelgianBankCSV (Papa_parse E) (utf8 E (buffer f))) = Success txs ->
  (forall t, In t txs ->
     column_error E t = None
     /\ exists st, In st (transactions db)
                   /\ unique_transaction E t (stored st) = true) ->
  snd (fst (upload E now {| file := Some f |} db))
  = RespSuccess {| totalRecords := length txs; imported := 0;
                   skipped := length txs; errors := 0 |} []
  /\ transactions (fst (fst (upload E now {| file := Some f |} db)))
     = transactions db.
Proof.
  intros Hsel Hlog Hp Hall.
  rewrite (upload_fresh E now f db Hsel Hlog). cbv zeta.
  destruct (parseBelgianBankCSV (Papa_parse E) (utf8 E (buffer f)))
    as [res out]. cbn [fst] in Hp. subst res.
  rewrite importRows_all_skipped by exact Hall.
  cbn [fst snd transactions importedCount skippedCount errorCount errorList
       noCounts firstn Nat.add]. now split.
Qed.

(** X16: after a completed import, every parsed transaction of the file
    that the server raised no column error for and whose counterpart
    account and reference number are not NULL is represented in the table:
    a stored row, new or older, has its unique key. *)
Theorem completed_import_stores_full_keys (E : Env) (now : nat)
    (f : UploadedFile) (db : Database) (s : Summary) (errs : list RowError) :
  snd (fst (upload E now {| file := Some f |} db)) = RespSuccess s errs ->
  Forall (fun t =>
            column_error E t = None ->
            counterpartAccount t <> None -> referenceNumber t <> None ->
            exists st,
              In st (transactions
                       (fst (fst (upload E now {| file := Some f |} db))))
              /\ unique_transaction E t (stored st) = true)
         (parsed E (buffer f)).
Proof.
  intros H. apply Forall_forall. intros t Hin Hcol Hcp Href.
  destruct (upload_stores E now f db s errs t H Hin Hcol Hcp Href)
    as (st & Hst & Hu).
  exists st. split; [exact Hst|exact Hu].
Qed.

(** X17: re-import under another fingerprint.  When an import has
    completed, a later file with a fingerprint not on record is imported
    with every transaction skipped, and nothing is added to the table,
    provided each of its parsed transactions raises no column error, holds a
    counterpart account and a reference number, and agrees on the five key
    columns with a parsed transaction of the first file that raised no
    column error either (one the first import stored or skipped, not one it
    counted as an error). *)
Theorem reimport_with_full_keys_is_skipped (E : Env) (now1 now2 : nat)
    (f1 f2 : UploadedFile) (db : Database) (s1 : Summary)
    (errs1 : list RowError) (txs2 : list Transaction) :
  let db1 := fst (fst (upload E now1 {| file := Some f1 |} db)) in
  snd (fst (upload E now1 {| file := Some f1 |} db)) = RespSuccess s1 errs1 ->
  selectLogs (md5 E (buffer f2)) db1 = [] ->
  log_error E (originalname f2) (md5 E (buffer f2)) = None ->
  fst (parseBelgianBankCSV (Papa_parse E) (utf8 E (buffer f2))) = Success txs2 ->
  (forall t2, In t2 txs2 ->
     column_error E t2 = None
     /\ counterpartAccount t2 <> None /\ referenceNumber t2 <> None
     /\ exists t1, In t1 (parsed E (buffer f1))
                   /\ keyTuple t1 = keyTuple t2 /\ column_error E t1 = None) ->
  snd (fst (upload E now2 {| file := Some f2 |} db1))
  = RespSuccess {| totalRecords := length txs2; imported := 0;
                   skipped := length txs2; errors := 0 |} []
  /\ transactions (fst (fst (upload E now2 {| file := Some f2 |} db1)))
     = transactions db1.
Proof.
  intros db1 H1 Hsel Hlog Hp Hall.
  apply upload_all_collide; [exact Hsel|exact Hlog|exact Hp|].
  intros t2 Ht2. destruct (Hall t2 Ht2) as (Hc2 & Hcp & Href & t1 & Ht1 & Hk & Hc1).
  split; [exact Hc2|].
  assert (Hcp1 : counterpartAccount t1 <> None)
    by (unfold keyTuple in Hk; injection Hk as _ _ _ -> _; exact Hcp).
  assert (Href1 : referenceNumber t1 <> None)
    by (unfold keyTuple in Hk; injection Hk as _ _ _ _ ->; exact Href).
  destruct (upload_stores E now1 f1 db s1 errs1 t1 H1 Ht1 Hc1 Hcp1 Href1)
    as (st & Hst & Hu).
  exists st. split; [exact Hst|].
  now rewrite <- (unique_transaction_key E t1 t2 (stored st) Hk).
Qed.

Lemma completed_import_stores_full_keys_witness :
  exists t st,
    nth_error (parsed Demo.env (Demo.transfers "MAART")) 0 = Some t
    /\ In st (transactions (fst (fst
         (upload Demo.env 100
            {| file := Some {| path := js "uploads/maart.csv";
                               originalname := js "maart.csv";
                               buffer := Demo.transfers "MAART" |} |}
            Demo.emptyDb))))
    /\ unique_transaction Demo.env t (stored st) = true.
Proof.
  assert (H : { t | nth_error (parsed Demo.env (Demo.transfers "MAART")) 0 = Some t
                    /\ counterpartAccount t <> None /\ referenceNumber t <> None }).
  { eexists. vm_compute. split; [reflexivity|]. split; discriminate. }
  destruct H as (t & Hn & Hcp & Href).
  assert (Hall := completed_import_stores_full_keys Demo.env 100
              {| path := js "uploads/maart.csv"; originalname := js "maart.csv";
                 buffer := Demo.transfers "MAART" |} Demo.emptyDb
              {| totalRecords := 5; imported := 5; skipped := 0; errors := 0 |}
              [] ltac:(vm_compute; reflexivity)).
  rewrite Forall_forall in Hall.
  destruct (Hall t (nth_error_In _ _ Hn) eq_refl Hcp Href) as (st & Hst & Hu).
  exists t, st. split; [exact Hn|]. split; [exact Hst|exact Hu].
Defined.

Ltac same_key_at l d k :=
  exists (nth k l d);
  (split; [vm_compute; tauto|split; vm_compute; reflexivity]).

Ltac find_same_key l :=
  match goal with
  | |- exists t1, _ /\ keyTuple t1 = keyTuple ?d /\ _ =>
      first [ same_key_at l d 0 | same_key_at l d 1 | same_key_at l d 2
            | same_key_at l d 3 | same_key_at l d 4 ]
  end.

Lemma reimport_with_full_keys_is_skipped_witness :
  snd (fst (upload Demo.env 200
              {| file := Some {| path := js "uploads/april.csv";
                                 originalname := js "april.csv";
                                 buffer := Demo.transfers "APRIL" |} |}
              (fst (fst (upload Demo.env 100
                           {| file := Some {| path := js "uploads/maart.csv";
                                              originalname := js "maart.csv";
                                              buffer := Demo.transfers "MAART" |} |}
                           Demo.emptyDb)))))
  = RespSuccess
      {| totalRecords := length (parsed Demo.env (Demo.transfers "APRIL"));
         imported := 0;
         skipped := length (parsed Demo.env (Demo.transfers "APRIL"));
         errors := 0 |} [].
Proof.
  apply (reimport_with_full_keys_is_skipped Demo.env 100 200
           {| path := js "uploads/maart.csv"; originalname := js "maart.csv";
              buffer := Demo.transfers "MAART" |}
           {| path := js "uploads/april.csv"; originalname := js "april.csv";
              buffer := Demo.transfers "APRIL" |}
           Demo.emptyDb
           {| totalRecords := 5; imported := 5; skipped := 0; errors := 0 |} []
           (parsed Demo.env (Demo.transfers "APRIL"))).
  - vm_compute. reflexivity.
  - vm_compute. reflexivity.
  - reflexivity.
  - vm_compute. reflexivity.
  - intros t2 Hin. vm_compute in Hin.
    destruct Hin as [<-|[<-|[<-|[<-|[<-|[]]]]]];
      (split; [reflexivity|]); (split; [discriminate|]);
      (split; [discriminate|]);
      find_same_key (parsed Demo.env (Demo.transfers "MAART")).
Defined.

(** ** The positional parser *)

Lemma findDataStart_later (rows : list Row) :
  forall i, 0 < i ->
    (Positional.findDataStart i rows = 0
     <-> forall row, In row rows -> Positional.firstCellBE row = false).
Proof.
  induction rows as [|row rows IH]; intros i Hi; cbn [Positional.findDataStart].
  - split; [intros _ row []|reflexivity].
  - destruct (Positional.firstCellBE row) eqn:Hbe.
    + split; [lia|]. intros H. specialize (H row (or_introl eq_refl)). congruence.
    + rewrite (IH (S i)) by lia. split.
      * intros H r [<-|Hr]; [exact Hbe|now apply H].
      * intros H r Hr. apply H. now right.
Qed.

(** X18: the positional parser takes index 0 both for "the first record
    starts the data" and for "no record found".  Its answer is "Could not
    find transaction data in CSV file" exactly when no record has a first
    cell that starts with BE, or when the very first record has one; so a
    file whose first record is a transaction is rejected, however many valid
    records follow. *)
Theorem positional_parser_rejects_leading_transaction
    (Papa_parse : jsstring -> Papa.Result) (csvContent : jsstring) :
  Papa.errors (Papa_parse csvContent) = [] ->
  (fst (Positional.parseBelgianBankCSV Papa_parse csvContent)
   = Failure (js "Could not find transaction data in CSV file")
   <-> (forall row, In row (Papa.data (Papa_parse csvContent)) ->
          Positional.firstCellBE row = false)
       \/ (exists first rest,
             Papa.data (Papa_parse csvContent) = first :: rest
             /\ Positional.firstCellBE first = true)).
Proof.
  intros He. unfold Positional.parseBelgianBankCSV. rewrite He.
  assert (Hz : Positional.findDataStart 0 (Papa.data (Papa_parse csvContent)) = 0
               <-> (forall row, In row (Papa.data (Papa_parse csvContent)) ->
                      Positional.firstCellBE row = false)
                   \/ (exists first rest,
                         Papa.data (Papa_parse csvContent) = first :: rest
                         /\ Positional.firstCellBE first = true)).
  { destruct (Papa.data (Papa_parse csvContent)) as [|first rest];
      cbn [Positional.findDataStart].
    - split; [intros _; left; intros row []|reflexivity].
    - destruct (Positional.firstCellBE first) eqn:Hbe.
      + split; [intros _; right; now exists first, rest|reflexivity].
      + rewrite (findDataStart_later rest 1) by lia. split.
        * intros H. left. intros r [<-|Hr]; [exact Hbe|now apply H].
        * intros [H|(f & r & [= <- <-] & Hf)]; [|congruence].
          intros r Hr. apply H. now right. }
  destruct (Positional.findDataStart 0 (Papa.data (Papa_parse csvContent)) =? 0)
    eqn:Hd.
  - apply Nat.eqb_eq in Hd. cbn [fst]. split; [intros _; now apply Hz|reflexivity].
  - apply Nat.eqb_neq in Hd. split.
    + intros H. exfalso.
      destruct (Positional.processRows _ _ [] []) as [[|t ts] console];
        cbn [fst] in H; [|discriminate].
      injection H as H. vm_compute in H. discriminate.
    + intros H. apply Hz in H. contradiction.
Qed.

Lemma positional_parser_rejects_leading_transaction_witness :
  fst (Positional.parseBelgianBankCSV Demo.plainTokenizer
         (Demo.decode Demo.tenRows))
  = Failure (js "Could not find transaction data in CSV file").
Proof.
  apply positional_parser_rejects_leading_transaction.
  - vm_compute. reflexivity.
  - right. eexists. eexists. split; [vm_compute; reflexivity|reflexivity].
Defined.

(** X19: on a record that has exactly the fifteen Belfius columns, under
    their names and in their order, reading the cells by position and
    reading them by name give the same outcome: the same transaction, the
    same null, or the same thrown message. *)
Theorem mappers_agree_on_belfius_columns (cells : list jsstring) :
  length cells = 15 ->
  Positional.parseTransactionRow (combine (map js belfiusColumns) cells)
  = parseTransactionRow (combine (map js belfiusColumns) cells).
Proof.
  intros Hlen.
  do 15 (destruct cells as [|? cells]; [discriminate|]).
  destruct cells; [|discriminate].
  rewrite parseTransactionRow_mapFields. reflexivity.
Qed.

Lemma mappers_agree_on_belfius_columns_witness :
  Positional.parseTransactionRow
    (combine (map js belfiusColumns)
       (split (ch ";")
          (js "BE68539007547034;01/03/2024;12;345;BE71096123456769;BAKKER;Dorpsstraat 1;2600  BERCHEM;Overschrijving;01/03/2024;-12,30;EUR;GKCCBEBB;BE;BROOD REF. : B77")))
  = parseTransactionRow
      (combine (map js belfiusColumns)
         (split (ch ";")
            (js "BE68539007547034;01/03/2024;12;345;BE71096123456769;BAKKER;Dorpsstraat 1;2600  BERCHEM;Overschrijving;01/03/2024;-12,30;EUR;GKCCBEBB;BE;BROOD REF. : B77"))).
Proof.
  apply mappers_agree_on_belfius_columns. vm_compute. reflexivity.
Defined.

(** ** The database configuration *)

Lemma falsy_iff (v : option jsstring) : falsy v = true <-> v = None \/ v = Some [].
Proof.
  destruct v as [[|c r]|]; cbn [falsy isEmpty];
    (split; [intros H; try discriminate; auto
            |intros [H|H]; try discriminate; reflexivity]).
Qed.

Lemma parseIntOr_not_zero (v : option jsstring) (d : Z) :
  d <> 0%Z -> parseIntOr v d <> 0%Z.
Proof.
  intros Hd. unfold parseIntOr. destruct v as [s|]; [|exact Hd].
  destruct (parseInt s) as [n|]; [|exact Hd].
  destruct (n =? 0)%Z eqn:Hn; [exact Hd|]. now apply Z.eqb_neq.
Qed.

(** X20: the constructor of the database object throws exactly when one
    of DB_HOST, DB_USER, DB_PASSWORD, DB_NAME is unset or empty (an empty
    password counts as missing).  When it returns, the port is never 0: it
    is 3306 when DB_PORT is unset, has no integer prefix, or reads as 0. *)
Theorem database_constructor_settings (env : Config.ProcessEnv) :
  ((exists m, Config.constructor env = Thrown m)
   <-> exists key, In key Config.required
                   /\ (env key = None \/ env key = Some []))
  /\ (forall cfg, Config.constructor env = Returned cfg ->
        Config.port cfg <> 0%Z
        /\ (match env "DB_PORT"%string with
            | None => True
            | Some v => parseInt v = None \/ parseInt v = Some 0%Z
            end -> Config.port cfg = 3306%Z)).
Proof.
  unfold Config.constructor, Config.validateConfig. split.
  - destruct (Config.missing env) as [|k ks] eqn:Hm.
    + split; [intros [m H]; discriminate|].
      intros (key & Hin & Hf). apply falsy_iff in Hf.
      assert (Hk : In key (Config.missing env))
        by (apply filter_In; now split).
      rewrite Hm in Hk. contradiction.
    + split; [|intros _; eexists; reflexivity].
      intros _. exists k.
      assert (Hk : In k (Config.missing env)) by (rewrite Hm; now left).
      apply filter_In in Hk as [Hin Hf]. split; [exact Hin|now apply falsy_iff].
  - intros cfg. destruct (Config.missing env); [|discriminate].
    intros [= <-]. cbn [Config.port]. split.
    + now apply parseIntOr_not_zero.
    + unfold parseIntOr. destruct (env "DB_PORT"%string) as [v|]; [|reflexivity].
      intros [->| ->]; reflexivity.
Qed.

Lemma database_constructor_settings_witness :
  exists m,
    Config.constructor
      (fun key => if String.eqb key "DB_PASSWORD" then Some [] else Some (js "x"))
    = Thrown m.
Proof.
  apply (database_constructor_settings
           (fun key => if String.eqb key "DB_PASSWORD" then Some [] else Some (js "x"))).
  exists "DB_PASSWORD"%string. split; [vm_compute; tauto|right; reflexivity].
Defined.

(** ** The list route *)

(** X21: whatever the query, the two statements of the list route have
    as many place holders as parameters bound to them, and their texts
    depend only on which of the three filters are given, never on what the
    filters or the paging parameters hold: request text reaches the server
    as bound values only. *)
Theorem list_statements_bind_every_value :
  (forall q : ListQuery,
      placeholders (fst (countQuery q)) = length (snd (countQuery q))
      /\ placeholders (fst (pageQuery q)) = length (snd (pageQuery q)))
  /\ (forall q q' : ListQuery,
         falsy (query_account q) = falsy (query_account q') ->
         falsy (query_startDate q) = falsy (query_startDate q') ->
         falsy (query_endDate q) = falsy (query_endDate q') ->
         fst (countQuery q) = fst (countQuery q')
         /\ fst (pageQuery q) = fst (pageQuery q')).
Proof.
  split.
  - intros [p l a s e].
    destruct a as [[|? ?]|], s as [[|? ?]|], e as [[|? ?]|];
      split; reflexivity.
  - intros q q' Ha Hs He. unfold countQuery, pageQuery, whereClause, condition.
    cbn [fst]. now rewrite Ha, Hs, He.
Qed.

Lemma list_statements_bind_every_value_witness :
  fst (pageQuery {| query_page := None; query_limit := None;
                    query_account := Some (js "BE68539007547034");
                    query_startDate := None; query_endDate := None |})
  = fst (pageQuery {| query_page := Some (js "2"); query_limit := Some (js "10");
                      query_account := Some (js "' OR 1=1 --");
                      query_startDate := None; query_endDate := None |}).
Proof.
  destruct list_statements_bind_every_value as [_ H].
  apply H; reflexivity.
Defined.

(** A value that is absent, has no integer prefix or reads as 0 gives the
    default. *)
Lemma parseIntOr_default (v : option jsstring) (d : Z) :
  (v = None
   \/ exists s, v = Some s /\ (parseInt s = None \/ parseInt s = Some 0%Z)) ->
  parseIntOr v d = d.
Proof.
  unfold parseIntOr. intros [->|(s & -> & [->| ->])]; reflexivity.
Qed.

Lemma parseIntOr_given (v : option jsstring) (d : Z) (s : jsstring) (n : Z) :
  v = Some s -> parseInt s = Some n -> n <> 0%Z -> parseIntOr v d = n.
Proof.
  unfold parseIntOr. intros -> -> Hn.
  apply Z.eqb_neq in Hn. now rewrite Hn.
Qed.

(** X22: the page and the limit of the list route are never 0.  A
    parameter that is absent, has no integer prefix or reads as 0 gives page
    1 and limit 50; any other gives the integer it starts with (for
    integers below 2^53 in magnitude, which the engine holds exactly).  For
    a count from 0 to 2^53 and a limit from 1 to 2^53, [totalPages] pages of
    [limit] rows are the fewest that hold the count, and a page from 1 on,
    with page times limit below 2^53, has an offset below the count exactly
    when it is not beyond [totalPages]. *)
Theorem list_paging (q : ListQuery) (total : Z) :
  page q <> 0%Z /\ limit q <> 0%Z
  /\ ((query_page q = None
       \/ exists s, query_page q = Some s
                    /\ (parseInt s = None \/ parseInt s = Some 0%Z)) ->
      page q = 1%Z)
  /\ ((query_limit q = None
       \/ exists s, query_limit q = Some s
                    /\ (parseInt s = None \/ parseInt s = Some 0%Z)) ->
      limit q = 50%Z)
  /\ (forall s n, query_page q = Some s -> parseInt s = Some n ->
        n <> 0%Z -> (Z.abs n < 2 ^ 53)%Z -> page q = n)
  /\ (forall s n, query_limit q = Some s -> parseInt s = Some n ->
        n <> 0%Z -> (Z.abs n < 2 ^ 53)%Z -> limit q = n)
  /\ ((0 <= total < 2 ^ 53)%Z -> (1 <= limit q < 2 ^ 53)%Z ->
      ((totalPages total (limit q) - 1) * limit q < total
       <= totalPages total (limit q) * limit q)%Z
      /\ ((1 <= page q)%Z -> (page q * limit q < 2 ^ 53)%Z ->
          (offset q < total)%Z <-> (page q <= totalPages total (limit q))%Z)).
Proof.
  split; [apply parseIntOr_not_zero; lia|].
  split; [apply parseIntOr_not_zero; lia|].
  split; [apply parseIntOr_default|].
  split; [apply parseIntOr_default|].
  split; [intros s n Hs Hn Hz _; exact (parseIntOr_given _ _ s n Hs Hn Hz)|].
  split; [intros s n Hs Hn Hz _; exact (parseIntOr_given _ _ s n Hs Hn Hz)|].
  intros Ht Hl. unfold offset, totalPages.
  pose proof (Z.mul_div_le (- total) (limit q) ltac:(lia)) as H1.
  pose proof (Z.mul_succ_div_gt (- total) (limit q) ltac:(lia)) as H2.
  set (d := (- total / limit q)%Z) in *.
  split; [nia|]. intros Hp _. split; intros H; nia.
Qed.

Lemma list_paging_witness :
  limit {| query_page := Some (js "0"); query_limit := Some (js "abc");
           query_account := None; query_startDate := None;
           query_endDate := None |} = 50%Z
  /\ page {| query_page := Some (js "0"); query_limit := Some (js "abc");
             query_account := None; query_startDate := None;
             query_endDate := None |} = 1%Z
  /\ page {| query_page := Some (js "3"); query_limit := Some (js "50");
             query_account := None; query_startDate := None;
             query_endDate := None |} = 3%Z
  /\ (offset {| query_page := Some (js "3"); query_limit := Some (js "50");
                query_account := None; query_startDate := None;
                query_endDate := None |} < 101)%Z.
Proof.
  destruct (list_paging {| query_page := Some (js "0");
                           query_limit := Some (js "abc");
                           query_account := None; query_startDate := None;
                           query_endDate := None |} 0)
    as (_ & _ & Hp0 & Hl0 & _).
  destruct (list_paging {| query_page := Some (js "3");
                           query_limit := Some (js "50");
                           query_account := None; query_startDate := None;
                           query_endDate := None |} 101)
    as (_ & _ & _ & _ & Hp & _ & Hpaging).
  split.
  { apply Hl0. right. exists (js "abc"). split; [reflexivity|left; reflexivity]. }
  split.
  { apply Hp0. right. exists (js "0"). split; [reflexivity|right; reflexivity]. }
  split.
  { apply (Hp (js "3") 3%Z); [reflexivity|reflexivity|lia|vm_compute; reflexivity]. }
  destruct Hpaging as [_ Hoff]; [lia|vm_compute; split; [discriminate|reflexivity]|].
  apply Hoff; [vm_compute; discriminate|vm_compute; reflexivity|vm_compute; discriminate].
Defined.

(** ** The front end *)

(** X23: a truncated text is never longer than the limit plus the three
    dots.  A text within the limit is shown as it is; a longer one is cut to
    its first [maxLength] characters followed by three dots, which makes it
    exactly [maxLength + 3] long (longer than the original when the
    original exceeds the limit by one or two characters); a missing or
    empty text is shown as the empty string. *)
Theorem truncateText_bounds (text : option jsstring) (maxLength : nat) :
  length (truncateText text maxLength) <= maxLength + 3
  /\ (forall t, text = Some t -> length t <= maxLength ->
        truncateText text maxLength = t)
  /\ (forall t, text = Some t -> maxLength < length t ->
        truncateText text maxLength = firstn maxLength t ++ js "..."
        /\ length (truncateText text maxLength) = maxLength + 3)
  /\ (text = None -> truncateText text maxLength = []).
Proof.
  assert (Hlong : forall t : jsstring, maxLength < length t ->
            length (firstn maxLength t ++ js "...") = maxLength + 3).
  { intros t Ht. rewrite length_app, length_firstn.
    change (length (js "...")) with 3. lia. }
  destruct text as [[|c r]|]; cbn [truncateText].
  - split; [cbn; lia|]. split; [now intros t [= <-]|].
    split; [intros t [= <-] H; cbn in H; lia|discriminate].
  - destruct (maxLength <? length (c :: r)) eqn:Hlt.
    + apply Nat.ltb_lt in Hlt. split; [rewrite Hlong; [lia|exact Hlt]|].
      split; [intros t [= <-] H; lia|].
      split; [|discriminate].
      intros t [= <-] _. split; [reflexivity|now apply Hlong].
    + apply Nat.ltb_ge in Hlt. split; [lia|].
      split; [now intros t [= <-]|].
      split; [|discriminate]. intros t [= <-] H. lia.
  - split; [cbn; lia|]. split; [discriminate|]. split; [discriminate|reflexivity].
Qed.

Lemma truncateText_bounds_witness :
  truncateText (Some (js "Overschrijving")) 12 = js "Overschrijvi..."
  /\ length (truncateText (Some (js "Overschrijving")) 12) = 12 + 3.
Proof.
  destruct (truncateText_bounds (Some (js "Overschrijving")) 12) as (_ & _ & H & _).
  apply (H (js "Overschrijving")); [reflexivity|vm_compute; lia].
Defined.

(** ** Dates with a four-digit year *)

Lemma range_check (P : Z -> bool) (lo n : nat) :
  forallb (fun k => P (Z.of_nat k)) (seq lo n) = true ->
  forall z, (Z.of_nat lo <= z < Z.of_nat (lo + n))%Z -> P z = true.
Proof.
  intros H z Hz. rewrite forallb_forall in H.
  rewrite <- (Z2Nat.id z) by lia. apply H. apply in_seq. lia.
Qed.

Lemma four_digit_year (year : Z) :
  (1000 <= year <= 9999)%Z ->
  exists a b c d,
    Number_toString year = [a; b; c; d] /\ forallb isDigit [a; b; c; d] = true.
Proof.
  intros Hy.
  assert (H : match Number_toString year with
              | [a; b; c; d] => forallb isDigit [a; b; c; d]
              | _ => false
              end = true).
  { apply (range_check
             (fun z => match Number_toString z with
                       | [a; b; c; d] => forallb isDigit [a; b; c; d]
                       | _ => false
                       end) 1000 (90 * 100)); [vm_compute; reflexivity|lia]. }
  destruct (Number_toString year) as [|a [|b [|c [|d [|? ?]]]]]; try discriminate.
  now exists a, b, c, d.
Qed.

Lemma twoDigits_digits (n : Z) :
  (1 <= n <= 31)%Z -> forallb isDigit (twoDigits n) = true.
Proof.
  intros Hn.
  apply (range_check (fun z => forallb isDigit (twoDigits z)) 1 31);
    [vm_compute; reflexivity|lia].
Qed.

(** X24: a date whose year part reads as an integer from 1000 to 9999 is
    returned in the canonical form: four digits, a dash, two digits, a dash,
    two digits. *)
Theorem parseDate_canonical_for_four_digit_year
    (s d p0 p1 p2 : jsstring) (year : Z) :
  split (ch "/") s = [p0; p1; p2] ->
  parseInt p2 = Some year ->
  (1000 <= year <= 9999)%Z ->
  parseDate s = Some d ->
  canonicalDate d = true.
Proof.
  intros Hs Hy Hr Hd.
  apply parseDate_Some in Hd
    as (q0 & q1 & q2 & day & month & year' & Hs' & _ & _ & Hy' & Hday & Hmonth & ->).
  rewrite Hs in Hs'. injection Hs' as <- <- <-.
  rewrite Hy in Hy'. injection Hy' as <-.
  destruct (four_digit_year year Hr) as (a & b & c & e & -> & Hyd).
  pose proof (twoDigits_digits month ltac:(lia)) as Hm.
  pose proof (twoDigits_digits day ltac:(lia)) as Hdd.
  unfold twoDigits in *. change (js "-") with [45%N]. cbn [app].
  cbn [forallb] in Hyd, Hm, Hdd.
  repeat match goal with
         | H : _ && _ = true |- _ => apply andb_true_iff in H; destruct H
         end.
  unfold canonicalDate. cbn [forallb app].
  repeat match goal with
         | H : isDigit _ = true |- _ => rewrite H; clear H
         end.
  reflexivity.
Qed.

Lemma parseDate_canonical_for_four_digit_year_witness :
  canonicalDate (js "2024-03-07") = true.
Proof.
  apply (parseDate_canonical_for_four_digit_year (js " 7/3/2024") (js "2024-03-07")
           (js " 7") (js "3") (js "2024") 2024);
    [reflexivity|reflexivity|lia|vm_compute; reflexivity].
Defined.

(** ** What reaches the server *)

(** X25: the handler sends the table exactly one INSERT per parsed
    transaction, in the order of the parser's list, when the import
    completes, and none at all on every other path (no file, duplicate
    file, refused log row, failed parse). *)
Theorem upload_inserts_each_parsed_once (E : Env) (now : nat) (req : Request)
    (db : Database) :
  insertCalls (snd (upload E now req db))
  = match file req, snd (fst (upload E now req db)) with
    | Some f, RespSuccess _ _ => parsed E (buffer f)
    | _, _ => []
    end.
Proof.
  destruct req as [[f|]]; [|reflexivity]. cbn [file].
  destruct (upload_paths E now f db)
    as [(l & ls & _ & ->)|[(err & _ & _ & ->)|[(err & out & _ & _ & _ & ->)|H]]];
    cbn [fst snd]; try reflexivity.
  - rewrite insertCalls_app.
    change (Console (LogUpload (originalname f))
            :: ParserCall (utf8 E (buffer f)) :: map Console out)
      with ([Console (LogUpload (originalname f));
             ParserCall (utf8 E (buffer f))] ++ map Console out).
    rewrite insertCalls_app. destruct (console_only out) as [_ ->]. reflexivity.
  - destruct H as (txs & out & ins & c & trace2 & _ & _ & Hp & -> & _ & _ & _
                   & _ & _ & _ & Hcalls & _).
    cbn [fst snd]. rewrite insertCalls_app, Hcalls, app_nil_r.
    unfold parsed. now rewrite Hp.
Qed.

(** ** The documented format of a date *)

Lemma canonicalDate_length (d : jsstring) : canonicalDate d = true -> length d = 10.
Proof.
  unfold canonicalDate.
  do 10 (destruct d as [|? d]; [discriminate|]).
  destruct d; [reflexivity|discriminate].
Qed.

Lemma short_year (year : Z) :
  (0 <= year < 1000)%Z -> length (Number_toString year) <= 3.
Proof.
  intros Hy.
  assert (H : (length (Number_toString year) <=? 3) = true).
  { apply (range_check (fun z => length (Number_toString z) <=? 3) 0 1000);
      [vm_compute; reflexivity|lia]. }
  now apply Nat.leb_le.
Qed.

(** C5, a defect of the code: parseDate is documented to return the date in
    YYYY-MM-DD format or null if invalid, and the specification asks for
    null on a part that is not numeric and for a zero-padded YYYY-MM-DD
    otherwise.  The code returns a date that is not in that format for every
    input it accepts whose year part reads as an integer from 0 to 999, as
    for 1/1/24; it accepts a part that only starts with digits, as in
    12abc/03/2024; it reads hexadecimal parts; and it prints a year part of
    twenty digits as the double that holds it. *)
Theorem parseDate_breaks_documented_format :
  (forall (s d p0 p1 p2 : jsstring) (year : Z),
      split (ch "/") s = [p0; p1; p2] ->
      parseInt p2 = Some year -> (0 <= year < 1000)%Z ->
      parseDate s = Some d ->
      canonicalDate d = false)
  /\ (parseDate (js "1/1/24") = Some (js "24-01-01")
      /\ canonicalDate (js "24-01-01") = false)
  /\ (In (js "12abc") (split (ch "/") (js "12abc/03/2024"))
      /\ numericComponent (js "12abc") = false
      /\ parseDate (js "12abc/03/2024") = Some (js "2024-03-12"))
  /\ (numericComponent (js "0x1F") = false
      /\ parseDate (js "0x1F/0xC/0x7E8") = Some (js "2024-12-31"))
  /\ (parseDate (js "1/1/20240000000000000001")
      = Some (js "20240000000000000000-01-01")
      /\ canonicalDate (js "20240000000000000000-01-01") = false).
Proof.
  split.
  - intros s d p0 p1 p2 year Hs Hy Hr Hd.
    apply parseDate_Some in Hd
      as (q0 & q1 & q2 & day & month & year' & Hs' & _ & _ & Hy' & _ & _ & ->).
    rewrite Hs in Hs'. injection Hs' as <- <- <-.
    rewrite Hy in Hy'. injection Hy' as <-.
    destruct (canonicalDate _) eqn:Hc; [|reflexivity].
    apply canonicalDate_length in Hc. pose proof (short_year year Hr) as Hlen.
    rewrite !length_app in Hc. unfold twoDigits in Hc.
    change (length (js "-")) with 1 in Hc. cbn [length] in Hc. lia.
  - repeat split; vm_compute; auto.
Qed.

Lemma parseDate_breaks_documented_format_witness :
  canonicalDate (js "24-01-01") = false.
Proof.
  destruct parseDate_breaks_documented_format as [H _].
  apply (H (js "1/1/24") (js "24-01-01") (js "1") (js "1") (js "24") 24%Z);
    [reflexivity|reflexivity|lia|vm_compute; reflexivity].
Defined.
